(** * PayVerse QA agent ("Zarah"): scenario model, assertions and runner

    A shallow embedding of

    - [src/qa_agent/scenarios.py]  (ActionType, TestStep, StepResult,
      TestScenario, TestResult, TestSuite, their dictionary forms and
      the scenario templates),
    - [src/qa_agent/assertions.py] (the failure log, the string, URL,
      HTML and collection checks, and the fluent chain),
    - [src/qa_agent/agent.py]      (session calls, the step executor, the
      scenario runner, the suite runner and the convenience methods),
    - [src/qa_agent/reporter.py]   (the statistics of a suite run),

    followed by the properties of the specification that concern them
    and by further properties of the code.

    Conventions.  A Python [str] is a Rocq [string] whose characters are
    read as code points below 256.  A Python exception is an instance of
    [Exception], represented by its message [str(e)]; interrupts and task
    cancellation, which [except Exception] does not catch, are outside the
    model.  Times are microseconds on the host clock, and a duration is
    the difference of two such readings (the code converts it to seconds
    with [total_seconds()]). *)

From Stdlib Require Import ZArith QArith Ascii String Bool Lia.
From stdpp Require Import base option list strings gmap pretty.

Set Warnings "-register-all".
Open Scope Z_scope.
Open Scope string_scope.
Open Scope list_scope.

(* ===================================================================== *)
(** ** Python string primitives *)
(* ===================================================================== *)

Module PyStr.

Definition code (c : ascii) : N := N_of_ascii c.

Definition between (lo hi : N) (c : ascii) : bool :=
  (N.leb lo (code c) && N.leb (code c) hi)%N.

(** ['A'..'Z'] *)
Definition is_ascii_upper (c : ascii) : bool := between 65 90 c.

(** Characters below 256 that [str.lower] changes: the ASCII capitals
    and the Latin-1 capitals (U+00C0..U+00DE without the sign U+00D7). *)
Definition is_upper (c : ascii) : bool :=
  is_ascii_upper c || (between 192 222 c && negb (N.eqb (code c) 215)).

Definition lower_char (c : ascii) : ascii :=
  if is_upper c then ascii_of_N (code c + 32) else c.

(** The capital of a character, when it lies below 256 as well. *)
Definition upper_char (c : ascii) : ascii :=
  if between 97 122 c || (between 224 254 c && negb (N.eqb (code c) 247))
  then ascii_of_N (code c - 32) else c.

(** [s.lower()] *)
Fixpoint lower (s : string) : string :=
  match s with
  | EmptyString => EmptyString
  | String c t => String (lower_char c) (lower t)
  end.

(** [s.startswith(p)] *)
Definition startswith (s p : string) : bool := String.prefix p s.

(** [needle in hay] *)
Fixpoint str_in (needle hay : string) : bool :=
  String.prefix needle hay ||
  match hay with
  | EmptyString => false
  | String _ t => str_in needle t
  end.

(** [s[1:]] *)
Definition tail (s : string) : string :=
  match s with
  | EmptyString => EmptyString
  | String _ t => t
  end.

(** [c * n] for a one-character string [c] *)
Fixpoint replicate_char (c : ascii) (n : nat) : string :=
  match n with
  | O => EmptyString
  | S k => String c (replicate_char c k)
  end.

(** [s.endswith(p)] *)
Fixpoint endswith (s p : string) : bool :=
  String.eqb s p ||
  match s with
  | EmptyString => false
  | String _ t => endswith t p
  end.

(** Some character of [s] satisfies [p]. *)
Fixpoint any_char (p : ascii -> bool) (s : string) : bool :=
  match s with
  | EmptyString => false
  | String c t => p c || any_char p t
  end.

End PyStr.

(* ===================================================================== *)
(** ** scenarios.py *)
(* ===================================================================== *)

(** Values that occur in the dictionaries built by [to_dict]. *)
Inductive PyVal : Type :=
| PNone
| PBool (b : bool)
| PInt (z : Z)
| PStr (s : string)
| PList (l : list PyVal)
| PDict (d : gmap string PyVal).

(** Exceptions are carried by their message. *)
Definition Exn : Type := string.

Module Scenarios.

(** [@dataclass class TestStep] *)
Record TestStep : Type := mkTestStep {
  name : string;
  action : string;
  target : string;
  value : option string;
  timeout : option Z;
  critical : bool;
  screenshot_on_failure : bool;
  retry_count : Z;
  description : string;
  expected : PyVal
}.

(** [TestStep(name, action)] with every other field at its declared
    default. *)
Definition TestStep_default (n a : string) : TestStep :=
  {| name := n; action := a; target := EmptyString; value := None;
     timeout := None;
     critical := false; screenshot_on_failure := true; retry_count := 0;
     description := EmptyString; expected := PNone |}.

Definition opt_str (o : option string) : PyVal :=
  match o with Some s => PStr s | None => PNone end.

Definition opt_int (o : option Z) : PyVal :=
  match o with Some z => PInt z | None => PNone end.

(** [TestStep.to_dict] *)
Definition step_to_dict (s : TestStep) : gmap string PyVal :=
  <["name" := PStr (name s)]>
  (<["action" := PStr (action s)]>
  (<["target" := PStr (target s)]>
  (<["value" := opt_str (value s)]>
  (<["timeout" := opt_int (timeout s)]>
  (<["critical" := PBool (critical s)]>
  (<["description" := PStr (description s)]> ∅)))))).

(** Reading a dictionary entry back into a typed field.  The dataclass
    constructor stores whatever it is given; a value that the field's
    annotation excludes has no counterpart in the typed record, and is
    reported here as an error. *)
Definition as_str (f : string) (v : PyVal) : Exn + string :=
  match v with PStr s => inr s | _ => inl ("ill-typed field: " +:+ f) end.

Definition as_opt_str (f : string) (v : PyVal) : Exn + option string :=
  match v with
  | PStr s => inr (Some s)
  | PNone => inr None
  | _ => inl ("ill-typed field: " +:+ f)
  end.

Definition as_opt_int (f : string) (v : PyVal) : Exn + option Z :=
  match v with
  | PInt z => inr (Some z)
  | PNone => inr None
  | _ => inl ("ill-typed field: " +:+ f)
  end.

Definition as_int (f : string) (v : PyVal) : Exn + Z :=
  match v with PInt z => inr z | _ => inl ("ill-typed field: " +:+ f) end.

Definition as_bool (f : string) (v : PyVal) : Exn + bool :=
  match v with PBool b => inr b | _ => inl ("ill-typed field: " +:+ f) end.

Fixpoint strs_from_list (f : string) (l : list PyVal) : Exn + list string :=
  match l with
  | [] => inr []
  | PStr s :: r =>
      match strs_from_list f r with
      | inr ss => inr (s :: ss)
      | inl e => inl e
      end
  | _ :: _ => inl ("ill-typed field: " +:+ f)
  end.

Definition as_str_list (f : string) (v : PyVal) : Exn + list string :=
  match v with
  | PList l => strs_from_list f l
  | _ => inl ("ill-typed field: " +:+ f)
  end.

(** A keyword argument: the entry when present, the default otherwise. *)
Definition kwarg {A} (d : gmap string PyVal) (f : string)
    (conv : string -> PyVal -> Exn + A) (dflt : A) : Exn + A :=
  match d !! f with
  | Some v => conv f v
  | None => inr dflt
  end.

(** A required positional-or-keyword argument. *)
Definition required {A} (d : gmap string PyVal) (f : string)
    (conv : string -> PyVal -> Exn + A) : Exn + A :=
  match d !! f with
  | Some v => conv f v
  | None => inl ("missing required argument: " +:+ f)
  end.

Definition bindE {A B} (x : Exn + A) (k : A -> Exn + B) : Exn + B :=
  match x with inl e => inl e | inr a => k a end.

Definition TestStep_fields : gset string :=
  list_to_set ["name"; "action"; "target"; "value"; "timeout"; "critical";
               "screenshot_on_failure"; "retry_count"; "description";
               "expected"].

(** [TestStep.from_dict]: the class is called with the dictionary's
    entries as keyword arguments.  A key that is no field of the
    dataclass is a [TypeError], as is a missing [name] or [action]. *)
Definition step_from_dict (data : gmap string PyVal) : Exn + TestStep :=
  if bool_decide (dom data ⊆ TestStep_fields) then
    bindE (required data "name" as_str) (fun n =>
    bindE (required data "action" as_str) (fun a =>
    bindE (kwarg data "target" as_str EmptyString) (fun t =>
    bindE (kwarg data "value" as_opt_str None) (fun v =>
    bindE (kwarg data "timeout" as_opt_int None) (fun tm =>
    bindE (kwarg data "critical" as_bool false) (fun c =>
    bindE (kwarg data "screenshot_on_failure" as_bool true) (fun sof =>
    bindE (kwarg data "retry_count" as_int 0) (fun rc =>
    bindE (kwarg data "description" as_str EmptyString) (fun ds =>
    bindE (kwarg data "expected" (fun _ v => inr v) PNone) (fun ex =>
    inr {| name := n; action := a; target := t; value := v; timeout := tm;
           critical := c; screenshot_on_failure := sof; retry_count := rc;
           description := ds; expected := ex |}))))))))))
  else inl "unexpected keyword argument".

(** [@dataclass class StepResult]; [None] times are [None]. *)
Record StepResult : Type := mkStepResult {
  step : TestStep;
  status : string;
  message : string;
  screenshot : string;
  start_time : option Z;
  end_time : option Z;
  duration : Z;
  actual_value : PyVal;
  error_trace : string
}.

(** [@dataclass class TestScenario] *)
Record TestScenario : Type := mkTestScenario {
  sc_name : string;
  sc_description : string;
  steps : list TestStep;
  setup_steps : list TestStep;
  teardown_steps : list TestStep;
  tags : list string;
  priority : Z;
  sc_timeout : Z;
  data : gmap string PyVal
}.

(** [TestScenario.to_dict] *)
Definition scenario_to_dict (s : TestScenario) : gmap string PyVal :=
  <["name" := PStr (sc_name s)]>
  (<["description" := PStr (sc_description s)]>
  (<["steps" := PList (map (fun x => PDict (step_to_dict x)) (steps s))]>
  (<["setup_steps" :=
       PList (map (fun x => PDict (step_to_dict x)) (setup_steps s))]>
  (<["teardown_steps" :=
       PList (map (fun x => PDict (step_to_dict x)) (teardown_steps s))]>
  (<["tags" := PList (map PStr (tags s))]>
  (<["priority" := PInt (priority s)]> ∅)))))).

(** [[TestStep.from_dict(s) for s in l]] *)
Fixpoint steps_from_list (l : list PyVal) : Exn + list TestStep :=
  match l with
  | [] => inr []
  | PDict d :: r =>
      bindE (step_from_dict d) (fun s =>
      bindE (steps_from_list r) (fun ss => inr (s :: ss)))
  | _ :: _ => inl "argument after ** must be a mapping"
  end.

Definition as_steps (f : string) (v : PyVal) : Exn + list TestStep :=
  match v with
  | PList l => steps_from_list l
  | _ => inl ("ill-typed field: " +:+ f)
  end.

(** [TestScenario.from_dict]: [data["name"]] is required, every other
    key is read with [data.get(key, default)], other keys are ignored. *)
Definition scenario_from_dict (d : gmap string PyVal) : Exn + TestScenario :=
  bindE (required d "name" as_str) (fun n =>
  bindE (kwarg d "description" as_str EmptyString) (fun ds =>
  bindE (kwarg d "steps" as_steps []) (fun st =>
  bindE (kwarg d "setup_steps" as_steps []) (fun su =>
  bindE (kwarg d "teardown_steps" as_steps []) (fun td =>
  bindE (kwarg d "tags" as_str_list []) (fun tg =>
  bindE (kwarg d "priority" as_int 5) (fun pr =>
  inr {| sc_name := n; sc_description := ds; steps := st;
         setup_steps := su; teardown_steps := td; tags := tg;
         priority := pr; sc_timeout := 300000; data := ∅ |}))))))).

(** [@dataclass class TestResult] *)
Record TestResult : Type := mkTestResult {
  scenario : TestScenario;
  tr_status : string;
  step_results : list StepResult;
  tr_start_time : option Z;
  tr_end_time : option Z;
  tr_duration : Z;
  error_message : string
}.

(** [[r for r in rs if r.status == st]] *)
Definition with_status (st : string) (rs : list StepResult) : list StepResult :=
  List.filter (fun r => String.eqb (status r) st) rs.

Definition passed_steps (r : TestResult) : nat :=
  length (with_status "passed" (step_results r)).
Definition failed_steps (r : TestResult) : nat :=
  length (with_status "failed" (step_results r)).
Definition total_steps (r : TestResult) : nat := length (step_results r).

(** [@dataclass class TestSuite] *)
Record TestSuite : Type := mkTestSuite {
  su_name : string;
  su_description : string;
  scenarios : list TestScenario;
  parallel : bool;
  stop_on_failure : bool;
  su_tags : list string
}.

(** [class ActionType(str, Enum)] and the value of each member: the
    string that a member compares equal to.  How a member is formatted
    in an f-string is not modelled. *)
Inductive ActionType : Type :=
| NAVIGATE | CLICK | TYPE | WAIT | SCROLL | SCREENSHOT
| ASSERT_TEXT | ASSERT_ELEMENT | ASSERT_URL | ASSERT_TITLE | ASSERT_VALUE
| HOVER | SELECT | CLEAR | PRESS_KEY | EXECUTE_JS.

Definition ActionType_value (a : ActionType) : string :=
  match a with
  | NAVIGATE => "navigate" | CLICK => "click" | TYPE => "type"
  | WAIT => "wait" | SCROLL => "scroll" | SCREENSHOT => "screenshot"
  | ASSERT_TEXT => "assert_text" | ASSERT_ELEMENT => "assert_element"
  | ASSERT_URL => "assert_url" | ASSERT_TITLE => "assert_title"
  | ASSERT_VALUE => "assert_value" | HOVER => "hover" | SELECT => "select"
  | CLEAR => "clear" | PRESS_KEY => "press_key" | EXECUTE_JS => "execute_js"
  end.

(** [TestStep(name=.., action=.., target=.., value=.., timeout=..,
    critical=..)]: the keywords the code passes, the rest at its default. *)
Definition TestStep_kw (n a t : string) (v : option string) (tm : option Z)
    (c : bool) : TestStep :=
  {| name := n; action := a; target := t; value := v; timeout := tm;
     critical := c; screenshot_on_failure := true; retry_count := 0;
     description := EmptyString; expected := PNone |}.

(** [TestScenario(name=.., description=.., tags=.., steps=..)] *)
Definition TestScenario_kw (n d : string) (tg : list string)
    (st : list TestStep) : TestScenario :=
  {| sc_name := n; sc_description := d; steps := st; setup_steps := [];
     teardown_steps := []; tags := tg; priority := 5; sc_timeout := 300000;
     data := ∅ |}.

(** [TestSuite.add_scenario] *)
Definition add_scenario (self : TestSuite) (s : TestScenario) : TestSuite :=
  {| su_name := su_name self; su_description := su_description self;
     scenarios := scenarios self ++ [s]; parallel := parallel self;
     stop_on_failure := stop_on_failure self; su_tags := su_tags self |}.

(** [tag in s.tags] *)
Definition has_tag (tag : string) (s : TestScenario) : bool :=
  existsb (String.eqb tag) (tags s).

(** [TestSuite.filter_by_tag] *)
Definition filter_by_tag (self : TestSuite) (tag : string)
    : list TestScenario :=
  List.filter (has_tag tag) (scenarios self).

(** [ScenarioTemplates.login_test] *)
Definition login_test (url username_selector password_selector
    submit_selector username password success_indicator : string)
    : TestScenario :=
  TestScenario_kw "Login Test" ("Test login functionality at " +:+ url)
    ["login"; "auth"; "smoke"]
    [TestStep_kw "Navigate to Login" "navigate" url None None true;
     TestStep_kw "Enter Username" "type" username_selector (Some username)
       None false;
     TestStep_kw "Enter Password" "type" password_selector (Some password)
       None false;
     TestStep_kw "Screenshot Before Submit" "screenshot" "login_form" None
       None false;
     TestStep_kw "Submit Login" "click" submit_selector None None true;
     TestStep_kw "Wait for Response" "wait" EmptyString None (Some 3000) false;
     TestStep_kw "Verify Login Success" "assert_text" success_indicator None
       None false;
     TestStep_kw "Screenshot After Login" "screenshot" "login_success" None
       None false].

(** The loop [for i, element in enumerate(expected_elements)] of
    [page_load_test], from index [i]. *)
Fixpoint verify_elements (i : nat) (elements : list string) : list TestStep :=
  match elements with
  | [] => []
  | element :: rest =>
      TestStep_kw ("Verify Element " +:+ pretty (S i)) "assert_element"
        element None None false
      :: verify_elements (S i) rest
  end.

(** [ScenarioTemplates.page_load_test]; [None] is the default argument. *)
Definition page_load_test (url : string)
    (expected_elements : option (list string)) : TestScenario :=
  TestScenario_kw ("Page Load: " +:+ url)
    ("Verify " +:+ url +:+ " loads correctly") ["smoke"; "load"]
    ([TestStep_kw "Navigate" "navigate" url None None true;
      TestStep_kw "Wait for Load" "wait" EmptyString None (Some 2000) false;
      TestStep_kw "Screenshot" "screenshot" "page_load" None None false]
     ++ match expected_elements with
        | Some elements => verify_elements 0 elements
        | None => []
        end).

(** [ScenarioTemplates.form_validation_test]; the argument [form_fields]
    is not read by the code and has no counterpart here. *)
Definition form_validation_test (url submit_selector : string)
    (error_selectors : list string) : TestScenario :=
  TestScenario_kw "Form Validation Test" "Test form validation rules"
    ["form"; "validation"]
    ([TestStep_kw "Navigate" "navigate" url None None true;
      TestStep_kw "Submit Empty Form" "click" submit_selector None None false;
      TestStep_kw "Wait" "wait" EmptyString None (Some 1000) false]
     ++ map (fun selector =>
               TestStep_kw ("Check Error: " +:+ selector) "assert_element"
                 selector None None false) error_selectors
     ++ [TestStep_kw "Screenshot Validation Errors" "screenshot"
           "validation_errors" None None false]).

(** [ScenarioTemplates.accessibility_check] *)
Definition accessibility_check (url : string) : TestScenario :=
  TestScenario_kw "Accessibility Check"
    ("Basic accessibility checks for " +:+ url) ["accessibility"; "a11y"]
    [TestStep_kw "Navigate" "navigate" url None None true;
     TestStep_kw "Check for Images with Alt" "assert_element" "img[alt]" None
       None false;
     TestStep_kw "Check for Form Labels" "assert_element" "label" None None
       false;
     TestStep_kw "Check for Headings" "assert_element" "h1" None None false;
     TestStep_kw "Screenshot" "screenshot" "accessibility" None None false].

End Scenarios.

(* ===================================================================== *)
(** ** Regular expressions (the fragment of [re] used by assertions.py) *)
(* ===================================================================== *)

Module Regex.

(** Members of a bracketed set, and the escapes [\d] and [\S]. *)
Inductive cset : Type :=
| CChar (c : ascii)
| CRange (lo hi : ascii)
| CDigit
| CNonSpace.

Inductive regex : Type :=
| Void
| Eps
| Set_ (cs : list cset)
| Cat (r1 r2 : regex)
| Alt (r1 r2 : regex)
| Star (r : regex).

(** [r?], [r+], a literal, [r{lo,hi}] *)
Definition Opt (r : regex) : regex := Alt Eps r.
Definition Plus (r : regex) : regex := Cat r (Star r).

Fixpoint Lit (s : string) : regex :=
  match s with
  | EmptyString => Eps
  | String c t => Cat (Set_ [CChar c]) (Lit t)
  end.

Fixpoint UpTo (r : regex) (n : nat) : regex :=
  match n with
  | O => Eps
  | S k => Opt (Cat r (UpTo r k))
  end.

Fixpoint Exactly (r : regex) (n : nat) (k : regex) : regex :=
  match n with
  | O => k
  | S m => Cat r (Exactly r m k)
  end.

Definition Rep (r : regex) (lo hi : nat) : regex :=
  Exactly r lo (UpTo r (hi - lo)).

(** [$] as the last item of a pattern: the end of the string, or just
    before a newline that ends the string. *)
Definition Dollar : regex := Opt (Set_ [CChar "010"%char]).

(** [str.isspace] on code points below 256. *)
Definition is_space (c : ascii) : bool :=
  PyStr.between 9 13 c || PyStr.between 28 32 c ||
  N.eqb (PyStr.code c) 133 || N.eqb (PyStr.code c) 160.

Definition cset_has (m : cset) (c : ascii) : bool :=
  match m with
  | CChar x => Ascii.eqb x c
  | CRange lo hi => PyStr.between (PyStr.code lo) (PyStr.code hi) c
  | CDigit => PyStr.between 48 57 c
  | CNonSpace => negb (is_space c)
  end.

(** Membership in a set; with [re.IGNORECASE] the other case of the
    character is tried as well. *)
Definition set_has (ignorecase : bool) (cs : list cset) (c : ascii) : bool :=
  existsb (fun m => cset_has m c) cs ||
  (ignorecase &&
   (existsb (fun m => cset_has m (PyStr.lower_char c)) cs ||
    existsb (fun m => cset_has m (PyStr.upper_char c)) cs)).

Fixpoint nullable (r : regex) : bool :=
  match r with
  | Void => false
  | Eps => true
  | Set_ _ => false
  | Cat a b => nullable a && nullable b
  | Alt a b => nullable a || nullable b
  | Star _ => true
  end.

Definition cat (a b : regex) : regex :=
  match a, b with
  | Void, _ => Void
  | _, Void => Void
  | Eps, _ => b
  | _, Eps => a
  | _, _ => Cat a b
  end.

Definition alt (a b : regex) : regex :=
  match a, b with
  | Void, _ => b
  | _, Void => a
  | _, _ => Alt a b
  end.

(** The residual of [r] after reading [c]. *)
Fixpoint deriv (ignorecase : bool) (c : ascii) (r : regex) : regex :=
  match r with
  | Void => Void
  | Eps => Void
  | Set_ cs => if set_has ignorecase cs c then Eps else Void
  | Cat a b =>
      alt (cat (deriv ignorecase c a) b)
          (if nullable a then deriv ignorecase c b else Void)
  | Alt a b => alt (deriv ignorecase c a) (deriv ignorecase c b)
  | Star a => cat (deriv ignorecase c a) (Star a)
  end.

(** The whole of [s] is in the language of [r]. *)
Fixpoint fullmatch (ignorecase : bool) (r : regex) (s : string) : bool :=
  match s with
  | EmptyString => nullable r
  | String c t => fullmatch ignorecase (deriv ignorecase c r) t
  end.

(** [bool(re.compile("^" body "$", flags).match(s))]: a match starts at
    the beginning and must reach the position accepted by [$]. *)
Definition match_anchored (ignorecase : bool) (body : regex) (s : string) : bool :=
  fullmatch ignorecase (Cat body Dollar) s.

(** The strings denoted by an expression, [ic] standing for
    [re.IGNORECASE]. *)
Inductive lang (ic : bool) : regex -> string -> Prop :=
| lang_eps : lang ic Eps EmptyString
| lang_set cs c :
    set_has ic cs c = true -> lang ic (Set_ cs) (String c EmptyString)
| lang_cat a b s t : lang ic a s -> lang ic b t -> lang ic (Cat a b) (s +:+ t)
| lang_alt_l a b s : lang ic a s -> lang ic (Alt a b) s
| lang_alt_r a b s : lang ic b s -> lang ic (Alt a b) s
| lang_star_nil a : lang ic (Star a) EmptyString
| lang_star_cons a s t :
    lang ic a s -> lang ic (Star a) t -> lang ic (Star a) (s +:+ t).

End Regex.

(* ===================================================================== *)
(** ** assertions.py *)
(* ===================================================================== *)

Module Assertions.
Import Regex.

(** [@dataclass class AssertionResult] *)
Record AssertionResult : Type := mkAssertionResult {
  passed : bool;
  expected : PyVal;
  actual : PyVal;
  message : string;
  assertion_type : string
}.

(** [class Assertions]: the two attributes set by [__init__]. *)
Record Assertions : Type := mkAssertions {
  soft_mode : bool;
  failures : list AssertionResult
}.

Definition Assertions_init : Assertions :=
  {| soft_mode := false; failures := [] |}.

(** [_handle_result]: the updated object and the returned boolean. *)
Definition _handle_result (self : Assertions) (result : AssertionResult)
    : Assertions * bool :=
  let self' :=
    if negb (passed result) then
      if soft_mode self
      then {| soft_mode := soft_mode self;
              failures := failures self ++ [result] |}
      else self
    else self in
  (self', passed result).

Definition alnum : regex :=
  Set_ [CRange "A"%char "Z"%char; CRange "0"%char "9"%char].
Definition alnum_dash : regex :=
  Set_ [CRange "A"%char "Z"%char; CRange "0"%char "9"%char; CChar "-"%char].
Definition digits_1_3 : regex := Rep (Set_ [CDigit]) 1 3.
Definition dot : regex := Set_ [CChar "."%char].

(** The pattern compiled by [is_valid_url], without its anchors:
<<
    https?://
    (?:(?:[A-Z0-9](?:[A-Z0-9-]{0,61}[A-Z0-9])?\.)+[A-Z]{2,6}\.?|
       localhost|
       \d{1,3}\.\d{1,3}\.\d{1,3}\.\d{1,3})
    (?::\d+)?
    (?:/?|[/?]\S+)
>> *)
Definition url_pattern : regex :=
  Cat (Lit "http") (Cat (Opt (Lit "s")) (Cat (Lit "://")
  (Cat
    (Alt
      (Cat (Plus (Cat alnum (Cat (Opt (Cat (Rep alnum_dash 0 61) alnum)) dot)))
           (Cat (Rep (Set_ [CRange "A"%char "Z"%char]) 2 6) (Opt dot)))
      (Alt (Lit "localhost")
           (Cat digits_1_3 (Cat dot (Cat digits_1_3 (Cat dot
           (Cat digits_1_3 (Cat dot digits_1_3))))))))
  (Cat
    (Opt (Cat (Lit ":") (Plus (Set_ [CDigit]))))
    (Alt (Opt (Lit "/"))
         (Cat (Set_ [CChar "/"%char; CChar "?"%char])
              (Plus (Set_ [CNonSpace])))))))).

(** [a or b] on strings *)
Definition str_or (a b : string) : string :=
  if String.eqb a EmptyString then b else a.

(** [Assertions.is_valid_url] *)
Definition is_valid_url (self : Assertions) (url : string) (message : string)
    : Assertions * bool :=
  let passed := match_anchored true url_pattern url in
  let result :=
    {| passed := passed;
       expected := PStr "valid URL";
       actual := PStr url;
       message := str_or message ("'" +:+ url +:+ "' is not a valid URL");
       assertion_type := "is_valid_url" |} in
  _handle_result self result.

(** [haystack[:100] if len(str(haystack)) > 100 else haystack] *)
Definition sample (haystack : string) : string :=
  if (100 <? String.length haystack)%nat
  then String.substring 0 100 haystack else haystack.

(** [Assertions.contains] *)
Definition contains (self : Assertions) (haystack needle message : string)
    : Assertions * bool :=
  let passed := PyStr.str_in needle haystack in
  let result :=
    {| passed := passed;
       expected := PStr ("contains '" +:+ needle +:+ "'");
       actual := PStr (sample haystack);
       message := str_or message ("Expected '" +:+ needle
                                  +:+ "' to be in string");
       assertion_type := "contains" |} in
  _handle_result self result.

(** [Assertions.not_contains] *)
Definition not_contains (self : Assertions) (haystack needle message : string)
    : Assertions * bool :=
  let passed := negb (PyStr.str_in needle haystack) in
  let result :=
    {| passed := passed;
       expected := PStr ("not contains '" +:+ needle +:+ "'");
       actual := PStr (sample haystack);
       message := str_or message ("Expected '" +:+ needle
                                  +:+ "' to not be in string");
       assertion_type := "not_contains" |} in
  _handle_result self result.

(** [f"{sum(1 for i in collection if predicate(i))}/{len(collection)}
    matched"] *)
Definition matched {A} (collection : list A) (predicate : A -> bool)
    : string :=
  pretty (length (List.filter predicate collection)) +:+ "/"
  +:+ pretty (length collection) +:+ " matched".

(** [Assertions.all_match], for a predicate that returns a boolean. *)
Definition all_match {A} (self : Assertions) (collection : list A)
    (predicate : A -> bool) (message : string) : Assertions * bool :=
  let passed := forallb predicate collection in
  let result :=
    {| passed := passed;
       expected := PStr "all items match predicate";
       actual := PStr (matched collection predicate);
       message := str_or message "Not all items matched the predicate";
       assertion_type := "all_match" |} in
  _handle_result self result.

(** [Assertions.any_match] *)
Definition any_match {A} (self : Assertions) (collection : list A)
    (predicate : A -> bool) (message : string) : Assertions * bool :=
  let passed := existsb predicate collection in
  let result :=
    {| passed := passed;
       expected := PStr "at least one item matches predicate";
       actual := PStr (matched collection predicate);
       message := str_or message "No items matched the predicate";
       assertion_type := "any_match" |} in
  _handle_result self result.

Definition is_gt (c : ascii) : bool := Ascii.eqb c ">"%char.
Definition is_lt (c : ascii) : bool := Ascii.eqb c "<"%char.

(** A match of [<[^>]+>] can start just before [t]: [t] begins with a
    character other than '>' and has a '>' further on. *)
Definition opens (t : string) : bool :=
  match t with
  | EmptyString => false
  | String d _ => negb (is_gt d) && PyStr.any_char is_gt t
  end.

(** [re.sub(r'<[^>]+>', '', html)], read from left to right: outside a
    match a '<' that opens one starts it, and every other character is
    kept; inside, characters are dropped up to the first '>', which ends
    the match. *)
Fixpoint strip (inside : bool) (html : string) : string :=
  match html with
  | EmptyString => EmptyString
  | String c t =>
      if inside then strip (negb (is_gt c)) t
      else if is_lt c && opens t then strip true t
      else String c (strip false t)
  end.

(** [Assertions.html_contains_text] *)
Definition html_contains_text (self : Assertions) (html text message : string)
    : Assertions * bool :=
  let clean_text := strip false html in
  let passed := PyStr.str_in text clean_text in
  let result :=
    {| passed := passed;
       expected := PStr ("contains text '" +:+ text +:+ "'");
       actual := PStr "HTML content";
       message := str_or message ("HTML does not contain text '" +:+ text
                                  +:+ "'");
       assertion_type := "html_contains_text" |} in
  _handle_result self result.

(** [class ExpectChain]: the value under test, here a string, and the
    assertion object the chain reports to. *)
Record ExpectChain : Type := mkExpectChain {
  value : string;
  assertions : Assertions
}.

(** [expect(value)]: a chain on a fresh [Assertions()]. *)
Definition expect (v : string) : ExpectChain :=
  {| value := v; assertions := Assertions_init |}.

(** [ExpectChain.to_contain]: the outcome of the check is dropped and
    the chain is returned. *)
Definition to_contain (self : ExpectChain) (expected : string) : ExpectChain :=
  {| value := value self;
     assertions :=
       fst (contains (assertions self) (value self) expected EmptyString) |}.

End Assertions.

(* ===================================================================== *)
(** ** Effects: state and exceptions *)
(* ===================================================================== *)

Module Eff.

(** How a call ends: with a value, or with a raised exception. *)
Inductive Outcome (A : Type) : Type :=
| Return (a : A)
| Raise (e : Exn).
Arguments Return {A} a.
Arguments Raise {A} e.

(** A computation over a state [S]; the state reached is kept when an
    exception is raised, so that a handler sees every earlier write. *)
Definition M (S A : Type) : Type := S -> Outcome A * S.

Definition ret {S A} (a : A) : M S A := fun s => (Return a, s).

Definition raise {S A} (e : Exn) : M S A := fun s => (Raise e, s).

Definition bind {S A B} (c : M S A) (k : A -> M S B) : M S B :=
  fun s =>
    match c s with
    | (Return a, s') => k a s'
    | (Raise e, s') => (Raise e, s')
    end.

(** [try: c  except Exception as e: h e] *)
Definition try_except {S A} (c : M S A) (h : Exn -> M S A) : M S A :=
  fun s =>
    match c s with
    | (Return a, s') => (Return a, s')
    | (Raise e, s') => h e s'
    end.

Definition modify {S} (f : S -> S) : M S unit := fun s => (Return tt, f s).

Definition gets {S A} (f : S -> A) : M S A := fun s => (Return (f s), s).

(** Local variables of a function body: the state is paired with them. *)
Definition lift {S L A} (c : M S A) : M (S * L) A :=
  fun fr => match c (fst fr) with (o, s') => (o, (s', snd fr)) end.

Definition local {S L} : M (S * L) L := fun fr => (Return (snd fr), fr).

Definition set_local {S L} (f : L -> L) : M (S * L) unit :=
  fun fr => (Return tt, (fst fr, f (snd fr))).

Definition with_local {S L A} (l0 : L) (c : M (S * L) A) : M S A :=
  fun s => match c (s, l0) with (o, fr) => (o, fst fr) end.

End Eff.

Declare Scope eff_scope.
Delimit Scope eff_scope with eff.
Notation "x <- c ;; k" := (Eff.bind c (fun x => k))
  (at level 100, c at next level, right associativity) : eff_scope.
Notation "c ;; k" := (Eff.bind c (fun _ => k))
  (at level 100, right associativity) : eff_scope.

(* ===================================================================== *)
(** ** agent.py *)
(* ===================================================================== *)

Module Agent.
Import Scenarios Eff.

(** [@dataclass class AgentConfig] ([retry_delay], a float that no code
    reads, is left out). *)
Record AgentConfig : Type := mkAgentConfig {
  server_command : string;
  server_script : string;
  screenshot_dir : string;
  report_dir : string;
  default_timeout : Z;
  retry_attempts : Z;
  verbose : bool
}.

Definition AgentConfig_default : AgentConfig :=
  {| server_command := "/root/payverse/venv/bin/python";
     server_script := "/root/payverse/mcp_browser_server.py";
     screenshot_dir := "/root/payverse/qa_screenshots";
     report_dir := "/root/payverse/qa_reports";
     default_timeout := 30000;
     retry_attempts := 3;
     verbose := true |}.

(** The attributes of [QATestingAgent] that its methods read or write. *)
Record QATestingAgent : Type := mkAgent {
  config : AgentConfig;
  current_url : string;
  test_results : list TestResult
}.

Definition QATestingAgent_init (c : AgentConfig) : QATestingAgent :=
  {| config := c; current_url := EmptyString; test_results := [] |}.

(** A content part as the session returns it: the code only asks which
    of the attributes [text], [data], [mimeType] it has. *)
Record RawContent : Type := mkRaw {
  c_text : option string;
  c_data : option string;
  c_mimeType : option string
}.

Definition TextContent (t : string) : RawContent :=
  {| c_text := Some t; c_data := None; c_mimeType := None |}.
Definition ImageContent (d mime : string) : RawContent :=
  {| c_text := None; c_data := Some d; c_mimeType := Some mime |}.

(** What [session.call_tool] returns.  [isError] is the protocol's own
    error flag; the code reads [content] only. *)
Record CallToolResult : Type := mkCallToolResult {
  cr_content : list RawContent;
  isError : bool
}.

(** The entries of [response["content"]]. *)
Inductive Part : Type :=
| TextPart (text : string)
| ImagePart (data mimeType : string).

(** The dictionaries [{"success": .., "content": [..], "error": ..}];
    [error = None] when the key is absent.  The dictionaries that the
    assertion branches build have no ["content"] key; it is never read
    from them, and they carry [[]] here. *)
Record Response : Type := mkResponse {
  success : bool;
  content : list Part;
  error : option string
}.

Definition Args : Type := gmap string PyVal.

(** Everything outside the agent: the clock, the automation channel,
    the file system and the reporter. *)
Record Host (Env Sess : Type) : Type := mkHost {
  (** [datetime.now()] *)
  clock : Env -> Z * Env;
  (** [t.strftime(fmt)] *)
  strftime : string -> Z -> string;
  (** [f"{d:.2f}"] for a duration [d] *)
  format_2f : Z -> string;
  (** entering [stdio_client], [ClientSession] and [initialize()] *)
  session_enter : AgentConfig -> Env -> Outcome Sess * Env;
  (** leaving both context managers (taken not to raise) *)
  session_exit : Sess -> Env -> Env;
  (** [session.call_tool(name, arguments)] *)
  call_tool : Sess -> string -> Args -> Env -> Outcome CallToolResult * Env;
  (** [open(path, "wb").write(base64.b64decode(data))] *)
  write_png : string -> string -> Env -> Outcome unit * Env;
  (** [TestReporter(report_dir).generate_report(suite, results)] *)
  generate_report :
    string -> TestSuite -> list TestResult -> Env -> Outcome string * Env
}.
Arguments clock {Env Sess} _ _.
Arguments strftime {Env Sess} _ _ _.
Arguments format_2f {Env Sess} _ _.
Arguments session_enter {Env Sess} _ _ _.
Arguments session_exit {Env Sess} _ _ _.
Arguments call_tool {Env Sess} _ _ _ _ _.
Arguments write_png {Env Sess} _ _ _ _.
Arguments generate_report {Env Sess} _ _ _ _ _.

(** The running program: the agent object, the lines printed so far,
    the requests sent on the channel so far, and the outside world. *)
Record Machine (Env : Type) : Type := mkMachine {
  self : QATestingAgent;
  out : list string;
  calls : list (string * Args);
  world : Env
}.
Arguments mkMachine {Env} _ _ _ _.
Arguments self {Env} _.
Arguments out {Env} _.
Arguments calls {Env} _.
Arguments world {Env} _.

Definition dquote : string := String "034"%char EmptyString.
Definition newline : string := String "010"%char EmptyString.

(** [str(b)] *)
Definition py_bool (b : bool) : string := if b then "True" else "False".

(** [s.upper()], character by character *)
Fixpoint upper (s : string) : string :=
  match s with
  | EmptyString => EmptyString
  | String c t => String (PyStr.upper_char c) (upper t)
  end.

(** [os.path.join(a, b)] *)
Definition path_join (a b : string) : string :=
  if PyStr.startswith b "/" then b
  else if String.eqb a EmptyString then b
  else if PyStr.endswith a "/" then a +:+ b
       else a +:+ "/" +:+ b.

(** One round of the loop of [_call_tool_in_session]: a part with a
    [text] attribute is appended and checked for the marker, a part with
    a [data] attribute is appended as an image, any other is skipped. *)
Definition absorb (response : Response) (c : RawContent) : Response :=
  match c_text c with
  | Some text =>
      let response1 :=
        {| success := success response;
           content := content response ++ [TextPart text];
           error := error response |} in
      if PyStr.str_in "Error:" text
      then {| success := false; content := content response1;
              error := Some text |}
      else response1
  | None =>
      match c_data c with
      | Some d =>
          {| success := success response;
             content := content response
                        ++ [ImagePart d (default "image/png" (c_mimeType c))];
             error := error response |}
      | None => response
      end
  end.

(** The loop of [_call_tool_in_session] over [result.content]. *)
Definition normalize (parts : list RawContent) : Response :=
  fold_left absorb parts {| success := true; content := []; error := None |}.

(** [content.get("text", default)] with the empty string as default *)
Definition part_text (p : Part) : string :=
  match p with TextPart t => t | ImagePart _ _ => EmptyString end.

(** the same on [content[0]], for a non-empty [content] *)
Definition first_text (ps : list Part) : string :=
  match ps with p :: _ => part_text p | [] => EmptyString end.

Definition nonempty {A} (l : list A) : bool :=
  match l with [] => false | _ :: _ => true end.

(** [re.search(r"<title>(.*?)</title>", html, re.IGNORECASE)]:
    [until_close] reads the lazy group, which stops at the first closing
    tag and cannot cross a newline. *)
Definition prefix_ci (p s : string) : bool :=
  String.prefix (PyStr.lower p) (PyStr.lower s).

Fixpoint until_close (s : string) : option string :=
  if prefix_ci "</title>" s then Some EmptyString
  else match s with
       | EmptyString => None
       | String c t =>
           if Ascii.eqb c "010"%char then None
           else option_map (String c) (until_close t)
       end.

Fixpoint title_search (html : string) : option string :=
  match (if prefix_ci "<title>" html
         then until_close (String.substring 7 (String.length html - 7) html)
         else None) with
  | Some g => Some g
  | None =>
      match html with
      | EmptyString => None
      | String _ t => title_search t
      end
  end.

(** [_selector_matches_html] *)
Definition _selector_matches_html (selector html : string) : bool :=
  if PyStr.startswith selector "#" then
    PyStr.str_in ("id=" +:+ dquote +:+ PyStr.tail selector +:+ dquote) html
    || PyStr.str_in ("id='" +:+ PyStr.tail selector +:+ "'") html
  else if PyStr.startswith selector "." then
    PyStr.str_in ("class=" +:+ dquote) html
    && PyStr.str_in (PyStr.tail selector) html
  else PyStr.str_in ("<" +:+ selector) (PyStr.lower html).

Section Engine.
Context {Env Sess : Type} (H : Host Env Sess).

Local Open Scope eff_scope.

Definition set_world (w : Env) (m : Machine Env) : Machine Env :=
  mkMachine (self m) (out m) (calls m) w.

Definition set_self (a : QATestingAgent) (m : Machine Env) : Machine Env :=
  mkMachine a (out m) (calls m) (world m).

(** [datetime.now()] *)
Definition now : M (Machine Env) Z :=
  fun m => match clock H (world m) with (t, w) => (Return t, set_world w m) end.

(** [print(line)] *)
Definition print_line (line : string) : M (Machine Env) unit :=
  modify (fun m => mkMachine (self m) (out m ++ [line]) (calls m) (world m)).

(** [QATestingAgent.log] *)
Definition log (message level : string) : M (Machine Env) unit :=
  fun m =>
    if verbose (config (self m)) then
      (t <- now ;;
       let timestamp := strftime H "%H:%M:%S" t in
       print_line ("[" +:+ timestamp +:+ "] [" +:+ level +:+ "] " +:+ message)) m
    else (Return tt, m).

(** [await session.call_tool(name, arguments)] *)
Definition session_call_tool (session : Sess) (name : string)
    (arguments : Args) : M (Machine Env) CallToolResult :=
  fun m =>
    match call_tool H session name arguments (world m) with
    | (o, w) =>
        (o, mkMachine (self m) (out m) (calls m ++ [(name, arguments)]) w)
    end.

(** [_call_tool_in_session] *)
Definition _call_tool_in_session (session : Sess) (name : string)
    (arguments : Args) : M (Machine Env) Response :=
  result <- session_call_tool session name arguments ;;
  ret (normalize (cr_content result)).

(** [_save_screenshot] *)
Definition _save_screenshot (data name : string) : M (Machine Env) string :=
  t <- now ;;
  let timestamp := strftime H "%Y%m%d_%H%M%S" t in
  let filename := name +:+ "_" +:+ timestamp +:+ ".png" in
  fun m =>
    let filepath := path_join (screenshot_dir (config (self m))) filename in
    match write_png H filepath data (world m) with
    | (Return _, w) => (Return filepath, set_world w m)
    | (Raise e, w) => (Raise e, set_world w m)
    end.

(** Writes to the local [result] of [run_step_in_session]. *)
Definition set_status (st msg : string) (r : StepResult) : StepResult :=
  {| step := step r; status := st; message := msg;
     screenshot := screenshot r; start_time := start_time r;
     end_time := end_time r; duration := duration r;
     actual_value := actual_value r; error_trace := error_trace r |}.

Definition set_screenshot (path : string) (r : StepResult) : StepResult :=
  {| step := step r; status := status r; message := message r;
     screenshot := path; start_time := start_time r;
     end_time := end_time r; duration := duration r;
     actual_value := actual_value r; error_trace := error_trace r |}.

Definition set_end (t d : Z) (r : StepResult) : StepResult :=
  {| step := step r; status := status r; message := message r;
     screenshot := screenshot r; start_time := start_time r;
     end_time := Some t; duration := d;
     actual_value := actual_value r; error_trace := error_trace r |}.

(** [StepResult(step=step, status="pending", start_time=start_time)] *)
Definition initial_result (step : TestStep) (start_time : Z) : StepResult :=
  {| step := step; status := "pending"; message := EmptyString; screenshot := EmptyString;
     start_time := Some start_time; end_time := None; duration := 0;
     actual_value := PNone; error_trace := EmptyString |}.

Definition Frame : Type := Machine Env * StepResult.

(** The loop
<<
    for content in parts:
        if content.get("type") == "image":
            filepath = self._save_screenshot(content["data"], name)
            self.log(f"Screenshot saved: {filepath}")
            result.screenshot = filepath
            break
>> *)
Fixpoint save_first_image (parts : list Part) (name : string)
    : M Frame unit :=
  match parts with
  | [] => ret tt
  | ImagePart d _ :: _ =>
      filepath <- lift (_save_screenshot d name) ;;
      lift (log ("Screenshot saved: " +:+ filepath) "INFO") ;;
      set_local (set_screenshot filepath)
  | TextPart _ :: rest => save_first_image rest name
  end.

Definition just (ok : bool) : Response :=
  {| success := ok; content := []; error := None |}.

Definition failure (msg : string) : Response :=
  {| success := false; content := []; error := Some msg |}.

(** [x or d] for an optional string and for an optional integer *)
Definition or_str (x : option string) (d : string) : string :=
  match x with
  | Some s => if String.eqb s EmptyString then d else s
  | None => d
  end.

Definition or_int (x : option Z) (d : Z) : Z :=
  match x with
  | Some z => if Z.eqb z 0 then d else z
  | None => d
  end.

Definition is_action (step : TestStep) (a : string) : bool :=
  String.eqb (action step) a.

(** The [if step.action == ...] chain of [run_step_in_session]: it
    yields [action_result]. *)
Definition dispatch (session : Sess) (step : TestStep) : M Frame Response :=
  if is_action step "navigate" then
    action_result <- lift (_call_tool_in_session session "browser_navigate"
                             {[ "url" := PStr (target step) ]}) ;;
    (if success action_result
     then lift (modify (fun m =>
            set_self {| config := config (self m);
                        current_url := target step;
                        test_results := test_results (self m) |} m))
     else ret tt) ;;
    ret action_result
  else if is_action step "click" then
    lift (_call_tool_in_session session "browser_click"
            {[ "selector" := PStr (target step) ]})
  else if is_action step "type" then
    lift (_call_tool_in_session session "browser_type"
            (<[ "selector" := PStr (target step) ]>
             {[ "text" := PStr (or_str (value step) EmptyString) ]}))
  else if is_action step "wait" then
    lift (_call_tool_in_session session "browser_wait"
            (<[ "selector" := if String.eqb (target step) EmptyString
                              then PNone else PStr (target step) ]>
             {[ "timeout" := PInt (or_int (timeout step) 1000) ]}))
  else if is_action step "scroll" then
    let direction := or_str (value step) "down" in
    lift (_call_tool_in_session session "browser_scroll"
            (<[ "direction" := PStr direction ]>
             {[ "amount" := PInt (or_int (timeout step) 500) ]}))
  else if is_action step "screenshot" then
    action_result <- lift (_call_tool_in_session session
                             "browser_screenshot" ∅) ;;
    (if success action_result
     then save_first_image (content action_result)
            (if String.eqb (target step) EmptyString then name step else target step)
     else ret tt) ;;
    ret action_result
  else if is_action step "assert_text" then
    content_result <- lift (_call_tool_in_session session
                              "browser_get_content" ∅) ;;
    if success content_result && nonempty (content content_result) then
      let page_content := first_text (content content_result) in
      let passed :=
        PyStr.str_in (PyStr.lower (target step)) (PyStr.lower page_content) in
      lift (log ("Text assertion: '" +:+ target step +:+ "' present = "
                 +:+ py_bool passed) "INFO") ;;
      ret (just passed)
    else ret (failure "Could not get page content")
  else if is_action step "assert_element" then
    html_result <- lift (_call_tool_in_session session
                           "browser_get_html" ∅) ;;
    if success html_result && nonempty (content html_result) then
      let html := first_text (content html_result) in
      let passed := _selector_matches_html (target step) html in
      lift (log ("Element assertion: '" +:+ target step +:+ "' exists = "
                 +:+ py_bool passed) "INFO") ;;
      ret (just passed)
    else ret (failure "Could not get page HTML")
  else if is_action step "assert_url" then
    url <- lift (gets (fun m => current_url (self m))) ;;
    let passed := PyStr.str_in (PyStr.lower (target step)) (PyStr.lower url) in
    lift (log ("URL assertion: '" +:+ target step +:+ "' in '" +:+ url
               +:+ "' = " +:+ py_bool passed) "INFO") ;;
    ret (just passed)
  else if is_action step "assert_title" then
    html_result <- lift (_call_tool_in_session session
                           "browser_get_html" ∅) ;;
    if success html_result && nonempty (content html_result) then
      let html := first_text (content html_result) in
      match title_search html with
      | Some title =>
          let passed :=
            PyStr.str_in (PyStr.lower (target step)) (PyStr.lower title) in
          lift (log ("Title assertion: '" +:+ target step +:+ "' in '"
                     +:+ title +:+ "' = " +:+ py_bool passed) "INFO") ;;
          ret (just passed)
      | None => ret (failure "No title found")
      end
    else ret (failure "Could not get page HTML")
  else ret (failure ("Unknown action: " +:+ action step)).

(** The block under "Take screenshot on failure if configured". *)
Definition failure_capture (session : Sess) (step : TestStep) : M Frame unit :=
  screenshot_result <- lift (_call_tool_in_session session
                               "browser_screenshot" ∅) ;;
  if success screenshot_result
  then save_first_image (content screenshot_result)
         ("failure_" +:+ name step)
  else ret tt.

(** The assignments of [result.status] and [result.message] from
    [action_result]. *)
Definition classify (action_result : Response) : M Frame unit :=
  set_local (set_status (if success action_result then "passed" else "failed")
                        (default EmptyString (error action_result))).

(** The body of the [try] of [run_step_in_session]. *)
Definition step_try (session : Sess) (step : TestStep) : M Frame unit :=
  lift (log ("Executing step: " +:+ name step) "STEP") ;;
  action_result <- dispatch session step ;;
  classify action_result ;;
  result <- local ;;
  if String.eqb (status result) "failed" && screenshot_on_failure step
  then failure_capture session step
  else ret tt.

(** Its [except Exception as e] handler. *)
Definition step_except (e : Exn) : M Frame unit :=
  set_local (set_status "error" e) ;;
  lift (log ("Step error: " +:+ e) "ERROR").

Definition status_icon (st : string) : string :=
  if String.eqb st "passed" then "✓"
  else if String.eqb st "failed" then "✗" else "⚠".

(** [run_step_in_session] *)
Definition run_step_in_session (session : Sess) (step : TestStep)
    : M (Machine Env) StepResult :=
  start_time <- now ;;
  with_local (initial_result step start_time)
    (try_except (step_try session step) step_except ;;
     end_time <- lift now ;;
     set_local (set_end end_time (end_time - start_time)) ;;
     result <- local ;;
     lift (log (status_icon (status result) +:+ " Step '" +:+ name step
                +:+ "': " +:+ status result +:+ " ("
                +:+ format_2f H (duration result) +:+ "s)") "INFO") ;;
     ret result).

(** The local [step_results] of [run_scenario]. *)
Definition Results : Type := Machine Env * list StepResult.

Definition stops (result : StepResult) (step : TestStep) : bool :=
  negb (String.eqb (status result) "passed") && critical step.

Definition run_and_record (session : Sess) (step : TestStep)
    : M Results StepResult :=
  result <- lift (run_step_in_session session step) ;;
  set_local (fun rs => (rs ++ [result])%list) ;;
  ret result.

(** [for step in scenario.setup_steps: ...]; a critical step that did
    not pass raises. *)
Fixpoint setup_loop (session : Sess) (todo : list TestStep) : M Results unit :=
  match todo with
  | [] => ret tt
  | step :: rest =>
      result <- run_and_record session step ;;
      if stops result step
      then raise ("Critical setup step failed: " +:+ name step)
      else setup_loop session rest
  end.

(** [for step in scenario.steps: ...]; a critical step that did not
    pass leaves the loop with [break]. *)
Fixpoint steps_loop (session : Sess) (todo : list TestStep) : M Results unit :=
  match todo with
  | [] => ret tt
  | step :: rest =>
      result <- run_and_record session step ;;
      if stops result step
      then lift (log "Critical step failed, stopping scenario" "ERROR")
      else steps_loop session rest
  end.

(** [for step in scenario.teardown_steps: ...] *)
Fixpoint teardown_loop (session : Sess) (todo : list TestStep)
    : M Results unit :=
  match todo with
  | [] => ret tt
  | step :: rest =>
      _ <- run_and_record session step ;;
      teardown_loop session rest
  end.

(** The body of the [try] of [run_scenario]. *)
Definition scenario_try (session : Sess) (scenario : TestScenario)
    : M Results unit :=
  (if nonempty (setup_steps scenario)
   then lift (log "Running setup steps..." "SETUP") ;;
        setup_loop session (setup_steps scenario)
   else ret tt) ;;
  lift (log "Running test steps..." "TEST") ;;
  steps_loop session (steps scenario) ;;
  if nonempty (teardown_steps scenario)
  then lift (log "Running teardown steps..." "TEARDOWN") ;;
       teardown_loop session (teardown_steps scenario)
  else ret tt.

(** Its [except Exception as e] handler. *)
Definition scenario_except (e : Exn) : M Results unit :=
  lift (log ("Scenario error: " +:+ e) "ERROR").

(** [async with self._get_session() as session: body]: an exception
    while entering propagates before [body] starts; the session is
    left on every way out of [body]. *)
Definition with_session {L A} (body : Sess -> M (Machine Env * L) A)
    : M (Machine Env * L) A :=
  session <- lift (fun m =>
               match session_enter H (config (self m)) (world m) with
               | (o, w) => (o, set_world w m)
               end) ;;
  fun fr =>
    match body session fr with
    | (o, fr') =>
        (o, (set_world (session_exit H session (world (fst fr'))) (fst fr'),
             snd fr'))
    end.

(** The status computed from [failed_steps] and [error_steps]. *)
Definition scenario_status (step_results : list StepResult) : string :=
  let failed_steps := with_status "failed" step_results in
  let error_steps := with_status "error" step_results in
  if nonempty error_steps then "error"
  else if nonempty failed_steps then "failed"
  else "passed".

Definition rule : string := PyStr.replicate_char "="%char 60.

(** The lines of [run_scenario] before the session is requested: the
    banner and the reading of [start_time]. *)
Definition scenario_prologue (scenario : TestScenario) : M (Machine Env) Z :=
  log (newline +:+ rule) "INFO" ;;
  log ("Running Scenario: " +:+ sc_name scenario) "INFO" ;;
  log ("Description: " +:+ sc_description scenario) "INFO" ;;
  log (rule +:+ newline) "INFO" ;;
  now.

(** [run_scenario] *)
Definition run_scenario (scenario : TestScenario)
    : M (Machine Env) TestResult :=
  start_time <- scenario_prologue scenario ;;
  with_local []
    (with_session (fun session =>
       try_except (scenario_try session scenario) scenario_except) ;;
     end_time <- lift now ;;
     step_results <- local ;;
     let failed_steps := with_status "failed" step_results in
     let error_steps := with_status "error" step_results in
     let status := scenario_status step_results in
     let test_result :=
       {| scenario := scenario; tr_status := status;
          step_results := step_results;
          tr_start_time := Some start_time; tr_end_time := Some end_time;
          tr_duration := end_time - start_time; error_message := EmptyString |} in
     lift (modify (fun m =>
       set_self {| config := config (self m);
                   current_url := current_url (self m);
                   test_results := test_results (self m) ++ [test_result] |}
                m)) ;;
     lift (log (newline +:+ rule) "INFO") ;;
     lift (log ("Scenario Complete: " +:+ sc_name scenario) "INFO") ;;
     lift (log ("Status: " +:+ upper status) "INFO") ;;
     lift (log ("Duration: " +:+ format_2f H (tr_duration test_result)
                +:+ "s") "INFO") ;;
     lift (log ("Steps: " +:+ pretty (length step_results) +:+ " total, "
                +:+ pretty (length failed_steps) +:+ " failed, "
                +:+ pretty (length error_steps) +:+ " errors") "INFO") ;;
     lift (log (rule +:+ newline) "INFO") ;;
     ret test_result).

(** [for scenario in suite.scenarios: results.append(...)] *)
Fixpoint suite_loop (todo : list TestScenario)
    : M (Machine Env * list TestResult) unit :=
  match todo with
  | [] => ret tt
  | scenario :: rest =>
      result <- lift (run_scenario scenario) ;;
      set_local (fun rs => (rs ++ [result])%list) ;;
      suite_loop rest
  end.

Definition hashes : string := PyStr.replicate_char "#"%char 60.

(** The banner of [run_suite]. *)
Definition suite_prologue (suite : TestSuite) : M (Machine Env) unit :=
  log (newline +:+ hashes) "INFO" ;;
  log ("# TEST SUITE: " +:+ su_name suite) "INFO" ;;
  log ("# Scenarios: " +:+ pretty (length (scenarios suite))) "INFO" ;;
  log (hashes +:+ newline) "INFO".

(** [run_suite] *)
Definition run_suite (suite : TestSuite)
    : M (Machine Env) (list TestResult) :=
  suite_prologue suite ;;
  with_local []
    (suite_loop (scenarios suite) ;;
     results <- local ;;
     report_path <- lift (fun m =>
       match generate_report H (report_dir (config (self m))) suite results
               (world m) with
       | (o, w) => (o, set_world w m)
       end) ;;
     lift (log (newline +:+ "Test report generated: " +:+ report_path)
               "INFO") ;;
     ret results).

(** [test_page_loads]; [None] is the default of [expected_text]. *)
Definition test_page_loads (url : string) (expected_text : option string)
    : M (Machine Env) TestResult :=
  let steps :=
    [TestStep_kw "Navigate" "navigate" url None None true;
     TestStep_kw "Screenshot" "screenshot" "page_load" None None false] in
  let scenario :=
    TestScenario_kw ("Page Load Test: " +:+ url)
      ("Verify that " +:+ url +:+ " loads correctly") []
      (if String.eqb (or_str expected_text EmptyString) EmptyString
       then steps
       else steps ++ [TestStep_kw "Verify Text" "assert_text"
                        (or_str expected_text EmptyString) None None false]) in
  run_scenario scenario.

(** [test_form_submission]; [form_data] is the dictionary's items in
    their order. *)
Definition test_form_submission (url : string)
    (form_data : list (string * string))
    (submit_selector success_indicator : string)
    : M (Machine Env) TestResult :=
  let steps :=
    [TestStep_kw "Navigate" "navigate" url None None true]
    ++ map (fun item =>
              TestStep_kw ("Fill " +:+ fst item) "type" (fst item)
                (Some (snd item)) None false) form_data
    ++ [TestStep_kw "Screenshot Before Submit" "screenshot" "before_submit"
          None None false;
        TestStep_kw "Submit Form" "click" submit_selector None None true;
        TestStep_kw "Wait for Response" "wait" EmptyString None (Some 2000)
          false;
        TestStep_kw "Screenshot After Submit" "screenshot" "after_submit"
          None None false;
        TestStep_kw "Verify Success" "assert_text" success_indicator None
          None false] in
  run_scenario
    (TestScenario_kw ("Form Submission Test: " +:+ url)
       "Test form submission workflow" [] steps).

(** [navigate]: the convenience method, on a session of its own. *)
Definition navigate (url : string) : M (Machine Env) Response :=
  log ("Navigating to: " +:+ url) "INFO" ;;
  with_local tt
    (with_session (fun session =>
       result <- lift (_call_tool_in_session session "browser_navigate"
                         {[ "url" := PStr url ]}) ;;
       (if success result
        then lift (modify (fun m =>
               set_self {| config := config (self m);
                           current_url := url;
                           test_results := test_results (self m) |} m))
        else ret tt) ;;
       ret result)).

(** [get_content]: the text of the first part of a successful answer,
    the empty string in every other case. *)
Definition get_content : M (Machine Env) string :=
  with_local tt
    (with_session (fun session =>
       result <- lift (_call_tool_in_session session "browser_get_content"
                         ∅) ;;
       if success result && nonempty (content result)
       then ret (first_text (content result))
       else ret EmptyString)).

(** [assert_text_present] *)
Definition assert_text_present (text : string) : M (Machine Env) bool :=
  content <- get_content ;;
  ret (PyStr.str_in (PyStr.lower text) (PyStr.lower content)).

End Engine.

End Agent.

(* ===================================================================== *)
(** ** reporter.py *)
(* ===================================================================== *)

Module Reporter.
Import Scenarios.

(** The dictionary returned by [TestReporter._calculate_stats].  The
    pass rate is the exact quotient; the code computes it in floating
    point. *)
Record Stats : Type := mkStats {
  total_scenarios : nat;
  passed_scenarios : nat;
  failed_scenarios : nat;
  error_scenarios : nat;
  st_total_steps : nat;
  st_passed_steps : nat;
  st_failed_steps : nat;
  total_duration : Z;
  pass_rate : Q
}.

(** [len([r for r in results if r.status == st])] *)
Definition count_status (st : string) (results : list TestResult) : nat :=
  length (List.filter (fun r => String.eqb (tr_status r) st) results).

(** [sum(f(r) for r in results)] *)
Definition sum_nat (f : TestResult -> nat) (results : list TestResult) : nat :=
  fold_right (fun r acc => (f r + acc)%nat) 0%nat results.

Definition sum_Z (f : TestResult -> Z) (results : list TestResult) : Z :=
  fold_right (fun r acc => f r + acc) 0 results.

(** [TestReporter._calculate_stats] *)
Definition _calculate_stats (results : list TestResult) : Stats :=
  let total_scenarios := length results in
  let passed_scenarios := count_status "passed" results in
  {| total_scenarios := total_scenarios;
     passed_scenarios := passed_scenarios;
     failed_scenarios := count_status "failed" results;
     error_scenarios := count_status "error" results;
     st_total_steps := sum_nat total_steps results;
     st_passed_steps := sum_nat passed_steps results;
     st_failed_steps := sum_nat failed_steps results;
     total_duration := sum_Z tr_duration results;
     pass_rate :=
       if (0 <? total_scenarios)%nat
       then ((Z.of_nat passed_scenarios # Pos.of_nat total_scenarios)
             * inject_Z 100)%Q
       else 0%Q |}.

End Reporter.

(* ===================================================================== *)
(** ** A scripted collaborator, for running the engine on examples *)
(* ===================================================================== *)

Module Sim.
Import Scenarios Eff Agent.

(** The outside world of the examples: a clock that ticks at every
    reading, the answers the channel will give to the next calls (a
    textual confirmation once they run out), the outcomes of the next
    attempts to open a session (success once they run out), and whether
    the screenshot directory is writable. *)
Record World : Type := mkWorld {
  ticks : Z;
  answers : list (Outcome CallToolResult);
  openings : list (option Exn);
  writable : bool
}.

Definition confirmation : CallToolResult :=
  {| cr_content := [TextContent "ok"]; isError := false |}.

Definition host : Host World unit :=
  {| clock := fun w =>
       (ticks w, mkWorld (ticks w + 1) (answers w) (openings w) (writable w));
     strftime := fun _ t => pretty t;
     format_2f := fun d => pretty d;
     session_enter := fun _ w =>
       match openings w with
       | Some e :: rest =>
           (Raise e, mkWorld (ticks w) (answers w) rest (writable w))
       | None :: rest =>
           (Return tt, mkWorld (ticks w) (answers w) rest (writable w))
       | [] => (Return tt, w)
       end;
     session_exit := fun _ w => w;
     call_tool := fun _ _ _ w =>
       match answers w with
       | o :: rest => (o, mkWorld (ticks w) rest (openings w) (writable w))
       | [] => (Return confirmation, w)
       end;
     write_png := fun _ _ w =>
       if writable w then (Return tt, w) else (Raise "Permission denied", w);
     generate_report := fun dir _ _ w => (Return (dir +:+ "/report.html"), w) |}.

Definition quiet : AgentConfig :=
  {| server_command := server_command AgentConfig_default;
     server_script := server_script AgentConfig_default;
     screenshot_dir := screenshot_dir AgentConfig_default;
     report_dir := report_dir AgentConfig_default;
     default_timeout := default_timeout AgentConfig_default;
     retry_attempts := retry_attempts AgentConfig_default;
     verbose := false |}.

(** A fresh agent in a world with the given answers and openings. *)
Definition boot (c : AgentConfig) (ans : list (Outcome CallToolResult))
    (ops : list (option Exn)) : Machine World :=
  mkMachine (QATestingAgent_init c) [] [] (mkWorld 0 ans ops true).

Definition text_answer (t : string) : Outcome CallToolResult :=
  Return {| cr_content := [TextContent t]; isError := false |}.

Definition click_step (n : string) (crit : bool) : TestStep :=
  {| name := n; action := "click"; target := "#go"; value := None;
     timeout := None; critical := crit; screenshot_on_failure := false;
     retry_count := 0; description := EmptyString; expected := PNone |}.

Definition one_scenario (setup main teardown : list TestStep) : TestScenario :=
  {| sc_name := "example"; sc_description := EmptyString; steps := main;
     setup_steps := setup; teardown_steps := teardown; tags := [];
     priority := 5; sc_timeout := 300000; data := ∅ |}.

(** A click that asks for a screenshot when it fails. *)
Definition probe : TestStep :=
  {| name := "open menu"; action := "click"; target := "#menu"; value := None;
     timeout := None; critical := false; screenshot_on_failure := true;
     retry_count := 0; description := EmptyString; expected := PNone |}.

(** An element assertion whose selector is a tag name in capitals. *)
Definition heading : TestStep :=
  {| name := "has heading"; action := "assert_element"; target := "H1";
     value := None; timeout := None; critical := false;
     screenshot_on_failure := false; retry_count := 0; description := EmptyString;
     expected := PNone |}.

(** One critical setup step, a critical main step followed by another
    main step, and one teardown step. *)
Definition checkout : TestScenario :=
  one_scenario [click_step "login" true]
               [click_step "pay" true; click_step "receipt" false]
               [click_step "logout" false].

Definition trio : TestSuite :=
  {| su_name := "smoke"; su_description := EmptyString;
     scenarios := [one_scenario [] [click_step "a" false] [];
                   one_scenario [] [click_step "b" false] [];
                   one_scenario [] [click_step "c" false] []];
     parallel := false; stop_on_failure := false; su_tags := [] |}.

(** A step whose action the executor has no branch for. *)
Definition hover_step : TestStep :=
  {| name := "hover menu"; action := "hover"; target := "#menu";
     value := None; timeout := None; critical := false;
     screenshot_on_failure := false; retry_count := 0;
     description := EmptyString; expected := PNone |}.

(** A check of the recorded address. *)
Definition at_login : TestStep :=
  {| name := "at login"; action := "assert_url"; target := "/login";
     value := None; timeout := None; critical := false;
     screenshot_on_failure := true; retry_count := 0;
     description := EmptyString; expected := PNone |}.

(** Two main steps and a teardown step; only the teardown step is
    marked critical. *)
Definition errands : TestScenario :=
  one_scenario [] [click_step "a" false; click_step "b" false]
               [click_step "z" true].

(** A screenshot step. *)
Definition snap : TestStep :=
  {| name := "home page"; action := "screenshot"; target := "home";
     value := None; timeout := None; critical := false;
     screenshot_on_failure := true; retry_count := 0;
     description := EmptyString; expected := PNone |}.

End Sim.

(* ===================================================================== *)
(** ** Reference definitions used by the statements *)
(* ===================================================================== *)

Module Spec.
Import Scenarios Eff Agent.

(** A step as [from_dict] rebuilds it from [to_dict]: the seven written
    fields, and the declared defaults for the three that are not written. *)
Definition step_reset (s : TestStep) : TestStep :=
  {| name := name s; action := action s; target := target s;
     value := value s; timeout := timeout s; critical := critical s;
     screenshot_on_failure := true; retry_count := 0;
     description := description s; expected := PNone |}.

(** The same for a scenario: [timeout] and [data] are not written. *)
Definition scenario_reset (s : TestScenario) : TestScenario :=
  {| sc_name := sc_name s; sc_description := sc_description s;
     steps := map step_reset (steps s);
     setup_steps := map step_reset (setup_steps s);
     teardown_steps := map step_reset (teardown_steps s);
     tags := tags s; priority := priority s;
     sc_timeout := 300000; data := ∅ |}.

(** A returned part whose text carries the marker. *)
Definition offending (c : RawContent) : bool :=
  match c_text c with
  | Some t => PyStr.str_in "Error:" t
  | None => false
  end.

(** The text and image parts of a result, in the order returned. *)
Definition collect (parts : list RawContent) : list Part :=
  omap (fun c =>
          match c_text c, c_data c with
          | Some t, _ => Some (TextPart t)
          | None, Some d => Some (ImagePart d (default "image/png" (c_mimeType c)))
          | None, None => None
          end) parts.

(** The text of the last offending part. *)
Definition last_offending (parts : list RawContent) : option string :=
  last (omap (fun c => if offending c then c_text c else None) parts).

(** The aggregation rule in the specification's words: error if any
    step result is an error, else failed if any is failed, else passed. *)
Definition aggregate (rs : list StepResult) : string :=
  if existsb (fun r => String.eqb (status r) "error") rs then "error"
  else if existsb (fun r => String.eqb (status r) "failed") rs then "failed"
  else "passed".

(** [wp c s Q]: running [c] from [s] ends in an outcome and a state that
    satisfy [Q]. *)
Definition wp {S A} (c : M S A) (s : S) (Q : Outcome A -> S -> Prop) : Prop :=
  Q (fst (c s)) (snd (c s)).

(** The request that the branch of [run_step_in_session] for the step's
    action sends on the channel: none for [assert_url] and for an action
    that has no branch. *)
Definition request_of (stp : TestStep) : list (string * Args) :=
  if is_action stp "navigate" then
    [("browser_navigate", {[ "url" := PStr (target stp) ]})]
  else if is_action stp "click" then
    [("browser_click", {[ "selector" := PStr (target stp) ]})]
  else if is_action stp "type" then
    [("browser_type",
      <[ "selector" := PStr (target stp) ]>
      {[ "text" := PStr (or_str (value stp) EmptyString) ]})]
  else if is_action stp "wait" then
    [("browser_wait",
      <[ "selector" := if String.eqb (target stp) EmptyString
                       then PNone else PStr (target stp) ]>
      {[ "timeout" := PInt (or_int (timeout stp) 1000) ]})]
  else if is_action stp "scroll" then
    [("browser_scroll",
      <[ "direction" := PStr (or_str (value stp) "down") ]>
      {[ "amount" := PInt (or_int (timeout stp) 500) ]})]
  else if is_action stp "screenshot" then [("browser_screenshot", ∅)]
  else if is_action stp "assert_text" then [("browser_get_content", ∅)]
  else if is_action stp "assert_element" then [("browser_get_html", ∅)]
  else if is_action stp "assert_url" then []
  else if is_action stp "assert_title" then [("browser_get_html", ∅)]
  else [].

(** The request of the screenshot taken after a failure. *)
Definition failure_shot : string * Args := ("browser_screenshot", ∅).

(** The actions that [run_step_in_session] has a branch for. *)
Definition handled (a : string) : bool :=
  existsb (String.eqb a)
    ["navigate"; "click"; "type"; "wait"; "scroll"; "screenshot";
     "assert_text"; "assert_element"; "assert_url"; "assert_title"].

(** [current_url] after a step: the target of a navigation that
    succeeded, the old value otherwise. *)
Definition url_after (stp : TestStep) (ok : bool) (old : string) : string :=
  if is_action stp "navigate" && ok then target stp else old.

(** Whether an outcome is a successful response. *)
Definition succeeded (o : Outcome Response) : bool :=
  match o with Return ar => success ar | Raise _ => false end.

(** No match of [<[^>]+>] starts anywhere in [s]. *)
Fixpoint tagless (s : string) : bool :=
  match s with
  | EmptyString => true
  | String c t =>
      negb (Assertions.is_lt c && Assertions.opens t) && tagless t
  end.

(** Every recorded failure is a failed result. *)
Definition only_failures (self : Assertions.Assertions) : Prop :=
  Forall (fun r => Assertions.passed r = false) (Assertions.failures self).

(** What a check may do to the assertion object: nothing, or, in soft
    mode and when the check fails, append one failed result. *)
Definition logged (self : Assertions.Assertions)
    (out : Assertions.Assertions * bool) : Prop :=
  Assertions.soft_mode (fst out) = Assertions.soft_mode self /\
  exists tail,
    Assertions.failures (fst out) = Assertions.failures self ++ tail /\
    length tail
    = (if Assertions.soft_mode self && negb (snd out) then 1 else 0)%nat /\
    Forall (fun r => Assertions.passed r = false) tail.

(** Every set of [r] holds no whitespace character, also when case is
    ignored. *)
Fixpoint spaceless (r : Regex.regex) : bool :=
  match r with
  | Regex.Void | Regex.Eps => true
  | Regex.Set_ cs =>
      forallb (fun n => negb (Regex.set_has true cs (ascii_of_nat n)
                              && Regex.is_space (ascii_of_nat n)))
              (seq 0 256)
  | Regex.Cat a b | Regex.Alt a b => spaceless a && spaceless b
  | Regex.Star a => spaceless a
  end.

(** The data of the first image part of an answer, as the loop
    [for content in ...: if content.get("type") == "image": ... break]
    finds it. *)
Fixpoint first_image (parts : list Part) : option string :=
  match parts with
  | [] => None
  | ImagePart d _ :: _ => Some d
  | TextPart _ :: rest => first_image rest
  end.

Section EngineSpec.
Context {Env Sess : Type} (H : Host Env Sess).

(** What a step may change in the agent object: [current_url] only. *)
Definition same_agent (m m' : Machine Env) : Prop :=
  config (self m') = config (self m) /\
  test_results (self m') = test_results (self m).

(** What dispatching may change in the step's result: [screenshot] only. *)
Definition same_but_screenshot (r r' : StepResult) : Prop :=
  step r' = step r /\ status r' = status r /\ message r' = message r /\
  start_time r' = start_time r /\ end_time r' = end_time r /\
  duration r' = duration r.

(** What the [try] body may leave in the step's result. *)
Definition same_identity (r r' : StepResult) : Prop :=
  step r' = step r /\ start_time r' = start_time r.

(** [r] was classified from a result that [dispatch] returned. *)
Definition classified session step (r : StepResult) : Prop :=
  exists ar fr0 fr1,
    dispatch H session step fr0 = (Return ar, fr1) /\
    status r = (if success ar then "passed" else "failed") /\
    message r = default EmptyString (error ar).

(** What [run_step_in_session] returns. *)
Definition step_outcome session (stp : TestStep) (r : StepResult) : Prop :=
  step r = stp /\ (status r = "error" \/ classified session stp r).

(** A result does not end its phase / ends its phase. *)
Definition nonstop (r : StepResult) : Prop := stops r (step r) = false.
Definition stopping (r : StepResult) : Prop := stops r (step r) = true.

(** The results of a phase that ran all of [todo] without a stop, and of
    a phase that was cut short by the stop of its last result. *)
Definition complete (todo : list TestStep) (new : list StepResult) : Prop :=
  map step new = todo /\ Forall nonstop new.

Definition cut (todo : list TestStep) (new : list StepResult) : Prop :=
  exists pre r, new = pre ++ [r] /\ map step new `prefix_of` todo /\
                Forall nonstop pre /\ stopping r.

Definition valid (r : StepResult) : Prop :=
  status r = "passed" \/ status r = "failed" \/ status r = "error".

(** The step results of a scenario run whose session was opened. *)
Definition shape (sc : TestScenario) (rs : list StepResult) : Prop :=
  Forall valid rs /\
  (cut (setup_steps sc) rs \/
   exists rs_s rs_m rs_t,
     rs = rs_s ++ rs_m ++ rs_t /\
     complete (setup_steps sc) rs_s /\
     (complete (steps sc) rs_m \/ cut (steps sc) rs_m) /\
     map step rs_t = teardown_steps sc).

(** The state in which [run_scenario] requests its session. *)
Definition scenario_entry (sc : TestScenario) (m : Machine Env) : Machine Env :=
  snd (scenario_prologue H sc m).

(** What [run_scenario] does, by the outcome of the session request. *)
Definition scenario_post (sc : TestScenario) (m : Machine Env)
    (o : Outcome TestResult) (m' : Machine Env) : Prop :=
  match o with
  | Return tr =>
      scenario tr = sc /\ shape sc (step_results tr) /\
      tr_status tr = scenario_status (step_results tr) /\
      test_results (self m') = test_results (self m) ++ [tr] /\
      config (self m') = config (self m) /\
      exists s w',
        session_enter H (config (self m)) (world (scenario_entry sc m))
        = (Return s, w')
  | Raise e =>
      exists w',
        session_enter H (config (self m)) (world (scenario_entry sc m))
        = (Raise e, w') /\
        m' = set_world w' (scenario_entry sc m)
  end.

(** The frame in which the [try] of [run_step_in_session] starts: the
    clock has been read once and the result is still pending. *)
Definition try_entry (stp : TestStep) (m : Machine Env) : Frame :=
  (set_world (snd (clock H (world m))) m,
   initial_result stp (fst (clock H (world m)))).

(** The frame in which [dispatch] starts: the first line of the [try]
    has been logged. *)
Definition dispatch_entry (stp : TestStep) (m : Machine Env) : Frame :=
  (snd (log H ("Executing step: " +:+ name stp) "STEP" (fst (try_entry stp m))),
   snd (try_entry stp m)).

(** The state in which [run_suite] starts its loop. *)
Definition suite_entry (suite : TestSuite) (m : Machine Env) : Machine Env :=
  snd (suite_prologue H suite m).

(** How [run_step_in_session] ends, by what the dispatch of the step
    does in the frame where it starts. *)
Definition step_cases session stp (m : Machine Env) (r : StepResult)
    (m' : Machine Env) : Prop :=
  step r = stp /\
  match dispatch H session stp (dispatch_entry stp m) with
  | (Raise e, fr1) =>
      status r = "error" /\ message r = e /\
      calls m' = calls (fst fr1) /\ self m' = self (fst fr1) /\
      screenshot r = screenshot (snd fr1)
  | (Return ar, fr1) =>
      if success ar || negb (screenshot_on_failure stp) then
        status r = (if success ar then "passed" else "failed") /\
        message r = default EmptyString (error ar) /\
        calls m' = calls (fst fr1) /\ self m' = self (fst fr1) /\
        screenshot r = screenshot (snd fr1)
      else
        calls m' = calls (fst fr1) ++ [failure_shot] /\
        self m' = self (fst fr1) /\
        (status r = "failed" /\ message r = default EmptyString (error ar) \/
         status r = "error")
  end.

(** What [suite_loop] adds to its local list and to [test_results]. *)
Definition recorded (tr : TestResult) : Prop :=
  tr_status tr = scenario_status (step_results tr) /\
  shape (scenario tr) (step_results tr).

(** How [run_suite] ends. *)
Definition suite_post (suite : TestSuite) (m : Machine Env)
    (o : Outcome (list TestResult)) (m' : Machine Env) : Prop :=
  exists rs,
    config (self m') = config (self m) /\
    test_results (self m') = test_results (self m) ++ rs /\
    Forall recorded rs /\
    match o with
    | Return results => results = rs /\ map scenario rs = scenarios suite
    | Raise _ => map scenario rs `prefix_of` scenarios suite
    end.

(** The requests that executing a step sends, given its result: those
    of its action, followed by the failure screenshot only when the
    step did not pass and asks for one. *)
Definition step_sent (r : StepResult) (l : list (string * Args)) : Prop :=
  l = request_of (step r) \/
  (status r <> "passed" /\ screenshot_on_failure (step r) = true /\
   l = request_of (step r) ++ [failure_shot]).

(** What a loop over steps leaves: the results it appended and, for
    each of them in order, the requests of its step. *)
Definition loop_sends (fr fr' : Machine Env * list StepResult) : Prop :=
  exists new ls,
    snd fr' = snd fr ++ new /\
    Forall2 step_sent new ls /\
    calls (fst fr') = calls (fst fr) ++ concat ls.

(** The frame in which the [try] statement of [run_step_in_session],
    handler included, ends. *)
Definition try_exit session (stp : TestStep) (m : Machine Env) : Frame :=
  snd (try_except (step_try H session stp) (step_except H) (try_entry stp m)).


End EngineSpec.

End Spec.

(* ===================================================================== *)
(** ** Strings *)
(* ===================================================================== *)

Section StringFacts.
Import PyStr.

Lemma lower_char_not_ascii_upper (c : ascii) :
  is_ascii_upper (lower_char c) = false.
Proof. destruct c as [[] [] [] [] [] [] [] []]; vm_compute; reflexivity. Qed.

Lemma lower_no_ascii_upper (s : string) :
  any_char is_ascii_upper (lower s) = false.
Proof.
  induction s as [|c t IH]; simpl; [reflexivity|].
  now rewrite lower_char_not_ascii_upper, IH.
Qed.

Lemma prefix_any_char (p : ascii -> bool) (n h : string) :
  String.prefix n h = true -> any_char p n = true -> any_char p h = true.
Proof.
  revert h; induction n as [|c n IH]; intros [|d h] Hpre Hany;
    simpl in *; try discriminate.
  destruct (ascii_dec c d) as [->|]; [|discriminate].
  apply orb_true_iff in Hany as [Hc|Hn].
  - now rewrite Hc.
  - rewrite (IH h Hpre Hn). apply orb_true_r.
Qed.

Lemma str_in_any_char (p : ascii -> bool) (n h : string) :
  str_in n h = true -> any_char p n = true -> any_char p h = true.
Proof.
  induction h as [|d h IH]; intros Hin Hany.
  - destruct n; [discriminate Hany|discriminate Hin].
  - cbn [str_in] in Hin. apply orb_true_iff in Hin as [Hpre|Hin].
    + exact (prefix_any_char p n _ Hpre Hany).
    + simpl. rewrite (IH Hin Hany). apply orb_true_r.
Qed.

End StringFacts.

(* ===================================================================== *)
(** ** Regular expressions: the matcher and the language *)
(* ===================================================================== *)
Section RegexFacts.
Import Regex.

Context (ic : bool).

Lemma append_cons c (s t : string) : String c s +:+ t = String c (s +:+ t).
Proof. reflexivity. Qed.

Lemma append_nil_l (s : string) : EmptyString +:+ s = s.
Proof. reflexivity. Qed.

Lemma append_nil_r (s : string) : s +:+ EmptyString = s.
Proof.
  induction s as [|c s IH]; [reflexivity|]. now rewrite append_cons, IH.
Qed.

Lemma append_eq_nil (s t : string) :
  s +:+ t = EmptyString -> s = EmptyString /\ t = EmptyString.
Proof.
  destruct s; [rewrite append_nil_l; auto|rewrite append_cons; discriminate].
Qed.

Lemma nullable_lang r : nullable r = true <-> lang ic r EmptyString.
Proof.
  split.
  - induction r; simpl; intros Hn; try discriminate.
    + constructor.
    + apply andb_true_iff in Hn as [H1 H2].
      change EmptyString with (EmptyString +:+ EmptyString). constructor; auto.
    + apply orb_true_iff in Hn as [H1|H2];
        [apply lang_alt_l|apply lang_alt_r]; auto.
    + constructor.
  - intros Hl. remember EmptyString as s eqn:Hs.
    induction Hl; simpl; try reflexivity; try discriminate.
    + apply append_eq_nil in Hs as [-> ->]. now rewrite IHHl1, IHHl2.
    + rewrite IHHl; auto.
    + rewrite IHHl; auto. apply orb_true_r.
Qed.

Lemma lang_void s : ~ lang ic Void s.
Proof. intros Hl. inversion Hl. Qed.

Lemma lang_eps_inv s : lang ic Eps s -> s = EmptyString.
Proof. intros Hl. now inversion Hl. Qed.

Lemma lang_cat_smart a b s : lang ic (cat a b) s <-> lang ic (Cat a b) s.
Proof.
  assert (Hl : forall s, lang ic b s -> lang ic (Cat Eps b) s).
  { intros t Ht. change t with (EmptyString +:+ t). now repeat constructor. }
  assert (Hr : forall s, lang ic a s -> lang ic (Cat a Eps) s).
  { intros t Ht. rewrite <- (append_nil_r t). now repeat constructor. }
  split.
  - destruct a, b; simpl; intros Hc;
      try (exfalso; exact (lang_void _ Hc)); auto.
  - intros Hc. inversion Hc as [| |a' b' s1 s2 H1 H2| | | |]; subst.
    destruct a; try (exfalso; exact (lang_void _ H1));
      destruct b; try (exfalso; exact (lang_void _ H2)); simpl;
      try exact Hc;
      try (apply lang_eps_inv in H1; subst; exact H2);
      try (apply lang_eps_inv in H2; subst; rewrite append_nil_r; exact H1).
Qed.

Lemma lang_alt_smart a b s : lang ic (alt a b) s <-> lang ic (Alt a b) s.
Proof.
  split.
  - destruct a, b; simpl; intros Hc;
      try exact Hc;
      try (apply lang_alt_r; exact Hc);
      try (apply lang_alt_l; exact Hc).
  - intros Hc. inversion Hc; subst;
      destruct a; try (exfalso; eapply lang_void; eassumption);
      destruct b; try (exfalso; eapply lang_void; eassumption); simpl;
      try assumption; try exact Hc.
Qed.

Lemma lang_star_cons_inv a c s :
  lang ic (Star a) (String c s) ->
  exists s1 s2, s = s1 +:+ s2 /\ lang ic a (String c s1) /\ lang ic (Star a) s2.
Proof.
  intros Hl. remember (Star a) as r eqn:Hr. remember (String c s) as w eqn:Hw.
  induction Hl as [| | | | | |a' s0 t H0 _ Ht IH]; try discriminate.
  injection Hr as ->. destruct s0 as [|c0 s0].
  - rewrite append_nil_l in Hw. now apply IH.
  - rewrite append_cons in Hw. injection Hw as -> <-. eauto.
Qed.

Lemma deriv_lang r c s : lang ic (deriv ic c r) s <-> lang ic r (String c s).
Proof.
  revert s. induction r as [| |cs|a IHa b IHb|a IHa b IHb|a IHa]; intros s; simpl.
  - split; intros Hl; inversion Hl.
  - split; intros Hl; inversion Hl.
  - destruct (set_has ic cs c) eqn:Hset; split; intros Hl.
    + apply lang_eps_inv in Hl as ->. now constructor.
    + inversion Hl; subst. constructor.
    + inversion Hl.
    + inversion Hl; subst. congruence.
  - rewrite lang_alt_smart. split; intros Hl.
    + inversion Hl as [| | |a' b' s' Hc|a' b' s' Hc| |]; subst.
      * apply lang_cat_smart in Hc.
        inversion Hc as [| |a' b' s1 s2 H1 H2| | | |]; subst.
        apply IHa in H1. change (String c (s1 +:+ s2)) with (String c s1 +:+ s2).
        now constructor.
      * destruct (nullable a) eqn:Hn; [|inversion Hc].
        apply IHb in Hc. apply nullable_lang in Hn.
        change (String c s) with (EmptyString +:+ String c s). now constructor.
    + inversion Hl as [| |a' b' s1 s2 H1 H2 Heq Hs| | | |]; subst.
      destruct s1 as [|c1 s1].
      * rewrite append_nil_l in Hs. subst s2. apply lang_alt_r.
        apply nullable_lang in H1. rewrite H1. now apply IHb.
      * rewrite append_cons in Hs. injection Hs as -> <-.
        apply lang_alt_l, lang_cat_smart.
        constructor; [now apply IHa|exact H2].
  - rewrite lang_alt_smart. split; intros Hl; inversion Hl; subst.
    + apply lang_alt_l. now apply IHa.
    + apply lang_alt_r. now apply IHb.
    + apply lang_alt_l. now apply IHa.
    + apply lang_alt_r. now apply IHb.
  - rewrite lang_cat_smart. split; intros Hl.
    + inversion Hl as [| |a' b' s1 s2 H1 H2| | | |]; subst.
      apply IHa in H1. change (String c (s1 +:+ s2)) with (String c s1 +:+ s2).
      now constructor.
    + apply lang_star_cons_inv in Hl as (s1 & s2 & -> & H1 & H2).
      constructor; [now apply IHa|exact H2].
Qed.

(** The matcher decides membership in the language of the expression. *)
Lemma fullmatch_lang r s : fullmatch ic r s = true <-> lang ic r s.
Proof.
  revert r. induction s as [|c s IH]; intros r; simpl.
  - apply nullable_lang.
  - rewrite IH. apply deriv_lang.
Qed.

End RegexFacts.

Section UrlScheme.
Import Regex Assertions.

Lemma lower_upper_char (c : ascii) :
  PyStr.lower_char (PyStr.upper_char c) = PyStr.lower_char c.
Proof. destruct c as [[] [] [] [] [] [] [] []]; vm_compute; reflexivity. Qed.

Lemma lower_lower_char (c : ascii) :
  PyStr.lower_char (PyStr.lower_char c) = PyStr.lower_char c.
Proof. destruct c as [[] [] [] [] [] [] [] []]; vm_compute; reflexivity. Qed.

Lemma lower_append (s t : string) :
  PyStr.lower (s +:+ t) = PyStr.lower s +:+ PyStr.lower t.
Proof.
  induction s as [|c s IH]; [reflexivity|].
  rewrite append_cons. simpl. now rewrite IH, append_cons.
Qed.

Lemma prefix_append (p s : string) : String.prefix p (p +:+ s) = true.
Proof.
  induction p as [|c p IH]; [now destruct s|].
  rewrite append_cons. simpl. now destruct (ascii_dec c c).
Qed.

(** Under [re.IGNORECASE] a literal matches the strings that lower-case
    to the same text. *)
Lemma lang_lit_lower (p s : string) :
  lang true (Lit p) s -> PyStr.lower s = PyStr.lower p.
Proof.
  revert s. induction p as [|x p IH]; intros s Hl; simpl in Hl.
  - now apply lang_eps_inv in Hl as ->.
  - inversion Hl as [| |a b s1 s2 H1 H2| | | |]; subst.
    inversion H1 as [|cs c Hset| | | | |]; subst.
    rewrite append_cons, append_nil_l. simpl. rewrite (IH _ H2). f_equal.
    unfold set_has in Hset. simpl in Hset. rewrite !orb_false_r in Hset.
    apply orb_true_iff in Hset as [Hc|Hc];
      [|apply orb_true_iff in Hc as [Hc|Hc]];
      apply Ascii.eqb_eq in Hc; subst x;
      auto using lower_upper_char, lower_lower_char.
Qed.

(** Whatever [is_valid_url] accepts starts, up to case, with "http://" or
    with "https://". *)
Lemma valid_url_scheme (self : Assertions.Assertions) (url message : string) :
  snd (is_valid_url self url message) = true ->
  PyStr.startswith (PyStr.lower url) "http://" = true \/
  PyStr.startswith (PyStr.lower url) "https://" = true.
Proof.
  unfold is_valid_url, _handle_result, match_anchored; simpl snd.
  intros Hm. apply fullmatch_lang in Hm.
  inversion Hm as [| |a b u d Hu _| | | |]; subst. unfold url_pattern in Hu.
  inversion Hu as [| |a b s1 r1 H1 Hr1| | | |]; subst.
  inversion Hr1 as [| |a b s2 r2 H2 Hr2| | | |]; subst.
  inversion Hr2 as [| |a b s3 r3 H3 _| | | |]; subst.
  apply (lang_lit_lower "http") in H1. apply (lang_lit_lower "://") in H3.
  rewrite !lower_append, H1, H3.
  inversion H2 as [| | |a b s Hs|a b s Hs| |]; subst.
  - apply lang_eps_inv in Hs as ->. left.
    apply (prefix_append "http://" (PyStr.lower r3 +:+ PyStr.lower d)).
  - apply (lang_lit_lower "s") in Hs. rewrite Hs. right.
    apply (prefix_append "https://" (PyStr.lower r3 +:+ PyStr.lower d)).
Qed.

End UrlScheme.

(* ===================================================================== *)
(** ** The dictionary forms *)
(* ===================================================================== *)

Section RoundTrip.
Import Scenarios Spec.

Lemma dom_step_to_dict (s : TestStep) : dom (step_to_dict s) ⊆ TestStep_fields.
Proof.
  unfold step_to_dict, TestStep_fields.
  rewrite !dom_insert_L, dom_empty_L. apply (bool_decide_unpack _).
  vm_compute. exact I.
Qed.

Lemma step_from_to_dict (s : TestStep) :
  step_from_dict (step_to_dict s) = inr (step_reset s).
Proof.
  unfold step_from_dict.
  rewrite bool_decide_eq_true_2 by apply dom_step_to_dict.
  unfold required, kwarg, step_to_dict. simplify_map_eq.
  destruct s as [n a t v tm c sof rc d e]; simpl.
  destruct v, tm; reflexivity.
Qed.

Lemma steps_from_to_list (l : list TestStep) :
  steps_from_list (map (fun x => PDict (step_to_dict x)) l)
  = inr (map step_reset l).
Proof.
  induction l as [|s l IH]; simpl; [reflexivity|].
  now rewrite step_from_to_dict, IH.
Qed.

Lemma strs_from_to_list (f : string) (l : list string) :
  strs_from_list f (map PStr l) = inr l.
Proof. induction l as [|s l IH]; simpl; [reflexivity|]. now rewrite IH. Qed.

Lemma scenario_from_to_dict (s : TestScenario) :
  scenario_from_dict (scenario_to_dict s) = inr (scenario_reset s).
Proof.
  unfold scenario_from_dict, required, kwarg, scenario_to_dict.
  simplify_map_eq. unfold as_steps.
  rewrite !steps_from_to_list, strs_from_to_list. reflexivity.
Qed.

Lemma step_reset_id (s : TestStep) :
  step_reset s = s <->
  screenshot_on_failure s = true /\ retry_count s = 0 /\ expected s = PNone.
Proof.
  destruct s as [n a t v tm c sof rc d e]; unfold step_reset; simpl. split.
  - intros Heq. injection Heq as <- <- <-. auto.
  - intros (-> & -> & ->). reflexivity.
Qed.

(** C7 (round trip): rebuilding a step from its dictionary keeps name,
    action, target, value, timeout, critical and description, and sets
    screenshot_on_failure, retry_count and expected to their defaults; so
    the result equals the original exactly when those three fields held
    their defaults.  A scenario is rebuilt likewise, step by step, with
    timeout and data at their defaults. *)
Theorem C7_round_trip_up_to_unwritten_fields :
  (forall s : TestStep,
     step_from_dict (step_to_dict s) = inr (step_reset s) /\
     (step_from_dict (step_to_dict s) = inr s <->
      screenshot_on_failure s = true /\ retry_count s = 0 /\
      expected s = PNone)) /\
  (forall sc : TestScenario,
     scenario_from_dict (scenario_to_dict sc) = inr (scenario_reset sc)).
Proof.
  split.
  - intros s. split; [apply step_from_to_dict|].
    rewrite step_from_to_dict, <- step_reset_id.
    split; [now intros [= ->]|now intros ->].
  - apply scenario_from_to_dict.
Qed.

(** A step that asks for no failure screenshot comes back from its
    dictionary asking for one. *)
Lemma C7_counterexample :
  step_from_dict (step_to_dict (Sim.click_step "submit" false))
  <> inr (Sim.click_step "submit" false).
Proof. rewrite step_from_to_dict. unfold step_reset; simpl. intros [=]. Qed.

End RoundTrip.

(* ===================================================================== *)
(** ** The URL assertion *)
(* ===================================================================== *)

Section Url.
Import Assertions.

(** C9: [is_valid_url] answers true on "http://localhost:3000/path" and
    "https://example.com", and false on "not a url" and
    "ftp://example.com", whatever the assertion object's mode and the
    message passed. *)
Theorem C9_is_valid_url_examples (self : Assertions.Assertions) (message : string) :
  snd (is_valid_url self "http://localhost:3000/path" message) = true /\
  snd (is_valid_url self "https://example.com" message) = true /\
  snd (is_valid_url self "not a url" message) = false /\
  snd (is_valid_url self "ftp://example.com" message) = false.
Proof.
  unfold is_valid_url, _handle_result; simpl snd.
  repeat split; vm_compute; reflexivity.
Qed.

End Url.

(* ===================================================================== *)
(** ** Reasoning about computations *)
(* ===================================================================== *)

Section Wp.
Import Eff Spec.
Context {S : Type}.
Implicit Type s : S.

Lemma wp_elim {A} (c : M S A) s Q o s' : wp c s Q -> c s = (o, s') -> Q o s'.
Proof. unfold wp. intros HQ Heq. now rewrite Heq in HQ. Qed.

Lemma wp_run {A} (c : M S A) s : wp c s (fun o s' => c s = (o, s')).
Proof. unfold wp. now destruct (c s). Qed.

Lemma wp_mono {A} (c : M S A) s (Q Q' : Outcome A -> S -> Prop) :
  wp c s Q -> (forall o s', Q o s' -> Q' o s') -> wp c s Q'.
Proof. unfold wp. auto. Qed.

Lemma wp_use {A} (c : M S A) s (P Q : Outcome A -> S -> Prop) :
  wp c s P -> (forall o s', P o s' -> c s = (o, s') -> Q o s') -> wp c s Q.
Proof. unfold wp. intros HP HQ. apply HQ; [exact HP|now destruct (c s)]. Qed.

Lemma wp_ret {A} (a : A) s Q : Q (Return a) s -> wp (ret a) s Q.
Proof. exact id. Qed.

Lemma wp_raise {A} e s (Q : Outcome A -> S -> Prop) :
  Q (Raise e) s -> wp (raise e) s Q.
Proof. exact id. Qed.

Lemma wp_modify f s Q : Q (Return tt) (f s) -> wp (modify f) s Q.
Proof. exact id. Qed.

Lemma wp_gets {A} (f : S -> A) s Q : Q (Return (f s)) s -> wp (gets f) s Q.
Proof. exact id. Qed.

Lemma wp_bind {A B} (c : M S A) (k : A -> M S B) s Q :
  wp c s (fun o s' =>
            match o with
            | Return a => wp (k a) s' Q
            | Raise e => Q (Raise e) s'
            end) ->
  wp (bind c k) s Q.
Proof. unfold wp, bind. now destruct (c s) as [[a|e] s']. Qed.

Lemma wp_try {A} (c : M S A) (h : Exn -> M S A) s Q :
  wp c s (fun o s' =>
            match o with
            | Return a => Q (Return a) s'
            | Raise e => wp (h e) s' Q
            end) ->
  wp (try_except c h) s Q.
Proof. unfold wp, try_except. now destruct (c s) as [[a|e] s']. Qed.

End Wp.

Section WpLocal.
Import Eff Spec.
Context {S L : Type}.

Lemma wp_lift {A} (c : M S A) (fr : S * L) Q :
  wp c (fst fr) (fun o s' => Q o (s', snd fr)) -> wp (lift c) fr Q.
Proof. unfold wp, lift. now destruct (c (fst fr)). Qed.

Lemma wp_local (fr : S * L) Q : Q (Return (snd fr)) fr -> wp local fr Q.
Proof. exact id. Qed.

Lemma wp_set_local (f : L -> L) (fr : S * L) Q :
  Q (Return tt) (fst fr, f (snd fr)) -> wp (set_local f) fr Q.
Proof. exact id. Qed.

Lemma wp_with_local {A} (l0 : L) (c : M (S * L) A) s Q :
  wp c (s, l0) (fun o fr => Q o (fst fr)) -> wp (with_local l0 c) s Q.
Proof. unfold wp, with_local. now destruct (c (s, l0)). Qed.

End WpLocal.

Import Spec.

(** One step of a weakest-precondition computation on the combinators. *)
Ltac wp_step :=
  lazymatch goal with
  | |- wp (Eff.bind _ _) _ _ => apply wp_bind
  | |- wp (Eff.ret _) _ _ => apply wp_ret
  | |- wp (Eff.raise _) _ _ => apply wp_raise
  | |- wp (Eff.modify _) _ _ => apply wp_modify
  | |- wp (Eff.gets _) _ _ => apply wp_gets
  | |- wp (Eff.try_except _ _) _ _ => apply wp_try
  | |- wp (Eff.lift _) _ _ => apply wp_lift
  | |- wp Eff.local _ _ => apply wp_local
  | |- wp (Eff.set_local _) _ _ => apply wp_set_local
  | |- wp (Eff.with_local _ _) _ _ => apply wp_with_local
  end.

(* ===================================================================== *)
(** ** The step executor *)
(* ===================================================================== *)

Section StepFacts.
Import Scenarios Eff Agent Spec.
Context {Env Sess : Type} (H : Host Env Sess).

Lemma now_wp (m : Machine Env) Q :
  (forall t w, clock H (world m) = (t, w) -> Q (Return t) (set_world w m)) ->
  wp (now H) m Q.
Proof.
  intros HQ. unfold wp, now.
  destruct (clock H (world m)) as [t w] eqn:E. simpl. now apply HQ.
Qed.

Lemma log_wp msg lvl (m : Machine Env) Q :
  (forall m', self m' = self m -> calls m' = calls m -> Q (Return tt) m') ->
  wp (log H msg lvl) m Q.
Proof.
  intros HQ. unfold wp, log, bind, now, print_line, modify.
  destruct (verbose _); [destruct (clock H (world m))|]; simpl; now apply HQ.
Qed.

Lemma call_wp session nm args (m : Machine Env) Q :
  (forall o m', self m' = self m -> calls m' = calls m ++ [(nm, args)] ->
                Q o m') ->
  wp (_call_tool_in_session H session nm args) m Q.
Proof.
  intros HQ. unfold wp, _call_tool_in_session, bind, session_call_tool, ret.
  destruct (call_tool H session nm args (world m)) as [[res|e] w];
    simpl; now apply HQ.
Qed.

Lemma save_wp d nm (m : Machine Env) Q :
  (forall o m', self m' = self m -> calls m' = calls m -> Q o m') ->
  wp (_save_screenshot H d nm) m Q.
Proof.
  intros HQ. unfold wp, _save_screenshot, bind, now.
  destruct (clock H (world m)) as [t w]; simpl.
  destruct (write_png H _ d w) as [[u|e] w']; simpl; now apply HQ.
Qed.

Lemma save_first_image_wp parts nm (fr : Frame) Q :
  (forall o m' r', self m' = self (fst fr) -> calls m' = calls (fst fr) ->
                   same_but_screenshot (snd fr) r' -> Q o (m', r')) ->
  wp (save_first_image H parts nm) fr Q.
Proof.
  intros HQ. induction parts as [|[t|d mime] rest IH]; simpl.
  - wp_step. destruct fr; apply HQ; repeat split.
  - exact IH.
  - wp_step. wp_step. apply save_wp. intros [path|e] m1 Hs1 Hc1.
    + wp_step. wp_step. apply log_wp. intros m2 Hs2 Hc2.
      wp_step. simpl in *. apply HQ; [congruence|congruence|repeat split].
    + simpl in *. apply HQ; [congruence|congruence|repeat split].
Qed.


End StepFacts.

Ltac wp_call :=
  first
    [ apply log_wp; intros ? ? ?
    | apply now_wp; intros ? ? ?
    | apply call_wp; intros [?|?] ? ? ?
    | apply save_wp; intros [?|?] ? ? ?
    | apply save_first_image_wp; intros [?|?] ? ? ? ? ? ].

Ltac wp_branch :=
  lazymatch goal with
  | |- wp (if ?b then _ else _) _ _ => destruct b
  | |- wp (match ?x with Some _ => _ | None => _ end) _ _ => destruct x
  end.

Ltac wp_walk := repeat (first [wp_step | wp_call | wp_branch]; cbn beta iota).

Ltac same_close :=
  unfold same_agent, same_but_screenshot in *; simpl in *;
  repeat match goal with H : _ /\ _ |- _ => destruct H end;
  repeat split; congruence.

Section StepSpecs.
Import Scenarios Eff Agent Spec.
Context {Env Sess : Type} (H : Host Env Sess).

Lemma dispatch_wp session step (fr : Frame) Q :
  (forall o m' r', same_agent (fst fr) m' ->
                   same_but_screenshot (snd fr) r' -> Q o (m', r')) ->
  wp (dispatch H session step) fr Q.
Proof.
  intros HQ. unfold dispatch. destruct fr as [m r].
  wp_walk; apply HQ; same_close.
Qed.

Lemma failure_capture_wp session step (fr : Frame) Q :
  (forall o m' r', self m' = self (fst fr) ->
                   calls m' = calls (fst fr) ++ [("browser_screenshot", ∅)] ->
                   same_but_screenshot (snd fr) r' -> Q o (m', r')) ->
  wp (failure_capture H session step) fr Q.
Proof.
  intros HQ. unfold failure_capture. destruct fr as [m r].
  wp_walk; apply HQ; same_close.
Qed.

Lemma step_try_wp session step (fr : Frame) Q :
  (forall o m' r',
     same_agent (fst fr) m' -> same_identity (snd fr) r' ->
     (forall u, o = Return u -> classified H session step r') ->
     Q o (m', r')) ->
  wp (step_try H session step) fr Q.
Proof.
  intros HQ. unfold step_try, classify. destruct fr as [m r].
  wp_step. wp_step. apply log_wp; intros m0 Hs0 Hc0. cbn beta iota. wp_step.
  apply wp_use with
    (P := fun (o : Outcome Response) fr' =>
            same_agent m0 (fst fr') /\ same_but_screenshot r (snd fr'));
    [apply dispatch_wp; intros o m1 r1 Hm1 Hr1; exact (conj Hm1 Hr1)|].
  intros [ar|e] [m1 r1] [Hm1 Hr1] Hd; cbn beta iota.
  - wp_step. wp_step. cbn beta iota. wp_step. wp_step. cbn beta iota.
    assert (Hcl : forall r2,
               same_but_screenshot
                 (set_status (if success ar then "passed" else "failed")
                    (default EmptyString (error ar)) r1) r2 ->
               classified H session step r2).
    { intros r2 (_ & Hs & Hmsg & _). exists ar, (m0, r), (m1, r1).
      rewrite Hs, Hmsg. auto. }
    wp_branch.
    + apply failure_capture_wp. intros o m2 r2 Hm2 _ Hr2.
      apply HQ; [same_close|unfold same_identity; same_close|auto].
    + wp_step. apply HQ; [same_close|unfold same_identity; same_close|].
      intros _ _. apply Hcl. repeat split.
  - apply HQ; [same_close|unfold same_identity; same_close|].
    intros u [=].
Qed.

Lemma step_outcome_status session stp r :
  step_outcome H session stp r ->
  status r = "passed" \/ status r = "failed" \/ status r = "error".
Proof.
  intros (_ & [He|(ar & _ & _ & _ & Hs & _)]); [auto|].
  rewrite Hs. destruct (success ar); auto.
Qed.

Lemma run_step_wp session step (m : Machine Env) Q :
  (forall r m', step_outcome H session step r -> same_agent m m' ->
                Q (Return r) m') ->
  wp (run_step_in_session H session step) m Q.
Proof.
  intros HQ. unfold run_step_in_session, step_except.
  wp_step. apply now_wp; intros t0 w0 _. cbn beta iota.
  wp_step. wp_step. wp_step.
  apply step_try_wp. intros [u|e] m1 r1 Hm1 [Hst Hstart] Hcl; cbn beta iota.
  - wp_walk. apply HQ; [|same_close].
    split; [exact Hst|right]. destruct (Hcl u eq_refl) as (ar & f0 & f1 & ? & ? & ?).
    exists ar, f0, f1. auto.
  - wp_walk. apply HQ; [|same_close]. split; [exact Hst|now left].
Qed.

End StepSpecs.

(* ===================================================================== *)
(** ** The scenario runner *)
(* ===================================================================== *)

Section ScenarioFacts.
Import Scenarios Eff Agent Spec.
Context {Env Sess : Type} (H : Host Env Sess).

Lemma run_and_record_wp session stp (fr : Results) Q :
  (forall r m', step r = stp -> valid r -> same_agent (fst fr) m' ->
                Q (Return r) (m', snd fr ++ [r])) ->
  wp (run_and_record H session stp) fr Q.
Proof.
  intros HQ. unfold run_and_record. destruct fr as [m rs].
  wp_step. wp_step. apply run_step_wp. intros r m1 Hr Hm1. cbn beta iota.
  wp_step. wp_step. cbn beta iota. wp_step.
  apply HQ; [apply Hr|exact (step_outcome_status H _ _ _ Hr)|exact Hm1].
Qed.

Lemma same_agent_trans (m1 m2 m3 : Machine Env) :
  same_agent m1 m2 -> same_agent m2 m3 -> same_agent m1 m3.
Proof. unfold same_agent. intros [] []. split; congruence. Qed.

Lemma same_agent_refl (m : Machine Env) : same_agent m m.
Proof. now split. Qed.

Lemma complete_cons r stp todo new :
  step r = stp -> stops r stp = false -> complete todo new ->
  complete (stp :: todo) (r :: new).
Proof.
  intros <- Hns [Hmap Hall]. split; [simpl; now rewrite Hmap|].
  constructor; assumption.
Qed.

Lemma cut_cons r stp todo new :
  step r = stp -> stops r stp = false -> cut todo new ->
  cut (stp :: todo) (r :: new).
Proof.
  intros <- Hns (pre & l & -> & Hpre & Hall & Hstop).
  exists (r :: pre), l. split; [reflexivity|]. split; [|split].
  - simpl. now apply prefix_cons.
  - now constructor.
  - exact Hstop.
Qed.

Lemma cut_here r stp todo :
  step r = stp -> stops r stp = true -> cut (stp :: todo) [r].
Proof.
  intros <- Hs. exists [], r. repeat split; [|constructor|exact Hs].
  simpl. apply prefix_cons, prefix_nil.
Qed.

Lemma setup_loop_wp session todo (fr : Results) Q :
  (forall o m' new,
     same_agent (fst fr) m' -> Forall valid new ->
     match o with
     | Return _ => complete todo new
     | Raise _ => cut todo new
     end ->
     Q o (m', snd fr ++ new)) ->
  wp (setup_loop H session todo) fr Q.
Proof.
  revert fr Q. induction todo as [|stp rest IH]; intros [m rs] Q HQ; simpl.
  - wp_step. rewrite <- (app_nil_r rs). apply (HQ (Return tt) m []);
      [apply same_agent_refl|constructor|split; [reflexivity|constructor]].
  - wp_step. apply run_and_record_wp. intros r m1 Hr Hv Hm1. cbn beta iota.
    destruct (stops r stp) eqn:Hs.
    + wp_step. apply (HQ (Raise _) m1 [r]);
        [exact Hm1|now apply Forall_singleton|now apply cut_here].
    + apply IH. intros o m2 new Hm2 Hvs Hsh. simpl.
      rewrite <- app_assoc. apply HQ;
        [exact (same_agent_trans _ _ _ Hm1 Hm2)|now constructor|].
      destruct o; [now apply complete_cons|now apply cut_cons].
Qed.

Lemma steps_loop_wp session todo (fr : Results) Q :
  (forall m' new,
     same_agent (fst fr) m' -> Forall valid new ->
     complete todo new \/ cut todo new ->
     Q (Return tt) (m', snd fr ++ new)) ->
  wp (steps_loop H session todo) fr Q.
Proof.
  revert fr Q. induction todo as [|stp rest IH]; intros [m rs] Q HQ; simpl.
  - wp_step. rewrite <- (app_nil_r rs). apply (HQ m []);
      [apply same_agent_refl|constructor|left; split; [reflexivity|constructor]].
  - wp_step. apply run_and_record_wp. intros r m1 Hr Hv Hm1. cbn beta iota.
    destruct (stops r stp) eqn:Hs.
    + wp_step. apply log_wp. intros m2 Hs2 _. simpl in *.
      apply (HQ m2 [r]);
        [apply (same_agent_trans _ _ _ Hm1); split; congruence
        |now apply Forall_singleton|right; now apply cut_here].
    + apply IH. intros m2 new Hm2 Hvs Hsh. simpl.
      rewrite <- app_assoc. apply HQ;
        [exact (same_agent_trans _ _ _ Hm1 Hm2)|now constructor|].
      destruct Hsh; [left; now apply complete_cons|right; now apply cut_cons].
Qed.

Lemma teardown_loop_wp session todo (fr : Results) Q :
  (forall m' new,
     same_agent (fst fr) m' -> Forall valid new -> map step new = todo ->
     Q (Return tt) (m', snd fr ++ new)) ->
  wp (teardown_loop H session todo) fr Q.
Proof.
  revert fr Q. induction todo as [|stp rest IH]; intros [m rs] Q HQ; simpl.
  - wp_step. rewrite <- (app_nil_r rs). apply (HQ m []);
      [apply same_agent_refl|constructor|reflexivity].
  - wp_step. apply run_and_record_wp. intros r m1 Hr Hv Hm1. cbn beta iota.
    apply IH. intros m2 new Hm2 Hvs Hmap. simpl.
    rewrite <- app_assoc. apply HQ;
      [exact (same_agent_trans _ _ _ Hm1 Hm2)|now constructor|].
    simpl. now rewrite Hr, Hmap.
Qed.


Lemma scenario_body_wp session sc (m : Machine Env) Q :
  (forall m' rs, same_agent m m' -> shape sc rs -> Q (Return tt) (m', rs)) ->
  wp (try_except (scenario_try H session sc) (scenario_except H)) (m, []) Q.
Proof.
  intros HQ. unfold scenario_try, scenario_except.
  wp_step. wp_step.
  (* setup *)
  apply wp_use with
    (P := fun (o : Outcome unit) (fr' : Results) =>
            same_agent m (fst fr') /\ Forall valid (snd fr') /\
            match o with
            | Return _ => complete (setup_steps sc) (snd fr')
            | Raise _ => cut (setup_steps sc) (snd fr')
            end).
  { destruct (setup_steps sc) as [|s0 ss]; cbn [nonempty].
    - wp_step. repeat split; constructor.
    - wp_step. wp_step. apply log_wp; intros m0 Hs0 _. cbn beta iota.
      apply setup_loop_wp. intros o m1 new Hm1 Hv Hsh. simpl in *.
      split; [|split; assumption].
      apply same_agent_trans with m0; [split; congruence|exact Hm1]. }
  intros [[]|e] [m1 rs_s] (Hm1 & Hv1 & Hsh1) _; simpl in Hm1, Hv1, Hsh1;
    cbn beta iota.
  2:{ (* a critical setup step did not pass: the handler logs *)
      wp_step. apply log_wp; intros m2 Hs2 _. simpl in *.
      apply HQ; [apply same_agent_trans with m1; [exact Hm1|split; congruence]|].
      split; [exact Hv1|now left]. }
  (* main steps *)
  wp_step. wp_step. apply log_wp; intros m2 Hs2 _. cbn beta iota.
  wp_step. apply steps_loop_wp. intros m3 rs_m Hm3 Hv3 Hsh3. simpl in *.
  (* teardown *)
  apply wp_use with
    (P := fun (o : Outcome unit) (fr' : Results) =>
            o = Return tt /\ same_agent m3 (fst fr') /\
            exists rs_t, snd fr' = (rs_s ++ rs_m) ++ rs_t /\ Forall valid rs_t /\
                         map step rs_t = teardown_steps sc).
  { destruct (teardown_steps sc) as [|t0 ts]; cbn [nonempty].
    - wp_step. split; [reflexivity|]. split; [apply same_agent_refl|].
      exists []. rewrite app_nil_r. repeat split; constructor.
    - wp_step. wp_step. apply log_wp; intros m4 Hs4 _. cbn beta iota.
      apply teardown_loop_wp. intros m5 rs_t Hm5 Hv5 Hmap. simpl in *.
      split; [reflexivity|]. split.
      + apply same_agent_trans with m4; [split; congruence|exact Hm5].
      + exists rs_t. auto. }
  intros o [m5 rs] (-> & Hm5 & rs_t & Hrs & Hv5 & Hmap) _. simpl in *.
  subst rs. apply HQ.
  - apply same_agent_trans with m1; [exact Hm1|].
    apply same_agent_trans with m2; [split; congruence|].
    apply same_agent_trans with m3; assumption.
  - split; [repeat (apply Forall_app; split); assumption|].
    right. exists rs_s, rs_m, rs_t. rewrite app_assoc. auto.
Qed.

Lemma with_session_wp {L A} (body : Sess -> M (Machine Env * L) A)
    (fr : Machine Env * L) Q :
  (forall e w',
     session_enter H (config (self (fst fr))) (world (fst fr)) = (Raise e, w') ->
     Q (Raise e) (set_world w' (fst fr), snd fr)) ->
  (forall s w',
     session_enter H (config (self (fst fr))) (world (fst fr)) = (Return s, w') ->
     wp (body s) (set_world w' (fst fr), snd fr)
        (fun o fr' =>
           Q o (set_world (session_exit H s (world (fst fr'))) (fst fr'),
                snd fr'))) ->
  wp (with_session H body) fr Q.
Proof.
  intros Hfail Hok. unfold with_session, wp, bind, lift.
  destruct (session_enter H _ _) as [[s|e] w'] eqn:E; simpl.
  - specialize (Hok s w' eq_refl). unfold wp in Hok.
    now destruct (body s _).
  - now apply Hfail.
Qed.

Lemma scenario_prologue_wp sc (m : Machine Env) Q :
  (forall t, self (scenario_entry H sc m) = self m ->
             calls (scenario_entry H sc m) = calls m ->
             Q (Return t) (scenario_entry H sc m)) ->
  wp (scenario_prologue H sc) m Q.
Proof.
  intros HQ.
  assert (Hp : wp (scenario_prologue H sc) m
                 (fun o m' => (exists t, o = Return t) /\
                              self m' = self m /\ calls m' = calls m)).
  { unfold scenario_prologue. wp_walk. simpl. split; [eauto|].
    split; congruence. }
  apply wp_use with (1 := Hp). intros o m' ([t ->] & Hs & Hc) E.
  unfold scenario_entry in HQ. rewrite E in HQ. now apply HQ.
Qed.

Lemma scenario_entry_same sc (m : Machine Env) :
  self (scenario_entry H sc m) = self m /\
  calls (scenario_entry H sc m) = calls m.
Proof.
  pose proof (scenario_prologue_wp sc m
                (fun _ m1 => self m1 = self m /\ calls m1 = calls m)) as Hp.
  unfold wp in Hp. apply Hp. intros; split; assumption.
Qed.

Lemma run_scenario_wp sc (m : Machine Env) :
  wp (run_scenario H sc) m (scenario_post H sc m).
Proof.
  unfold run_scenario. wp_step.
  apply scenario_prologue_wp. intros t0 Hs0 Hc0. cbn beta iota.
  wp_step. wp_step. apply with_session_wp; cbn [fst snd]; rewrite Hs0.
  - intros e w' E. simpl. exists w'. auto.
  - intros s w' E. apply scenario_body_wp. intros m1 rs Hm1 Hsh.
    cbn beta iota. cbn [fst snd].
    wp_walk. simpl in *.
    unfold same_agent in Hm1; simpl in Hm1; destruct Hm1 as [Hc1 Ht1].
    match goal with
    | Hx : self _ = mkAgent _ _ _ |- _ =>
        pose proof (f_equal test_results Hx) as Htr;
        pose proof (f_equal config Hx) as Hcf; clear Hx; simpl in Htr, Hcf
    end.
    split; [reflexivity|]. split; [exact Hsh|]. split; [reflexivity|].
    split; [congruence|]. split; [congruence|eauto].
Qed.

End ScenarioFacts.

(* ===================================================================== *)
(** ** Session calls *)
(* ===================================================================== *)

Section CallFacts.
Import Scenarios Eff Agent Spec.
Context {Env Sess : Type} (H : Host Env Sess).

Lemma normalize_from (parts : list RawContent) (acc : Response) :
  fold_left absorb parts acc =
  {| success := success acc && negb (existsb offending parts);
     content := content acc ++ collect parts;
     error := match last_offending parts with
              | Some t => Some t
              | None => error acc
              end |}.
Proof.
  revert acc. induction parts as [|c parts IH]; intros acc; simpl.
  - rewrite andb_true_r, app_nil_r. now destruct acc.
  - rewrite IH. unfold absorb, collect, last_offending, offending. simpl.
    destruct (c_text c) as [t|]; simpl.
    + destruct (PyStr.str_in "Error:" t); simpl.
      * rewrite last_cons, <- app_assoc, andb_false_r. simpl.
        now destruct (last _).
      * rewrite <- app_assoc. reflexivity.
    + destruct (c_data c); simpl; [rewrite <- app_assoc|]; reflexivity.
Qed.

Lemma normalize_spec (parts : list RawContent) :
  normalize parts =
  {| success := negb (existsb offending parts);
     content := collect parts;
     error := last_offending parts |}.
Proof.
  unfold normalize. rewrite normalize_from. simpl.
  now destruct (last_offending parts).
Qed.

(** C8 (response classification): when the transport returns, the response is failed
    exactly when some returned text contains "Error:", its error is the
    last such text, and its content is every returned text and image
    part in order, whatever the transport's own error flag says; when the
    transport raises, the call raises the same exception and no response
    is produced. *)
Theorem C8_response_failed_iff_error_marker session nm args (m : Machine Env) :
  (forall res w,
     call_tool H session nm args (world m) = (Return res, w) ->
     exists resp m',
       _call_tool_in_session H session nm args m = (Return resp, m') /\
       (success resp = false <->
        exists c, c ∈ cr_content res /\ offending c = true) /\
       content resp = collect (cr_content res) /\
       error resp = last_offending (cr_content res)) /\
  (forall e w,
     call_tool H session nm args (world m) = (Raise e, w) ->
     exists m', _call_tool_in_session H session nm args m = (Raise e, m')).
Proof.
  unfold _call_tool_in_session, bind, session_call_tool, ret. split.
  - intros res w ->. eexists _, _. split; [reflexivity|].
    rewrite normalize_spec. simpl. split; [|split; reflexivity].
    rewrite negb_false_iff, existsb_exists.
    split; intros (c & Hin & Hc); exists c; split; try assumption;
      now apply list_elem_of_In.
  - intros e w ->. eexists. reflexivity.
Qed.

End CallFacts.

(* ===================================================================== *)
(** ** Properties of the step executor *)
(* ===================================================================== *)

Section StepClaims.
Import Scenarios Eff Agent Spec.
Context {Env Sess : Type} (H : Host Env Sess).

Lemma selector_with_capital_never_matches (selector html : string) :
  PyStr.startswith selector "#" = false ->
  PyStr.startswith selector "." = false ->
  PyStr.any_char PyStr.is_ascii_upper selector = true ->
  _selector_matches_html selector html = false.
Proof.
  intros Hid Hcls Hup. unfold _selector_matches_html. rewrite Hid, Hcls.
  destruct (PyStr.str_in _ (PyStr.lower html)) eqn:Hin; [|reflexivity].
  apply str_in_any_char with (p := PyStr.is_ascii_upper) in Hin.
  - now rewrite lower_no_ascii_upper in Hin.
  - simpl. exact Hup.
Qed.

Lemma dispatch_assert_element session stp (fr fr' : Frame) ar :
  action stp = "assert_element" ->
  (forall html, _selector_matches_html (target stp) html = false) ->
  dispatch H session stp fr = (Return ar, fr') ->
  success ar = false.
Proof.
  intros Hact Hsel Hd.
  assert (Hwp : wp (dispatch H session stp) fr
                  (fun o _ => forall a, o = Return a -> success a = false)).
  { unfold dispatch, is_action. rewrite Hact. cbn [String.eqb Ascii.eqb Bool.eqb].
    destruct fr as [m r]. wp_walk; intros ? [= <-]; simpl; auto. }
  exact (wp_elim _ _ _ _ _ Hwp Hd ar eq_refl).
Qed.


(** C10: a selector that starts with neither '#' nor '.' and contains an
    ASCII capital is found in no document, because it is looked for in
    the lower-cased document; an assert_element step with such a target
    therefore never passes. *)
Theorem C10_capital_selector_never_matches (selector : string) :
  PyStr.startswith selector "#" = false ->
  PyStr.startswith selector "." = false ->
  PyStr.any_char PyStr.is_ascii_upper selector = true ->
  (forall html, _selector_matches_html selector html = false) /\
  (forall session stp (m : Machine Env) r m',
     action stp = "assert_element" -> target stp = selector ->
     run_step_in_session H session stp m = (Return r, m') ->
     status r = "failed" \/ status r = "error").
Proof.
  intros Hid Hcls Hup.
  assert (Hsel : forall html, _selector_matches_html selector html = false)
    by (intros; now apply selector_with_capital_never_matches).
  split; [exact Hsel|].
  intros session stp m r m' Hact Htgt Hrun.
  assert (Hwp := run_step_wp H session stp m
                   (fun o _ => forall x, o = Return x -> step_outcome H session stp x)).
  specialize (Hwp ltac:(intros ? ? ? ? ? [= <-]; assumption)).
  destruct (wp_elim _ _ _ _ _ Hwp Hrun r eq_refl)
    as (_ & [He|(ar & f0 & f1 & Hd & Hs & _)]); [now right|left].
  rewrite Hs, (dispatch_assert_element session stp f0 f1 ar Hact); auto.
  now rewrite Htgt.
Qed.

(** C6: [run_step_in_session] always returns a result for its step.  The
    result carries the start time read before the [try]; its end time is
    the clock reading taken when the [try] statement, handler included,
    has ended, and its duration is the difference of the two.  When the
    body of the [try] raises, the status is "error" and the message is
    the exception's; when it does not, the status is "passed" or
    "failed". *)
Theorem C6_step_exceptions_are_caught session stp (m : Machine Env) :
  exists r m',
    run_step_in_session H session stp m = (Return r, m') /\
    step r = stp /\
    start_time r = Some (fst (clock H (world m))) /\
    end_time r
    = Some (fst (clock H (world (fst (try_exit H session stp m))))) /\
    duration r
    = fst (clock H (world (fst (try_exit H session stp m))))
      - fst (clock H (world m)) /\
    (forall e fr,
       step_try H session stp (try_entry H stp m) = (Raise e, fr) ->
       status r = "error" /\ message r = e) /\
    (forall u fr,
       step_try H session stp (try_entry H stp m) = (Return u, fr) ->
       status r = "passed" \/ status r = "failed").
Proof.
  cut (wp (run_step_in_session H session stp) m
         (fun o m' => exists r,
            o = Return r /\ step r = stp /\
            start_time r = Some (fst (clock H (world m))) /\
            end_time r
            = Some (fst (clock H (world (fst (try_exit H session stp m))))) /\
            duration r
            = fst (clock H (world (fst (try_exit H session stp m))))
              - fst (clock H (world m)) /\
            (forall e fr,
               step_try H session stp (try_entry H stp m) = (Raise e, fr) ->
               status r = "error" /\ message r = e) /\
            (forall u fr,
               step_try H session stp (try_entry H stp m) = (Return u, fr) ->
               status r = "passed" \/ status r = "failed"))).
  { unfold wp. destruct (run_step_in_session H session stp m) as [o m'].
    simpl. intros (r & -> & Hrest). now exists r, m'. }
  unfold run_step_in_session, try_exit, try_entry.
  wp_step. apply now_wp; intros t0 w0 E. rewrite E. cbn [fst snd]. cbn beta iota.
  wp_step. wp_step.
  apply wp_use with
    (P := fun (o : Outcome unit) (fr : Frame) =>
            o = Return tt /\
            same_identity (initial_result stp t0) (snd fr) /\
            (forall e fr',
               step_try H session stp (set_world w0 m, initial_result stp t0)
               = (Raise e, fr') ->
               status (snd fr) = "error" /\ message (snd fr) = e) /\
            (forall u fr',
               step_try H session stp (set_world w0 m, initial_result stp t0)
               = (Return u, fr') ->
               status (snd fr) = "passed" \/ status (snd fr) = "failed")).
  { wp_step.
    apply wp_use with
      (P := fun (o : Outcome unit) (fr' : Frame) =>
              same_identity (initial_result stp t0) (snd fr') /\
              (forall u, o = Return u -> classified H session stp (snd fr')));
      [apply step_try_wp; intros o m1 r1 _ Hid Hcl; split; assumption|].
    intros [u|e] [m1 r1] [[Hstep Hstart] Hcl] Etry; cbn beta iota;
      simpl in Hstep, Hstart, Hcl; rewrite Etry.
    - destruct u. cbn [snd]. split; [reflexivity|]. split; [now split|].
      split; [intros ? ? [=]|]. intros _ _ _.
      destruct (Hcl tt eq_refl) as (ar & _ & _ & _ & -> & _).
      destruct (success ar); auto.
    - unfold step_except. wp_walk. cbn [snd]. split; [reflexivity|].
      split; [now split|]. split; [|intros ? ? [=]].
      intros ? ? [= <-]. split; reflexivity. }
  intros o [m2 r2] (-> & [Hstep Hstart] & Herr & Hok) Etx.
  rewrite Etx. cbn [fst snd] in *. cbn beta iota.
  wp_step. wp_step. apply now_wp; intros t1 w1 E1.
  cbn [fst snd] in E1. rewrite E1. cbn [fst snd]. cbn beta iota.
  wp_walk. simpl. eexists. split; [reflexivity|]. simpl.
  split; [exact Hstep|]. split; [exact Hstart|].
  split; [reflexivity|]. split; [reflexivity|]. split; assumption.
Qed.

Lemma log_returns msg lvl (m : Machine Env) :
  log H msg lvl m = (Return tt, snd (log H msg lvl m)).
Proof.
  unfold log, bind, now, print_line, modify.
  destruct (verbose _); [destruct (clock H (world m))|]; reflexivity.
Qed.

Lemma save_first_image_eq parts nm (m : Machine Env) (r : StepResult) :
  save_first_image H parts nm (m, r)
  = match first_image parts with
    | None => (Return tt, (m, r))
    | Some d =>
        match _save_screenshot H d nm m with
        | (Return path, m3) =>
            (Return tt,
             (snd (log H ("Screenshot saved: " +:+ path) "INFO" m3),
              set_screenshot path r))
        | (Raise e, m3) => (Raise e, (m3, r))
        end
    end.
Proof.
  induction parts as [|[t|d mime] rest IH]; simpl; [reflexivity|exact IH|].
  unfold bind, lift, set_local. cbn [fst snd].
  destruct (_save_screenshot H d nm m) as [[path|e] m3]; [|reflexivity].
  rewrite log_returns. reflexivity.
Qed.

Lemma failure_capture_eq session stp (m : Machine Env) (r : StepResult) :
  failure_capture H session stp (m, r)
  = match _call_tool_in_session H session "browser_screenshot" ∅ m with
    | (Return shot, m2) =>
        if success shot
        then save_first_image H (content shot) ("failure_" +:+ name stp)
               (m2, r)
        else (Return tt, (m2, r))
    | (Raise e, m2) => (Raise e, (m2, r))
    end.
Proof.
  unfold failure_capture, bind, lift. cbn [fst snd].
  destruct (_call_tool_in_session H session "browser_screenshot" ∅ m)
    as [[shot|e] m2]; [|reflexivity].
  now destruct (success shot).
Qed.

(** A failed step that asks for a screenshot, by the way the block under
    "Take screenshot on failure" ends. *)
Lemma step_with_failure_capture session stp (m : Machine Env) ar fr1 :
  dispatch H session stp (dispatch_entry H stp m) = (Return ar, fr1) ->
  success ar = false ->
  screenshot_on_failure stp = true ->
  exists r m',
    run_step_in_session H session stp m = (Return r, m') /\
    calls m' = calls (fst fr1) ++ [("browser_screenshot", ∅)] /\
    match failure_capture H session stp
            (fst fr1,
             set_status "failed" (default EmptyString (error ar)) (snd fr1)) with
    | (Return _, fr2) =>
        status r = "failed" /\ message r = default EmptyString (error ar) /\
        screenshot r = screenshot (snd fr2)
    | (Raise e, _) => status r = "error" /\ message r = e
    end.
Proof.
  intros Hd Hfail Hsof.
  cut (wp (run_step_in_session H session stp) m
         (fun o m' => exists r,
            o = Return r /\
            calls m' = calls (fst fr1) ++ [("browser_screenshot", ∅)] /\
            match failure_capture H session stp
                    (fst fr1,
                     set_status "failed" (default EmptyString (error ar))
                       (snd fr1)) with
            | (Return _, fr2) =>
                status r = "failed" /\
                message r = default EmptyString (error ar) /\
                screenshot r = screenshot (snd fr2)
            | (Raise e, _) => status r = "error" /\ message r = e
            end)).
  { unfold wp. destruct (run_step_in_session H session stp m) as [o m'].
    simpl. intros (r & -> & Hrest). now exists r, m'. }
  unfold dispatch_entry, try_entry in Hd.
  unfold run_step_in_session, step_except, step_try, classify.
  wp_step. apply now_wp; intros t0 w0 E. rewrite E in Hd. cbn [fst snd] in Hd.
  cbn beta iota. wp_step. wp_step. wp_step. wp_step. wp_step.
  apply wp_use with (P := fun (o : Outcome unit) _ => o = Return tt);
    [apply log_wp; auto|].
  intros o m0 -> Elog. cbn [fst snd] in Elog. rewrite Elog in Hd.
  cbn [fst snd] in Hd. cbn beta iota.
  wp_step. apply wp_use with (P := fun _ _ => True); [exact I|].
  intros o fr _ Ed. cbn [fst snd] in Ed. rewrite Hd in Ed. injection Ed as <- <-. cbn beta iota.
  wp_step. wp_step. cbn beta iota. wp_step. wp_step. cbn beta iota.
  rewrite Hfail, Hsof. destruct fr1 as [m1 r1]. simpl.
  apply wp_use with
    (P := fun (o : Outcome unit) (fr' : Frame) =>
            calls (fst fr') = calls m1 ++ [("browser_screenshot", ∅)] /\
            same_but_screenshot
              (set_status "failed" (default EmptyString (error ar)) r1) (snd fr'));
    [apply failure_capture_wp; intros o m2 r2 _ Hc Hr; split; assumption|].
  intros [u|e] [m2 r2] [Hc (_ & Hs & Hmsg & _)] Efc; rewrite Efc;
    cbn [fst snd] in *; cbn beta iota.
  - wp_walk. simpl in *. eexists. split; [reflexivity|]. simpl.
    split; [congruence|]. split; [assumption|]. split; [assumption|reflexivity].
  - wp_walk. simpl in *. eexists. split; [reflexivity|]. simpl.
    split; [congruence|]. split; reflexivity.
Qed.

Lemma step_try_failed session stp (m : Machine Env) ar fr1 :
  dispatch H session stp (dispatch_entry H stp m) = (Return ar, fr1) ->
  success ar = false ->
  screenshot_on_failure stp = true ->
  step_try H session stp (try_entry H stp m)
  = failure_capture H session stp
      (fst fr1, set_status "failed" (default EmptyString (error ar)) (snd fr1)).
Proof.
  intros Hd Hfail Hsof. unfold dispatch_entry in Hd.
  unfold step_try, classify, bind, lift, local, set_local.
  rewrite log_returns. cbn [fst snd]. rewrite Hd. cbn [fst snd].
  rewrite Hfail, Hsof. reflexivity.
Qed.

(** Where the [try] statement ends when the failure screenshot is
    attempted. *)
Lemma try_exit_capture session stp (m : Machine Env) ar fr1 :
  dispatch H session stp (dispatch_entry H stp m) = (Return ar, fr1) ->
  success ar = false ->
  screenshot_on_failure stp = true ->
  fst (try_exit H session stp m)
  = match failure_capture H session stp
            (fst fr1,
             set_status "failed" (default EmptyString (error ar)) (snd fr1)) with
    | (Return _, fr2) => fst fr2
    | (Raise e, fr2) => snd (log H ("Step error: " +:+ e) "ERROR" (fst fr2))
    end.
Proof.
  intros Hd Hfail Hsof. unfold try_exit, try_except.
  rewrite (step_try_failed session stp m ar fr1 Hd Hfail Hsof).
  destruct (failure_capture H session stp _) as [[u|e] fr2]; [reflexivity|].
  unfold step_except, bind, set_local, lift. cbn [fst snd].
  rewrite log_returns. reflexivity.
Qed.

(** C5 (failure screenshot): when the dispatch of a step returns a
    failing result and the step asks for a screenshot on failure,
    exactly one more request, a browser_screenshot, is sent after those
    of the dispatch.  If the answer is a success that carries an image,
    the first image is saved by [_save_screenshot] under the name
    "failure_<step name>", the path it returns is stored in the
    result's [screenshot] and the line "Screenshot saved: <path>" is
    logged; otherwise nothing is saved and [screenshot] is left as it
    was.  In both cases the step keeps the status "failed" and the
    message of the failing result.  If the request or the saving
    raises, the step ends with status "error" and the exception's
    message, after the line "Step error: <message>".  In every case the
    [try] statement ends in the state that the request, the saving and
    the logging left. *)
Theorem C5_failure_screenshot session stp (m : Machine Env) ar fr1 :
  dispatch H session stp (dispatch_entry H stp m) = (Return ar, fr1) ->
  success ar = false ->
  screenshot_on_failure stp = true ->
  exists r m',
    run_step_in_session H session stp m = (Return r, m') /\
    calls m' = calls (fst fr1) ++ [("browser_screenshot", ∅)] /\
    match _call_tool_in_session H session "browser_screenshot" ∅ (fst fr1) with
    | (Raise e, m2) =>
        status r = "error" /\ message r = e /\
        fst (try_exit H session stp m)
        = snd (log H ("Step error: " +:+ e) "ERROR" m2)
    | (Return shot, m2) =>
        match (if success shot then first_image (content shot) else None) with
        | None =>
            status r = "failed" /\
            message r = default EmptyString (error ar) /\
            screenshot r = screenshot (snd fr1) /\
            fst (try_exit H session stp m) = m2
        | Some d =>
            match _save_screenshot H d ("failure_" +:+ name stp) m2 with
            | (Return path, m3) =>
                status r = "failed" /\
                message r = default EmptyString (error ar) /\
                screenshot r = path /\
                fst (try_exit H session stp m)
                = snd (log H ("Screenshot saved: " +:+ path) "INFO" m3)
            | (Raise e, m3) =>
                status r = "error" /\ message r = e /\
                fst (try_exit H session stp m)
                = snd (log H ("Step error: " +:+ e) "ERROR" m3)
            end
        end
    end.
Proof.
  intros Hd Hfail Hsof.
  destruct (step_with_failure_capture session stp m ar fr1 Hd Hfail Hsof)
    as (r & m' & Hrun & Hcalls & Hcase).
  pose proof (try_exit_capture session stp m ar fr1 Hd Hfail Hsof) as Hexit.
  exists r, m'. split; [exact Hrun|]. split; [exact Hcalls|].
  rewrite failure_capture_eq in Hcase, Hexit.
  destruct (_call_tool_in_session H session "browser_screenshot" ∅ (fst fr1))
    as [[shot|e] m2]; [|now destruct Hcase].
  destruct (success shot); [|now destruct Hcase as (? & ? & ?)].
  rewrite save_first_image_eq in Hcase, Hexit.
  destruct (first_image (content shot)) as [d|];
    [|now destruct Hcase as (? & ? & ?)].
  destruct (_save_screenshot H d ("failure_" +:+ name stp) m2)
    as [[path|e] m3].
  - now destruct Hcase as (? & ? & ?).
  - now destruct Hcase.
Qed.

End StepClaims.

(* ===================================================================== *)
(** ** Properties of the scenario and suite runners *)
(* ===================================================================== *)

Section RunnerClaims.
Import Scenarios Eff Agent Spec.
Context {Env Sess : Type} (H : Host Env Sess).

Lemma bind_return {S A B} (c : M S A) (k : A -> M S B) s a s' :
  c s = (Return a, s') -> bind c k s = k a s'.
Proof. unfold bind. now intros ->. Qed.

Lemma bind_raise {S A B} (c : M S A) (k : A -> M S B) s e s' :
  c s = (Raise e, s') -> bind c k s = (Raise e, s').
Proof. unfold bind. now intros ->. Qed.

Lemma run_scenario_post sc (m : Machine Env) o m' :
  run_scenario H sc m = (o, m') -> scenario_post H sc m o m'.
Proof. apply wp_elim, run_scenario_wp. Qed.

Lemma suite_loop_app (pre post : list TestScenario)
    (fr : Machine Env * list TestResult) :
  suite_loop H (pre ++ post) fr
  = bind (suite_loop H pre) (fun _ => suite_loop H post) fr.
Proof.
  revert fr. induction pre as [|sc pre IH]; intros fr; simpl; [reflexivity|].
  unfold bind.
  destruct (lift (run_scenario H sc) fr) as [[tr|e] fr1]; [|reflexivity].
  unfold set_local. rewrite IH. reflexivity.
Qed.

Lemma suite_prologue_returns suite (m : Machine Env) :
  suite_prologue H suite m = (Return tt, suite_entry H suite m).
Proof.
  assert (Hp : wp (suite_prologue H suite) m (fun o _ => o = Return tt))
    by (unfold suite_prologue; wp_walk; reflexivity).
  unfold wp in Hp. unfold suite_entry.
  destruct (suite_prologue H suite m) as [o m']. simpl in *. now subst.
Qed.

(** C1 (session failure): a failure to open or initialize the channel at the
    start of a scenario run is not caught.  [run_scenario] raises the
    same exception, having recorded no result and sent no request;
    [run_suite] raises it in turn from the state in which the scenario
    failed, so it returns no result list and runs neither the remaining
    scenarios nor the report. *)
Theorem C1_session_failure_propagates :
  (forall sc (m : Machine Env) e w',
     session_enter H (config (self m)) (world (scenario_entry H sc m))
     = (Raise e, w') ->
     exists m',
       run_scenario H sc m = (Raise e, m') /\
       test_results (self m') = test_results (self m) /\
       calls m' = calls m) /\
  (forall suite pre sc post (m : Machine Env) fr e m',
     scenarios suite = pre ++ sc :: post ->
     suite_loop H pre (suite_entry H suite m, []) = (Return tt, fr) ->
     run_scenario H sc (fst fr) = (Raise e, m') ->
     run_suite H suite m = (Raise e, m')).
Proof.
  split.
  - intros sc m e w' E.
    destruct (run_scenario H sc m) as [o m'] eqn:Hrun.
    pose proof (run_scenario_post _ _ _ _ Hrun) as Hpost.
    destruct o as [tr|e']; simpl in Hpost.
    + destruct Hpost as (_ & _ & _ & _ & _ & s & w2 & E2). congruence.
    + destruct Hpost as (w2 & E2 & ->). rewrite E in E2. injection E2 as <- <-.
      exists (set_world w' (scenario_entry H sc m)). split; [reflexivity|].
      simpl. destruct (scenario_entry_same H sc m) as [-> ->]. auto.
  - intros suite pre sc post m fr e m' Hsuite Hpre Hrun.
    unfold run_suite.
    rewrite (bind_return _ _ _ _ _ (suite_prologue_returns suite m)).
    unfold with_local.
    rewrite (bind_raise _ _ _ e (m', snd fr)); [reflexivity|].
    rewrite Hsuite, suite_loop_app.
    rewrite (bind_return _ _ _ _ _ Hpre). simpl.
    apply bind_raise. unfold lift. now rewrite Hrun.
Qed.

Lemma nonempty_filter {A} (p : A -> bool) (l : list A) :
  nonempty (List.filter p l) = existsb p l.
Proof.
  induction l as [|x l IH]; simpl; [reflexivity|].
  destruct (p x); simpl; [reflexivity|exact IH].
Qed.

Lemma scenario_status_aggregate (rs : list StepResult) :
  scenario_status rs = aggregate rs.
Proof.
  unfold scenario_status, aggregate, with_status.
  now rewrite !nonempty_filter.
Qed.

(** The four aggregations listed by the specification. *)
Lemma scenario_status_examples (st : TestStep) (t : Z) :
  scenario_status (map (fun s => set_status s EmptyString (initial_result st t))
                       ["passed"; "passed"]) = "passed" /\
  scenario_status (map (fun s => set_status s EmptyString (initial_result st t))
                       ["passed"; "failed"]) = "failed" /\
  scenario_status (map (fun s => set_status s EmptyString (initial_result st t))
                       ["passed"; "error"]) = "error" /\
  scenario_status (map (fun s => set_status s EmptyString (initial_result st t))
                       ["failed"; "error"]) = "error".
Proof. repeat split. Qed.

(** C4: the status of a scenario result is the aggregate of its step
    results, setup, main and teardown alike: "error" if any of them is an
    error, else "failed" if any of them failed, else "passed"; and every
    run whose session opens produces such a result. *)
Theorem C4_status_aggregation sc (m : Machine Env) :
  (forall s w',
     session_enter H (config (self m)) (world (scenario_entry H sc m))
     = (Return s, w') ->
     exists tr m', run_scenario H sc m = (Return tr, m')) /\
  (forall tr m',
     run_scenario H sc m = (Return tr, m') ->
     tr_status tr = aggregate (step_results tr) /\
     shape sc (step_results tr)).
Proof.
  split.
  - intros s w' E. destruct (run_scenario H sc m) as [[tr|e] m'] eqn:Hrun.
    + eauto.
    + destruct (run_scenario_post _ _ _ _ Hrun) as (w2 & E2 & _). congruence.
  - intros tr m' Hrun.
    destruct (run_scenario_post _ _ _ _ Hrun) as (_ & Hsh & Hst & _).
    now rewrite Hst, scenario_status_aggregate.
Qed.


Lemma stopping_intro r s :
  step r = s -> critical s = true -> status r <> "passed" -> stopping r.
Proof.
  intros <- Hc Hs. unfold stopping, stops. rewrite Hc, andb_true_r.
  apply negb_true_iff, String.eqb_neq, Hs.
Qed.

Lemma stopping_not_nonstop r : stopping r -> nonstop r -> False.
Proof. unfold stopping, nonstop. congruence. Qed.

Lemma step_at d r e (k pre : list TestStep) s post :
  map step (d ++ r :: e) ++ k = pre ++ s :: post ->
  length d = length pre ->
  map step d = pre /\ step r = s.
Proof.
  intros Heq Hlen. rewrite map_app, <- app_assoc in Heq. simpl in Heq.
  apply app_inj_1 in Heq as [Hd Hr]; [|now rewrite length_map].
  split; [exact Hd|congruence].
Qed.

Lemma stop_is_last (p : list StepResult) l a r b :
  Forall nonstop p -> p ++ [l] = a ++ r :: b -> stopping r -> b = [].
Proof.
  intros Hns Heq Hstop. destruct b as [|x b _] using rev_ind; [reflexivity|].
  exfalso. rewrite app_comm_cons, app_assoc in Heq.
  apply app_inj_tail in Heq as [-> _].
  apply Forall_app in Hns as [_ Hns]. apply Forall_cons in Hns as [Hr _].
  exact (stopping_not_nonstop r Hstop Hr).
Qed.

Lemma aggregate_not_passed (rs : list StepResult) r :
  In r rs -> status r = "failed" \/ status r = "error" ->
  aggregate rs = "failed" \/ aggregate rs = "error".
Proof.
  intros Hin Hst. unfold aggregate.
  destruct (existsb _ rs) eqn:He; [now right|]. left.
  destruct Hst as [Hf|Herr].
  - replace (existsb _ rs) with true; [reflexivity|].
    symmetry. apply existsb_exists. exists r. now rewrite Hf.
  - exfalso. apply not_true_iff_false in He. apply He.
    apply existsb_exists. exists r. now rewrite Herr.
Qed.

(** C2 (critical setup failure): when the result of a critical setup step is not
    "passed", it is the last step result of the scenario: no later setup
    step, no main step and no teardown step is run.  The scenario status
    is the ordinary aggregate of the results gathered so far, hence
    "error" if one of them is an error and "failed" otherwise. *)
Theorem C2_critical_setup_failure_aborts sc (m : Machine Env) tr m'
    pre s post rs_pre r rest :
  run_scenario H sc m = (Return tr, m') ->
  setup_steps sc = pre ++ s :: post ->
  step_results tr = rs_pre ++ r :: rest ->
  length rs_pre = length pre ->
  critical s = true ->
  status r <> "passed" ->
  step r = s /\ rest = [] /\
  tr_status tr = aggregate (step_results tr) /\
  (tr_status tr = "failed" \/ tr_status tr = "error").
Proof.
  intros Hrun Hsetup Hrs Hlen Hcrit Hst.
  destruct (run_scenario_post _ _ _ _ Hrun)
    as (_ & [Hvalid Hshape] & Hstatus & _).
  assert (Hagg : tr_status tr = aggregate (step_results tr))
    by now rewrite Hstatus, scenario_status_aggregate.
  assert (Hfe : tr_status tr = "failed" \/ tr_status tr = "error").
  { rewrite Hagg. apply aggregate_not_passed with r.
    - rewrite Hrs. apply in_or_app. right. now left.
    - rewrite Hrs in Hvalid. apply Forall_app in Hvalid as [_ Hv].
      apply Forall_cons in Hv as [[Hp|Hv] _]; [contradiction|exact Hv]. }
  rewrite Hrs in Hshape.
  destruct Hshape as [(p & l & Hp & [k Hk] & Hns & Hstop)
                     |(rs_s & rs_m & rs_t & Heq & [Hmap Hns] & _ & _)].
  - rewrite Hsetup in Hk. symmetry in Hk.
    destruct (step_at _ _ _ _ _ _ _ Hk Hlen) as [_ Hstep].
    split; [exact Hstep|]. split; [|auto]. symmetry in Hp.
    exact (stop_is_last _ _ _ _ _ Hns Hp (stopping_intro _ _ Hstep Hcrit Hst)).
  - exfalso. rewrite Hsetup in Hmap.
    assert (Hls : length rs_s = (length pre + S (length post))%nat).
    { rewrite <- (length_map step), Hmap, length_app. reflexivity. }
    apply app_eq_inv in Heq as [(k & Hk & _)|(k & Hk & Hk2)].
    + rewrite Hk, length_app in Hlen. lia.
    + destruct k as [|x k].
      * rewrite app_nil_r in Hk. subst rs_s. lia.
      * simpl in Hk2. injection Hk2 as <- _. subst rs_s.
        rewrite <- (app_nil_r (map step _)) in Hmap.
        destruct (step_at _ _ _ _ _ _ _ Hmap Hlen) as [_ Hstep].
        apply Forall_app in Hns as [_ Hns]. apply Forall_cons in Hns as [Hr _].
        exact (stopping_not_nonstop r (stopping_intro _ _ Hstep Hcrit Hst) Hr).
Qed.









End RunnerClaims.

(* ===================================================================== *)
(** ** The properties on the scripted collaborator *)
(* ===================================================================== *)

Section Examples.
Import Scenarios Eff Agent Spec.

(** The suite run stops at the second scenario, whose session cannot be
    opened: the call raises, one result was recorded, and the third
    scenario never requested a session. *)
Lemma C1_counterexample :
  fst (run_suite Sim.host Sim.trio
         (Sim.boot Sim.quiet [] [None; Some "spawn failed"; None]))
  = Raise "spawn failed" /\
  length (test_results (self (snd (run_suite Sim.host Sim.trio
         (Sim.boot Sim.quiet [] [None; Some "spawn failed"; None]))))) = 1%nat /\
  Sim.openings (world (snd (run_suite Sim.host Sim.trio
         (Sim.boot Sim.quiet [] [None; Some "spawn failed"; None])))) = [None].
Proof. vm_compute. repeat split. Qed.

Lemma C1_witness :
  fst (run_suite Sim.host Sim.trio
         (Sim.boot Sim.quiet [] [None; Some "spawn failed"; None]))
  = Raise "spawn failed".
Proof.
  destruct (C1_session_failure_propagates Sim.host) as (_ & Hsuite).
  set (m0 := Sim.boot Sim.quiet [] [None; Some "spawn failed"; None]).
  set (a := Sim.one_scenario [] [Sim.click_step "a" false] []).
  set (b := Sim.one_scenario [] [Sim.click_step "b" false] []).
  set (c := Sim.one_scenario [] [Sim.click_step "c" false] []).
  set (fr := snd (suite_loop Sim.host [a] (suite_entry Sim.host Sim.trio m0, []))).
  rewrite (Hsuite Sim.trio [a] b [c] m0 fr "spawn failed"
             (snd (run_scenario Sim.host b (fst fr)))).
  - reflexivity.
  - reflexivity.
  - vm_compute. reflexivity.
  - vm_compute. reflexivity.
Defined.

(** A critical setup step that fails, without raising, leaves the
    scenario "failed", not "error". *)
Lemma C2_counterexample :
  exists tr m',
    run_scenario Sim.host Sim.checkout
      (Sim.boot Sim.quiet [Sim.text_answer "Error: no such element"] [])
    = (Return tr, m') /\
    map (fun r => (critical (step r), status r)) (step_results tr)
    = [(true, "failed")] /\
    tr_status tr = "failed" /\ tr_status tr <> "error".
Proof.
  eexists _, _. split; [vm_compute; reflexivity|].
  vm_compute. repeat split. discriminate.
Qed.

Lemma C2_witness :
  exists tr m' r,
    run_scenario Sim.host Sim.checkout
      (Sim.boot Sim.quiet [Sim.text_answer "Error: no such element"] [])
    = (Return tr, m') /\
    step_results tr = [r] /\ status r <> "passed" /\
    step r = Sim.click_step "login" true /\
    tr_status tr = aggregate (step_results tr) /\
    (tr_status tr = "failed" \/ tr_status tr = "error").
Proof.
  destruct (run_scenario Sim.host Sim.checkout
              (Sim.boot Sim.quiet [Sim.text_answer "Error: no such element"] []))
    as [[tr|e] m'] eqn:Hrun; [|vm_compute in Hrun; discriminate].
  pose proof Hrun as Hval. vm_compute in Hval. injection Hval as <- <-.
  eexists _, _, _. split; [reflexivity|]. split; [reflexivity|].
  assert (Hst : "failed" <> "passed") by discriminate.
  split; [exact Hst|].
  destruct (C2_critical_setup_failure_aborts Sim.host Sim.checkout _ _ _
              [] (Sim.click_step "login" true) [] [] _ [] Hrun
              eq_refl eq_refl eq_refl eq_refl Hst) as (Hs & _ & Ha & Hfe).
  auto.
Defined.


Lemma C4_witness :
  exists tr m',
    run_scenario Sim.host Sim.checkout
      (Sim.boot Sim.quiet [Sim.text_answer "ok";
                           Sim.text_answer "Error: declined"] [])
    = (Return tr, m') /\
    tr_status tr = aggregate (step_results tr).
Proof.
  destruct (C4_status_aggregation Sim.host Sim.checkout
              (Sim.boot Sim.quiet [Sim.text_answer "ok";
                                   Sim.text_answer "Error: declined"] []))
    as [Hex Hagg].
  destruct (Hex tt (Sim.mkWorld 1 [Sim.text_answer "ok";
                                   Sim.text_answer "Error: declined"] [] true))
    as (tr & m' & Hrun); [vm_compute; reflexivity|].
  exists tr, m'. split; [exact Hrun|]. apply (Hagg tr m' Hrun).
Defined.

(** The failure screenshot raises, and the step that had failed ends as
    an error. *)
Lemma C5_counterexample :
  exists ar fr1 r m',
    dispatch Sim.host tt Sim.probe
      (dispatch_entry Sim.host Sim.probe
         (Sim.boot Sim.quiet [Sim.text_answer "Error: no such element";
                              Raise "Connection closed"] []))
    = (Return ar, fr1) /\
    success ar = false /\
    screenshot_on_failure Sim.probe = true /\
    run_step_in_session Sim.host tt Sim.probe
      (Sim.boot Sim.quiet [Sim.text_answer "Error: no such element";
                           Raise "Connection closed"] [])
    = (Return r, m') /\
    status r = "error" /\ status r <> "failed".
Proof.
  eexists _, _, _, _. split; [vm_compute; reflexivity|].
  split; [reflexivity|]. split; [reflexivity|].
  split; [vm_compute; reflexivity|]. split; [reflexivity|discriminate].
Qed.

Lemma C5_witness :
  exists r m',
    run_step_in_session Sim.host tt Sim.probe
      (Sim.boot Sim.quiet [Sim.text_answer "Error: no such element"] [])
    = (Return r, m') /\
    map fst (calls m') = ["browser_click"; "browser_screenshot"] /\
    status r = "failed".
Proof.
  destruct (dispatch Sim.host tt Sim.probe
              (dispatch_entry Sim.host Sim.probe
                 (Sim.boot Sim.quiet
                    [Sim.text_answer "Error: no such element"] [])))
    as [[ar|e] fr1] eqn:Hd; [|vm_compute in Hd; discriminate].
  pose proof Hd as Hval. vm_compute in Hval. injection Hval as <- <-.
  destruct (C5_failure_screenshot Sim.host tt Sim.probe _ _ _ Hd
              eq_refl eq_refl) as (r & m' & Hrun & Hcalls & Hkeep).
  exists r, m'. split; [exact Hrun|]. split.
  - rewrite Hcalls. reflexivity.
  - vm_compute in Hkeep. apply Hkeep.
Defined.

Lemma C6_witness :
  exists r m',
    run_step_in_session Sim.host tt Sim.probe
      (Sim.boot Sim.quiet [Raise "Connection closed"] [])
    = (Return r, m') /\
    status r = "error" /\ message r = "Connection closed".
Proof.
  destruct (C6_step_exceptions_are_caught Sim.host tt Sim.probe
              (Sim.boot Sim.quiet [Raise "Connection closed"] []))
    as (r & m' & Hrun & _ & _ & _ & _ & Herr & _).
  exists r, m'. split; [exact Hrun|].
  eapply Herr. vm_compute. reflexivity.
Defined.

Lemma C7_witness :
  step_from_dict (step_to_dict (TestStep_default "open" "navigate"))
  = inr (TestStep_default "open" "navigate").
Proof.
  apply (proj1 C7_round_trip_up_to_unwritten_fields
           (TestStep_default "open" "navigate")).
  repeat split.
Defined.

(** A transport failure is not turned into a failed response: when the
    call raises there is no response at all, and a result flagged as an
    error by the transport, whose text lacks the marker, is a success. *)
Lemma C8_counterexample :
  fst (_call_tool_in_session Sim.host tt "browser_click" ∅
         (Sim.boot Sim.quiet [Raise "Connection closed"] []))
  = Raise "Connection closed" /\
  fst (_call_tool_in_session Sim.host tt "browser_click" ∅
         (Sim.boot Sim.quiet
            [Return {| cr_content := [TextContent "element not found"];
                       isError := true |}] []))
  = Return {| success := true; content := [TextPart "element not found"];
              error := None |}.
Proof. split; vm_compute; reflexivity. Qed.

Lemma C8_witness :
  exists resp m',
    _call_tool_in_session Sim.host tt "browser_click" ∅
      (Sim.boot Sim.quiet [Sim.text_answer "Error: no such element"] [])
    = (Return resp, m') /\
    success resp = false /\
    error resp = Some "Error: no such element".
Proof.
  destruct (C8_response_failed_iff_error_marker Sim.host tt "browser_click" ∅
              (Sim.boot Sim.quiet [Sim.text_answer "Error: no such element"] []))
    as [Hret _].
  destruct (Hret {| cr_content := [TextContent "Error: no such element"];
                    isError := false |}
                 (Sim.mkWorld 0 [] [] true) eq_refl)
    as (resp & m' & Hcall & Hiff & _ & Herr).
  exists resp, m'. split; [exact Hcall|]. split.
  - apply Hiff. exists (TextContent "Error: no such element").
    split; [apply list_elem_of_In; now left|reflexivity].
  - rewrite Herr. reflexivity.
Defined.

Lemma C10_witness :
  _selector_matches_html "H1" "<html><H1>Title</H1></html>" = false /\
  forall r m',
    run_step_in_session Sim.host tt Sim.heading
      (Sim.boot Sim.quiet [Sim.text_answer "<html><H1>Title</H1></html>"] [])
    = (Return r, m') ->
    status r = "failed" \/ status r = "error".
Proof.
  destruct (C10_capital_selector_never_matches Sim.host "H1"
              eq_refl eq_refl eq_refl) as [Hsel Hstep].
  split; [apply Hsel|].
  intros r m'. apply Hstep; reflexivity.
Defined.

End Examples.

(* ===================================================================== *)
(** ** What one step sends and changes *)
(* ===================================================================== *)

Ltac wp_branch_eq :=
  lazymatch goal with
  | |- wp (if ?b then _ else _) _ _ => destruct b eqn:?
  | |- wp (match ?x with Some _ => _ | None => _ end) _ _ => destruct x eqn:?
  end.

Ltac wp_walk_eq :=
  repeat (first [wp_step | wp_call | wp_branch_eq]; cbn beta iota).

Ltac use_tests :=
  repeat match goal with
         | E : _ = true |- _ => rewrite E; clear E
         | E : _ = false |- _ => rewrite E; clear E
         end.

Section StepEffects.
Import Scenarios Eff Agent Spec.
Context {Env Sess : Type} (H : Host Env Sess).

Lemma dispatch_effect_wp session stp (fr : Frame) Q :
  (forall o m' r',
     same_agent (fst fr) m' -> same_but_screenshot (snd fr) r' ->
     calls m' = calls (fst fr) ++ request_of stp ->
     current_url (self m')
     = url_after stp (succeeded o) (current_url (self (fst fr))) ->
     Q o (m', r')) ->
  wp (dispatch H session stp) fr Q.
Proof.
  intros HQ. unfold dispatch. destruct fr as [m r].
  wp_walk_eq; apply HQ; try same_close;
    unfold request_of, url_after, succeeded; simpl in *; use_tests;
    rewrite ?andb_false_r, ?app_nil_r; simpl; congruence.
Qed.

Lemma dispatch_effect session stp (fr fr' : Frame) o :
  dispatch H session stp fr = (o, fr') ->
  same_agent (fst fr) (fst fr') /\ same_but_screenshot (snd fr) (snd fr') /\
  calls (fst fr') = calls (fst fr) ++ request_of stp /\
  current_url (self (fst fr'))
  = url_after stp (succeeded o) (current_url (self (fst fr))).
Proof.
  intros Hd.
  apply (wp_elim _ _
           (fun o fr' =>
              same_agent (fst fr) (fst fr') /\
              same_but_screenshot (snd fr) (snd fr') /\
              calls (fst fr') = calls (fst fr) ++ request_of stp /\
              current_url (self (fst fr'))
              = url_after stp (succeeded o) (current_url (self (fst fr))))
           _ _) in Hd; [exact Hd|].
  apply dispatch_effect_wp. intros; simpl; auto.
Qed.

Lemma dispatch_entry_same stp (m : Machine Env) :
  self (fst (dispatch_entry H stp m)) = self m /\
  calls (fst (dispatch_entry H stp m)) = calls m /\
  snd (dispatch_entry H stp m) = initial_result stp (fst (clock H (world m))).
Proof.
  unfold dispatch_entry, try_entry. cbn [fst snd].
  split; [|split; [|reflexivity]].
  - refine (log_wp H _ _ _ (fun _ m' => self m' = self m) _). auto.
  - refine (log_wp H _ _ _ (fun _ m' => calls m' = calls m) _). auto.
Qed.

Lemma run_step_cases session stp (m : Machine Env) :
  exists r m',
    run_step_in_session H session stp m = (Return r, m') /\
    step_cases H session stp m r m'.
Proof.
  cut (wp (run_step_in_session H session stp) m
         (fun o m' => exists r, o = Return r /\ step_cases H session stp m r m')).
  { unfold wp. destruct (run_step_in_session H session stp m) as [o m'].
    simpl. intros (r & -> & Hrest). now exists r, m'. }
  unfold step_cases, dispatch_entry, try_entry.
  unfold run_step_in_session, step_except, step_try, classify.
  wp_step. apply now_wp; intros t0 w0 E. rewrite E. cbn [fst snd].
  cbn beta iota. wp_step. wp_step. wp_step. wp_step. wp_step.
  apply wp_use with (P := fun (o : Outcome unit) _ => o = Return tt);
    [apply log_wp; auto|].
  intros o m0 -> Elog. cbn [fst snd] in Elog. rewrite Elog.
  cbn [fst snd]. cbn beta iota.
  wp_step. apply wp_use with (P := fun _ _ => True); [exact I|].
  intros o [m1 r1] _ Ed. cbn [fst snd] in Ed. rewrite Ed.
  pose proof (dispatch_effect _ _ _ _ _ Ed) as (_ & (Hst & _) & _).
  cbn [fst snd] in Hst. simpl in Hst.
  destruct o as [ar|e]; cbn beta iota.
  - wp_step. wp_step. cbn beta iota. wp_step. wp_step. cbn beta iota.
    cbn [fst snd status set_status].
    destruct (success ar) eqn:Hok; cbn [orb andb String.eqb Ascii.eqb Bool.eqb].
    + wp_walk. simpl in *. eexists. split; [reflexivity|]. simpl.
      repeat split; congruence.
    + destruct (screenshot_on_failure stp) eqn:Hsof; cbn [negb].
      * apply failure_capture_wp.
        intros [u|e] m2 r2 Hs2 Hc2 (Hst2 & Hs & Hmsg & _);
          cbn [fst snd] in *; cbn beta iota; unfold failure_shot.
        -- wp_walk. simpl in *. eexists. split; [reflexivity|]. simpl.
           split; [congruence|]. split; [congruence|]. split; [congruence|].
           left. split; assumption.
        -- wp_walk. simpl in *. eexists. split; [reflexivity|]. simpl.
           split; [congruence|]. split; [congruence|]. split; [congruence|].
           now right.
      * wp_walk. simpl in *. eexists. split; [reflexivity|]. simpl.
        repeat split; congruence.
  - wp_walk. simpl in *. eexists. split; [reflexivity|]. simpl.
    repeat split; congruence.
Qed.

End StepEffects.

Section StepProperties.
Import Scenarios Eff Agent Spec.
Context {Env Sess : Type} (H : Host Env Sess).

Lemma request_of_length stp : (length (request_of stp) <= 1)%nat.
Proof.
  unfold request_of.
  repeat match goal with |- context [if ?b then _ else _] => destruct b end;
    simpl; lia.
Qed.

Lemma dispatch_unhandled session stp (fr : Frame) :
  handled (action stp) = false ->
  dispatch H session stp fr
  = (Return (failure ("Unknown action: " +:+ action stp)), fr).
Proof.
  unfold handled. cbn [existsb]. intros Hh.
  repeat (apply orb_false_iff in Hh; destruct Hh as [? Hh]).
  unfold dispatch, is_action.
  repeat match goal with E : String.eqb _ _ = false |- _ => rewrite E; clear E end.
  reflexivity.
Qed.

Lemma dispatch_assert_url session stp (fr : Frame) :
  action stp = "assert_url" ->
  exists m1,
    dispatch H session stp fr
    = (Return (just (PyStr.str_in (PyStr.lower (target stp))
                       (PyStr.lower (current_url (self (fst fr)))))),
       (m1, snd fr)).
Proof.
  intros Hact.
  cut (wp (dispatch H session stp) fr
         (fun o fr' =>
            o = Return (just (PyStr.str_in (PyStr.lower (target stp))
                                (PyStr.lower (current_url (self (fst fr))))))
            /\ snd fr' = snd fr)).
  { unfold wp. destruct (dispatch H session stp fr) as [o [m1 r1]].
    simpl. intros [-> ->]. now exists m1. }
  unfold dispatch, is_action. rewrite Hact.
  cbn [String.eqb Ascii.eqb Bool.eqb]. destruct fr as [m r].
  wp_walk. simpl. split; reflexivity.
Qed.

(** X1: the channel requests of one step.  [run_step_in_session] always
    returns; the requests it sends are the one request fixed by the
    step's action and fields (none for assert_url and for an action
    without a branch), followed by at most one browser_screenshot.  That
    extra request is absent when the step passed or does not ask for a
    screenshot on failure, and present when the step ends "failed" and
    asks for one; so a step sends at most two requests. *)
Theorem step_requests_are_determined session stp (m : Machine Env) :
  exists r m' extra,
    run_step_in_session H session stp m = (Return r, m') /\
    calls m' = calls m ++ request_of stp ++ extra /\
    (extra = [] \/ extra = [failure_shot]) /\
    (length (request_of stp ++ extra) <= 2)%nat /\
    (status r = "passed" -> extra = []) /\
    (screenshot_on_failure stp = false -> extra = []) /\
    (status r = "failed" -> screenshot_on_failure stp = true ->
     extra = [failure_shot]).
Proof.
  destruct (run_step_cases H session stp m) as (r & m' & Hrun & _ & Hc).
  destruct (dispatch_entry_same H stp m) as (_ & Hc0 & _).
  destruct (dispatch H session stp (dispatch_entry H stp m))
    as [[ar|e] fr1] eqn:Hd;
    pose proof (dispatch_effect H _ _ _ _ _ Hd) as (_ & _ & Hcalls & _);
    rewrite Hc0 in Hcalls.
  - destruct (success ar) eqn:Hok; [|destruct (screenshot_on_failure stp) eqn:Hsof];
      cbn [orb negb] in Hc.
    + destruct Hc as (Hs & _ & Hcm & _). exists r, m', [].
      rewrite app_nil_r. pose proof (request_of_length stp).
      repeat split; auto; try lia; try congruence.
    + destruct Hc as (Hcm & _ & Hs). exists r, m', [failure_shot].
      rewrite length_app. pose proof (request_of_length stp).
      repeat split; auto; try (simpl; lia).
      * rewrite Hcm, Hcalls. now rewrite <- app_assoc.
      * intros Hp. destruct Hs as [[Hs _]|Hs]; rewrite Hs in Hp; discriminate.
    + destruct Hc as (Hs & _ & Hcm & _). exists r, m', [].
      rewrite app_nil_r. pose proof (request_of_length stp).
      repeat split; auto; try congruence; try lia.
  - destruct Hc as (Hs & _ & Hcm & _). exists r, m', [].
    rewrite app_nil_r. pose proof (request_of_length stp).
    repeat split; auto; try congruence; try lia.
Qed.

(** X2: [current_url] follows passed navigations only.  After a step,
    [current_url] is the step's target when the step is a navigate that
    ended "passed", and is unchanged in every other case (another
    action, a navigate that failed or raised); [config] and
    [test_results] are never changed by a step. *)
Theorem current_url_follows_passed_navigation session stp (m : Machine Env) :
  exists r m',
    run_step_in_session H session stp m = (Return r, m') /\
    current_url (self m')
    = (if is_action stp "navigate" && String.eqb (status r) "passed"
       then target stp else current_url (self m)) /\
    config (self m') = config (self m) /\
    test_results (self m') = test_results (self m).
Proof.
  destruct (run_step_cases H session stp m) as (r & m' & Hrun & _ & Hc).
  destruct (dispatch_entry_same H stp m) as (Hs0 & _ & _).
  exists r, m'. split; [exact Hrun|].
  destruct (dispatch H session stp (dispatch_entry H stp m))
    as [[ar|e] fr1] eqn:Hd;
    pose proof (dispatch_effect H _ _ _ _ _ Hd) as ([Hcf Htr] & _ & _ & Hurl);
    rewrite Hs0 in Hcf, Htr, Hurl; unfold url_after, succeeded in Hurl.
  - assert (Hself : self m' = self (fst fr1) /\
                    String.eqb (status r) "passed" = success ar).
    { destruct (success ar) eqn:Hok;
        [|destruct (screenshot_on_failure stp) eqn:Hsof]; cbn [orb negb] in Hc.
      - destruct Hc as (Hs & _ & _ & Hsm & _). now rewrite Hs.
      - destruct Hc as (_ & Hsm & [[Hs _]|Hs]); now rewrite Hs.
      - destruct Hc as (Hs & _ & _ & Hsm & _). now rewrite Hs. }
    destruct Hself as [-> ->]. auto.
  - destruct Hc as (Hs & _ & _ & -> & _). rewrite Hs.
    rewrite andb_false_r in *. auto.
Qed.

(** X3: an action without a branch.  A step whose action is none of the
    ten that [run_step_in_session] compares against sends no request for
    the action and leaves the agent object as it was.  Without
    screenshot on failure it ends "failed" with the message
    "Unknown action: <action>" and nothing is sent at all; with it,
    exactly one browser_screenshot is sent and the step ends "failed"
    with that message or "error". *)
Theorem unknown_action_fails_without_request session stp (m : Machine Env) :
  handled (action stp) = false ->
  exists r m',
    run_step_in_session H session stp m = (Return r, m') /\
    self m' = self m /\
    (screenshot_on_failure stp = false ->
     status r = "failed" /\
     message r = "Unknown action: " +:+ action stp /\
     screenshot r = EmptyString /\
     calls m' = calls m) /\
    (screenshot_on_failure stp = true ->
     calls m' = calls m ++ [failure_shot] /\
     (status r = "failed" /\ message r = "Unknown action: " +:+ action stp \/
      status r = "error")).
Proof.
  intros Hh.
  destruct (run_step_cases H session stp m) as (r & m' & Hrun & _ & Hc).
  destruct (dispatch_entry_same H stp m) as (Hs0 & Hc0 & Hr0).
  rewrite (dispatch_unhandled session stp _ Hh) in Hc.
  cbn [success failure error orb default from_option id] in Hc.
  exists r, m'. split; [exact Hrun|].
  destruct (screenshot_on_failure stp); cbn [negb] in Hc.
  - destruct Hc as (Hcm & Hsm & Hs).
    split; [congruence|]. split; [discriminate|]. intros _.
    split; [congruence|exact Hs].
  - destruct Hc as (Hs & Hmsg & Hcm & Hsm & Hshot).
    split; [congruence|]. split; [|discriminate]. intros _.
    rewrite Hr0 in Hshot. simpl in Hshot. repeat split; congruence.
Qed.

(** X4: six members of [ActionType] have no branch.  For each of
    assert_value, hover, select, clear, press_key and execute_js, a step
    whose action compares equal to that member's value (and that asks
    for no screenshot on failure) ends "failed" on every page, and
    nothing is sent on the channel.  Only the comparisons of the branch
    chain bear on this, so it holds whether the action is the member
    itself or the plain string of its value. *)
Theorem unimplemented_action_types session (a : ActionType) stp
    (m : Machine Env) :
  In a [ASSERT_VALUE; HOVER; SELECT; CLEAR; PRESS_KEY; EXECUTE_JS] ->
  action stp = ActionType_value a ->
  screenshot_on_failure stp = false ->
  exists r m',
    run_step_in_session H session stp m = (Return r, m') /\
    status r = "failed" /\
    calls m' = calls m.
Proof.
  intros Hin Hact Hsof.
  assert (Hh : handled (action stp) = false).
  { rewrite Hact. simpl in Hin.
    repeat (destruct Hin as [<-|Hin]; [reflexivity|]). destruct Hin. }
  destruct (run_step_cases H session stp m) as (r & m' & Hrun & _ & Hc).
  destruct (dispatch_entry_same H stp m) as (_ & Hc0 & _).
  rewrite (dispatch_unhandled session stp _ Hh), Hsof in Hc.
  cbn [success failure error orb negb default from_option id] in Hc.
  destruct Hc as (Hs & _ & Hcm & _).
  exists r, m'. repeat split; congruence.
Qed.

(** X5: assert_url never goes to the browser.  An assert_url step sends
    no request for the check (the only request it can cause is the
    screenshot after a failure); it ends "passed" exactly when the
    lower-cased target occurs in the lower-cased [current_url] that the
    agent recorded at its last passed navigation, and then nothing at
    all is sent.  With an empty target it always passes. *)
Theorem assert_url_reads_recorded_address session stp (m : Machine Env) :
  action stp = "assert_url" ->
  exists r m',
    run_step_in_session H session stp m = (Return r, m') /\
    (status r = "passed" <->
     PyStr.str_in (PyStr.lower (target stp))
       (PyStr.lower (current_url (self m))) = true) /\
    (status r = "passed" -> calls m' = calls m) /\
    (target stp = EmptyString -> status r = "passed") /\
    (forall rq, In rq (skipn (length (calls m)) (calls m')) ->
                rq = failure_shot).
Proof.
  intros Hact.
  cut (exists r m',
         run_step_in_session H session stp m = (Return r, m') /\
         (status r = "passed" <->
          PyStr.str_in (PyStr.lower (target stp))
            (PyStr.lower (current_url (self m))) = true) /\
         (status r = "passed" -> calls m' = calls m) /\
         (forall rq, In rq (skipn (length (calls m)) (calls m')) ->
                     rq = failure_shot)).
  { intros (r & m' & Hrun & Hiff & Hc & Hrq). exists r, m'.
    repeat split; try tauto; try assumption.
    intros Ht. apply Hiff. rewrite Ht. simpl.
    now destruct (PyStr.lower (current_url (self m))). }
  destruct (run_step_cases H session stp m) as (r & m' & Hrun & _ & Hc).
  destruct (dispatch_entry_same H stp m) as (Hs0 & Hc0 & _).
  destruct (dispatch_assert_url session stp (dispatch_entry H stp m) Hact)
    as (m1 & Hd).
  pose proof (dispatch_effect H _ _ _ _ _ Hd) as (_ & _ & Hcalls & _).
  assert (Hreq : request_of stp = []).
  { unfold request_of, is_action. now rewrite Hact. }
  rewrite Hreq, app_nil_r, Hc0 in Hcalls. cbn [fst] in Hcalls.
  rewrite Hd in Hc. rewrite Hs0 in Hc. cbn [success just fst snd] in Hc.
  exists r, m'. split; [exact Hrun|].
  destruct (PyStr.str_in _ _) eqn:Hin;
    [|destruct (screenshot_on_failure stp) eqn:Hsof]; cbn [orb negb] in Hc.
  - destruct Hc as (Hs & _ & Hcm & _). rewrite Hcm, Hcalls.
    split; [now rewrite Hs|]. split; [reflexivity|].
    rewrite skipn_all. intros rq [].
  - destruct Hc as (Hcm & _ & Hs). rewrite Hcm, Hcalls.
    split; [split; [|discriminate]|].
    + intros Hp. destruct Hs as [[Hs _]|Hs]; rewrite Hs in Hp; discriminate.
    + split.
      * intros Hp. destruct Hs as [[Hs _]|Hs]; rewrite Hs in Hp; discriminate.
      * rewrite skipn_app, skipn_all, Nat.sub_diag. simpl.
        intros rq [<-|[]]. reflexivity.
  - destruct Hc as (Hs & _ & Hcm & _). rewrite Hcm, Hcalls.
    split; [split; [|discriminate]|].
    + rewrite Hs. discriminate.
    + split; [rewrite Hs; discriminate|].
      rewrite skipn_all. intros rq [].
Qed.

End StepProperties.

(* ===================================================================== *)
(** ** What a scenario run and a suite run record *)
(* ===================================================================== *)

Section RunnerProperties.
Import Scenarios Eff Agent Spec.
Context {Env Sess : Type} (H : Host Env Sess).

Lemma cut_has_critical todo new :
  cut todo new -> exists s, In s todo /\ critical s = true.
Proof.
  intros (pre & r & -> & [k ->] & _ & Hstop). exists (step r). split.
  - rewrite map_app. simpl. apply in_or_app. left. apply in_or_app.
    right. now left.
  - unfold stopping, stops in Hstop. now apply andb_true_iff in Hstop.
Qed.

Lemma cut_length todo new : cut todo new -> (length new <= length todo)%nat.
Proof.
  intros (pre & r & _ & Hpre & _). apply prefix_length in Hpre.
  now rewrite length_map in Hpre.
Qed.

Lemma cut_nil new : ~ cut [] new.
Proof. intros Hc. destruct (cut_has_critical _ _ Hc) as (s & [] & _). Qed.

Lemma complete_length todo new : complete todo new -> length new = length todo.
Proof. intros [<- _]. now rewrite length_map. Qed.

Lemma uncritical_no_cut todo new :
  Forall (fun s => critical s = false) todo -> ~ cut todo new.
Proof.
  intros Hall Hc. destruct (cut_has_critical _ _ Hc) as (s & Hin & Hcr).
  rewrite Forall_forall in Hall. apply list_elem_of_In in Hin.
  specialize (Hall s Hin). simpl in Hall. congruence.
Qed.

Lemma shape_main_only sc rs :
  setup_steps sc = [] -> teardown_steps sc = [] -> shape sc rs ->
  complete (steps sc) rs \/ cut (steps sc) rs.
Proof.
  intros Hs Ht [_ [Hc|(rs_s & rs_m & rs_t & -> & [Hms _] & Hm & Hmt)]].
  - rewrite Hs in Hc. destruct (cut_nil _ Hc).
  - rewrite Hs in Hms. rewrite Ht in Hmt.
    apply map_eq_nil in Hms, Hmt. subst. now rewrite app_nil_r.
Qed.

Lemma valid_partition (rs : list StepResult) :
  Forall valid rs ->
  (length (with_status "passed" rs) + length (with_status "failed" rs)
   + length (with_status "error" rs) = length rs)%nat.
Proof.
  unfold with_status. induction 1 as [|r rs Hv _ IH]; [reflexivity|].
  simpl. destruct Hv as [Hv|[Hv|Hv]]; rewrite Hv; simpl; lia.
Qed.

Lemma passed_iff_all_passed (rs : list StepResult) :
  Forall valid rs ->
  scenario_status rs = "passed" <->
  length (with_status "passed" rs) = length rs.
Proof.
  intros Hv. pose proof (valid_partition rs Hv) as Hp.
  unfold scenario_status.
  destruct (with_status "error" rs), (with_status "failed" rs); simpl in *;
    split; intros Hx; try discriminate; try reflexivity; lia.
Qed.

(** X6: a scenario without critical steps runs everything.  When no
    setup step and no main step is critical, a run whose session opens
    yields one step result for every setup, main and teardown step, in
    that order, whatever the steps' outcomes; [critical] on a teardown
    step has no effect. *)
Theorem uncritical_scenario_runs_every_step sc (m : Machine Env) tr m' :
  Forall (fun s => critical s = false) (setup_steps sc ++ steps sc) ->
  run_scenario H sc m = (Return tr, m') ->
  map step (step_results tr)
  = setup_steps sc ++ steps sc ++ teardown_steps sc.
Proof.
  intros Hall Hrun. apply Forall_app in Hall. destruct Hall as [Hsu Hst].
  destruct (run_scenario_post H _ _ _ _ Hrun) as (_ & [_ Hsh] & _).
  destruct Hsh as [Hc|(rs_s & rs_m & rs_t & -> & [Hms _] & Hm & Hmt)].
  - destruct (uncritical_no_cut _ _ Hsu Hc).
  - destruct Hm as [[Hmm _]|Hc]; [|destruct (uncritical_no_cut _ _ Hst Hc)].
    rewrite !map_app. congruence.
Qed.

(** X7: the counters of a scenario result.  For the result of a
    scenario run, every step result is passed, failed or error, so
    [passed_steps], [failed_steps] and the number of errors add up to
    [total_steps]; there are never more step results than steps in the
    scenario; the status is "passed" exactly when [passed_steps] equals
    [total_steps] (in particular for a scenario without steps); and the
    result is the one appended to [test_results]. *)
Theorem scenario_result_accounting sc (m : Machine Env) tr m' :
  run_scenario H sc m = (Return tr, m') ->
  (passed_steps tr + failed_steps tr
   + length (with_status "error" (step_results tr)) = total_steps tr)%nat /\
  (total_steps tr <= length (setup_steps sc) + length (steps sc)
                     + length (teardown_steps sc))%nat /\
  (tr_status tr = "passed" <-> passed_steps tr = total_steps tr) /\
  scenario tr = sc /\
  test_results (self m') = test_results (self m) ++ [tr].
Proof.
  intros Hrun.
  destruct (run_scenario_post H _ _ _ _ Hrun)
    as (Hsc & [Hv Hsh] & Hst & Htr & _).
  unfold passed_steps, failed_steps, total_steps.
  split; [now apply valid_partition|]. split; [|split; [|split]].
  - destruct Hsh as [Hc|(rs_s & rs_m & rs_t & -> & Hs & Hm & Hmt)].
    + apply cut_length in Hc. lia.
    + apply complete_length in Hs. rewrite !length_app, Hs.
      rewrite <- Hmt, length_map.
      destruct Hm as [Hm|Hm];
        [apply complete_length in Hm|apply cut_length in Hm]; lia.
  - rewrite Hst. now apply passed_iff_all_passed.
  - exact Hsc.
  - exact Htr.
Qed.

Lemma suite_loop_wp todo (fr : Machine Env * list TestResult) Q :
  (forall o m' new,
     config (self m') = config (self (fst fr)) ->
     test_results (self m') = test_results (self (fst fr)) ++ new ->
     Forall recorded new ->
     match o with
     | Return _ => map scenario new = todo
     | Raise _ =>
         map scenario new `prefix_of` todo /\ (length new < length todo)%nat
     end ->
     Q o (m', snd fr ++ new)) ->
  wp (suite_loop H todo) fr Q.
Proof.
  revert fr Q. induction todo as [|sc rest IH]; intros [m rs] Q HQ; simpl.
  - wp_step. rewrite <- (app_nil_r rs).
    apply (HQ (Return tt) m []); simpl; auto using app_nil_r.
  - wp_step. wp_step.
    apply wp_mono with (1 := run_scenario_wp H sc m).
    intros [tr|e] m1 Hpost; simpl in Hpost; cbn beta iota.
    + destruct Hpost as (Hsc & Hsh & Hst & Htr & Hcf & _).
      wp_step. wp_step. cbn beta iota.
      apply IH. intros o m2 new Hcf2 Htr2 Hrec Ho. simpl in *.
      rewrite <- app_assoc. apply (HQ o m2 (tr :: new)); simpl.
      * congruence.
      * rewrite Htr2, Htr. now rewrite <- app_assoc.
      * constructor; [|exact Hrec]. split; [exact Hst|now rewrite Hsc].
      * destruct o as [u|e].
        -- now rewrite Hsc, Ho.
        -- destruct Ho as (Hp & Hl). rewrite Hsc.
           split; [now apply prefix_cons|lia].
    + destruct Hpost as (w' & E & ->). rewrite <- (app_nil_r rs).
      apply (HQ (Raise e) _ []); simpl.
      * now destruct (scenario_entry_same H sc m) as [-> _].
      * destruct (scenario_entry_same H sc m) as [-> _].
        now rewrite app_nil_r.
      * constructor.
      * split; [apply prefix_nil|lia].
Qed.

Lemma run_suite_wp suite (m : Machine Env) :
  wp (run_suite H suite) m (suite_post suite m).
Proof.
  unfold run_suite, suite_prologue, suite_post.
  wp_step. wp_step. apply log_wp; intros m1 Hs1 _. cbn beta iota.
  wp_step. apply log_wp; intros m2 Hs2 _. cbn beta iota.
  wp_step. apply log_wp; intros m3 Hs3 _. cbn beta iota.
  apply log_wp; intros m4 Hs4 _. cbn beta iota.
  wp_step. wp_step.
  apply suite_loop_wp. intros o m5 rs Hcf Htr Hrec Ho. cbn [fst snd] in *.
  assert (Hself : self m4 = self m) by congruence.
  rewrite Hself in Hcf, Htr. simpl.
  destruct o as [u|e]; cbn beta iota.
  - wp_step. wp_step. cbn beta iota. wp_step. wp_step.
    apply wp_use with (P := fun _ _ => True); [exact I|].
    intros o m6 _ E. cbn [fst snd] in E.
    destruct (generate_report H _ suite rs (world m5)) as [o' w] eqn:G.
    injection E as <- <-. destruct o' as [p|e]; cbn beta iota.
    + wp_step. wp_step. apply log_wp; intros m7 Hs7 _. cbn beta iota.
      wp_step. simpl in *. exists rs. rewrite Hs7. auto.
    + simpl. exists rs. split; [exact Hcf|]. split; [exact Htr|].
      split; [exact Hrec|]. now rewrite Ho.
  - destruct Ho as (Hp & _). exists rs. auto 6.
Qed.

(** X8: what a suite run records.  However [run_suite] ends, the results
    appended to [test_results] are those of an initial part of the
    suite's scenarios, in the suite's order, each with the aggregated
    status of its own step results, and [config] is unchanged.  When it
    returns, the returned list is exactly what was appended and has one
    result per scenario. *)
Theorem suite_results_are_recorded suite (m : Machine Env) o m' :
  run_suite H suite m = (o, m') ->
  exists rs,
    config (self m') = config (self m) /\
    test_results (self m') = test_results (self m) ++ rs /\
    map scenario rs `prefix_of` scenarios suite /\
    Forall (fun tr => tr_status tr = scenario_status (step_results tr)) rs /\
    (forall results,
       o = Return results ->
       results = rs /\ map scenario rs = scenarios suite).
Proof.
  intros Hrun.
  destruct (wp_elim _ _ _ _ _ (run_suite_wp suite m) Hrun)
    as (rs & Hcf & Htr & Hrec & Ho).
  exists rs. split; [exact Hcf|]. split; [exact Htr|].
  assert (Hst : Forall (fun tr => tr_status tr
                                  = scenario_status (step_results tr)) rs).
  { eapply Forall_impl; [exact Hrec|]. now intros tr [? _]. }
  destruct o as [results|e].
  - destruct Ho as [-> Hmap]. rewrite Hmap.
    split; [reflexivity|]. split; [exact Hst|]. now intros ? [= <-].
  - split; [exact Ho|]. split; [exact Hst|]. intros ? [=].
Qed.

(** X9: nothing escapes the body of a scenario run.  Once the session
    is open, the [try] block of [run_scenario] together with its
    handler always completes normally, whatever the steps do: failures
    and exceptions of steps are recorded as results, and the exception
    of a critical setup failure is caught by the handler.  The results
    it leaves have the shape of a scenario run, and [config] and
    [test_results] are as before. *)
Theorem scenario_body_never_raises session sc (m : Machine Env) :
  exists m' rs,
    try_except (scenario_try H session sc) (scenario_except H) (m, [])
    = (Return tt, (m', rs)) /\
    shape sc rs /\
    config (self m') = config (self m) /\
    test_results (self m') = test_results (self m).
Proof.
  assert (Hwp : wp (try_except (scenario_try H session sc) (scenario_except H))
                  (m, [])
                  (fun o fr' => o = Return tt /\ shape sc (snd fr') /\
                                same_agent m (fst fr'))).
  { apply scenario_body_wp. intros m' rs Hm Hsh. auto. }
  unfold wp in Hwp.
  destruct (try_except (scenario_try H session sc) (scenario_except H) (m, []))
    as [o [m' rs]].
  simpl in Hwp. destruct Hwp as (-> & Hsh & Hcf & Htr).
  exists m', rs. auto.
Qed.

End RunnerProperties.

Section QuickTests.
Import Scenarios Eff Agent Spec.
Context {Env Sess : Type} (H : Host Env Sess).

Lemma nonstop_critical_passed r :
  nonstop r -> critical (step r) = true -> status r = "passed".
Proof.
  unfold nonstop, stops. intros Hn Hc. rewrite Hc, andb_true_r in Hn.
  apply negb_false_iff in Hn. now apply String.eqb_eq.
Qed.

Lemma stopping_not_passed r : stopping r -> status r <> "passed".
Proof.
  unfold stopping, stops. intros Hs Hp. rewrite Hp in Hs. discriminate.
Qed.

Lemma stopping_critical r : stopping r -> critical (step r) = true.
Proof. unfold stopping, stops. intros Hs. now apply andb_true_iff in Hs. Qed.

Lemma not_passed_status (rs : list StepResult) r :
  In r rs -> status r <> "passed" -> Forall valid rs ->
  scenario_status rs <> "passed".
Proof.
  intros Hin Hnp Hv Hst. apply passed_iff_all_passed in Hst; [|exact Hv].
  clear Hv. unfold with_status in Hst.
  induction rs as [|x rs IH]; [destruct Hin|]. simpl in Hst.
  pose proof (filter_length_le (fun r => String.eqb (status r) "passed") rs).
  destruct (String.eqb (status x) "passed") eqn:E; simpl in Hst; [|lia].
  destruct Hin as [->|Hin]; [now apply String.eqb_eq in E|].
  apply IH; [exact Hin|lia].
Qed.

Lemma critical_head_scenario sc nav tl (m : Machine Env) tr m' :
  setup_steps sc = [] -> teardown_steps sc = [] -> steps sc = nav :: tl ->
  critical nav = true -> Forall (fun s => critical s = false) tl ->
  run_scenario H sc m = (Return tr, m') ->
  exists r0 rest,
    step_results tr = r0 :: rest /\
    step r0 = nav /\
    (status r0 <> "passed" -> rest = [] /\ tr_status tr <> "passed") /\
    (status r0 = "passed" -> map step (step_results tr) = steps sc).
Proof.
  intros Hsu Htd Hsteps Hnav Htl Hrun.
  destruct (run_scenario_post H _ _ _ _ Hrun) as (_ & Hsh & Hst & _).
  pose proof Hsh as [Hv _].
  apply shape_main_only in Hsh; [|exact Hsu|exact Htd].
  rewrite Hst, Hsteps in *. clear Hsteps.
  destruct Hsh as [[Hmap Hall]|(pre & l & Hrs & Hpre & Hns & Hstop)].
  - destruct (step_results tr) as [|r0 rest]; simpl in Hmap; [discriminate|].
    injection Hmap as Hr0 Hrest. exists r0, rest.
    split; [reflexivity|]. split; [exact Hr0|].
    apply Forall_cons in Hall. destruct Hall as [Hn0 _].
    assert (Hp : status r0 = "passed")
      by (apply nonstop_critical_passed; [exact Hn0|now rewrite Hr0]).
    split; [intros Hnp; now destruct Hnp|].
    intros _. simpl. now rewrite Hr0, Hrest.
  - rewrite Hrs in *. destruct pre as [|p0 pre]; simpl in *.
    + exists l, []. split; [reflexivity|].
      destruct Hpre as [k Hk]. injection Hk as Hl _.
      split; [now symmetry|].
      pose proof (stopping_not_passed _ Hstop) as Hnp.
      split; [|intros Hp; now destruct Hnp].
      intros _. split; [reflexivity|].
      apply not_passed_status with l; [now left|exact Hnp|exact Hv].
    + exfalso. destruct Hpre as [k Hk]. injection Hk as _ Hk.
      apply (uncritical_no_cut tl (pre ++ [l]) Htl).
      exists pre, l. split; [reflexivity|]. split; [now exists k|].
      apply Forall_cons in Hns. destruct Hns as [_ Hns].
      split; assumption.
Qed.

(** X10: the quick page-load test.  When [test_page_loads] returns, its
    first step result is that of the critical Navigate step.  If that
    step did not pass, it is the only step result and the scenario is
    not "passed": no screenshot is taken and the expected text is not
    looked for.  If it passed, every step of the scenario has a result,
    because no other step is critical. *)
Theorem page_load_test_stops_at_failed_navigation url expected_text
    (m : Machine Env) tr m' :
  test_page_loads H url expected_text m = (Return tr, m') ->
  exists r0 rest,
    step_results tr = r0 :: rest /\
    step r0 = TestStep_kw "Navigate" "navigate" url None None true /\
    (status r0 <> "passed" -> rest = [] /\ tr_status tr <> "passed") /\
    (status r0 = "passed" ->
     map step (step_results tr) = steps (scenario tr)).
Proof.
  unfold test_page_loads. intros Hrun.
  destruct (run_scenario_post H _ _ _ _ Hrun) as (Hsc & _).
  rewrite Hsc.
  destruct (String.eqb (or_str expected_text EmptyString) EmptyString);
    (eapply critical_head_scenario;
       [reflexivity|reflexivity|reflexivity|reflexivity| |exact Hrun]);
    repeat constructor.
Qed.

(** X30: the templates stop at a failed navigation.  For a scenario
    built by [page_load_test], [form_validation_test] or
    [accessibility_check], the first step result of a run is that of the
    critical Navigate step.  If that step did not pass, it is the only
    step result and the scenario is not "passed"; if it passed, every
    step of the template has a result, whatever the other steps'
    outcomes, because no other step of these templates is critical. *)
Theorem templates_stop_at_failed_navigation sc url els ss errs
    (m : Machine Env) tr m' :
  sc = page_load_test url els \/ sc = form_validation_test url ss errs \/
  sc = accessibility_check url ->
  run_scenario H sc m = (Return tr, m') ->
  exists r0 rest,
    step_results tr = r0 :: rest /\
    step r0 = TestStep_kw "Navigate" "navigate" url None None true /\
    (status r0 <> "passed" -> rest = [] /\ tr_status tr <> "passed") /\
    (status r0 = "passed" -> map step (step_results tr) = steps sc).
Proof.
  intros Hsc Hrun.
  assert (Hver : forall i l,
            Forall (fun s => critical s = false) (verify_elements i l)).
  { intros i l. revert i. induction l as [|e l IH]; intros i; simpl;
      constructor; auto. }
  destruct Hsc as [->|[->| ->]];
    (eapply critical_head_scenario;
       [reflexivity|reflexivity|reflexivity|reflexivity| |exact Hrun]).
  - repeat (apply Forall_cons; split; [reflexivity|]).
    destruct els; [apply Hver|constructor].
  - repeat (apply Forall_cons; split; [reflexivity|]).
    apply Forall_app. split; [|repeat constructor].
    apply Forall_forall. intros s Hs. apply list_elem_of_fmap in Hs.
    now destruct Hs as (sel & -> & _).
  - repeat constructor.
Qed.

Lemma critical_positions (nav sub : TestStep) (fills tail : list TestStep)
    s1 a x k :
  Forall (fun s => critical s = false) (fills ++ s1 :: tail) ->
  nav :: fills ++ s1 :: sub :: tail = a ++ x :: k ->
  critical x = true ->
  length a = 0%nat \/ length a = (length fills + 2)%nat.
Proof.
  intros Hall Heq Hx.
  assert (Hlook : (nav :: fills ++ s1 :: sub :: tail) !! length a = Some x)
    by (rewrite Heq; apply list_lookup_middle; reflexivity).
  destruct (length a) as [|j]; [now left|right]. simpl in Hlook.
  rewrite Forall_forall in Hall.
  assert (Hno : forall y, y ∈ fills ++ s1 :: tail -> y <> x).
  { intros y Hy ->. specialize (Hall x Hy). simpl in Hall. congruence. }
  destruct (decide (j < length fills)%nat) as [Hlt|Hge].
  - rewrite lookup_app_l in Hlook by exact Hlt.
    apply list_elem_of_lookup_2 in Hlook.
    destruct (Hno x); [|reflexivity]. apply elem_of_app. now left.
  - rewrite lookup_app_r in Hlook by lia.
    destruct (j - length fills)%nat as [|[|i]] eqn:E; simpl in Hlook.
    + injection Hlook as <-. destruct (Hno s1); [|reflexivity].
      apply elem_of_app. right. now left.
    + lia.
    + apply list_elem_of_lookup_2 in Hlook.
      destruct (Hno x); [|reflexivity]. apply elem_of_app. right. now right.
Qed.

(** X11: the quick form test.  When [test_form_submission] returns, the
    step results follow the scenario's steps in order, and either every
    step has a result or the run was cut: the last result did not pass
    and is that of Navigate (one result) or of Submit Form (as many
    results as form fields, plus three).  A fill step never cuts the
    run, whatever its outcome, and a cut run is never "passed". *)
Theorem form_test_stops_at_navigation_or_submit url form_data
    submit_selector success_indicator (m : Machine Env) tr m' :
  test_form_submission H url form_data submit_selector success_indicator m
  = (Return tr, m') ->
  map step (step_results tr) `prefix_of` steps (scenario tr) /\
  (length (step_results tr) = (length form_data + 6)%nat \/
   exists pre r,
     step_results tr = pre ++ [r] /\ status r <> "passed" /\
     tr_status tr <> "passed" /\
     (length pre = 0%nat /\ action (step r) = "navigate" \/
      length pre = (length form_data + 2)%nat /\ action (step r) = "click")).
Proof.
  unfold test_form_submission. intros Hrun.
  destruct (run_scenario_post H _ _ _ _ Hrun) as (Hsc & Hsh & Hst & _).
  rewrite Hsc. pose proof Hsh as [Hv _].
  apply shape_main_only in Hsh; [|reflexivity|reflexivity].
  rewrite Hst. cbn [steps TestScenario_kw] in *.
  destruct Hsh as [[Hmap Hall]|(pre & l & Hrs & Hpre & Hns & Hstop)].
  - split; [now rewrite Hmap|]. left.
    rewrite <- (length_map step), Hmap. simpl.
    rewrite length_app, length_map. simpl. lia.
  - split; [exact Hpre|]. right. exists pre, l.
    split; [exact Hrs|].
    pose proof (stopping_not_passed _ Hstop) as Hnp. split; [exact Hnp|].
    split.
    { apply not_passed_status with l; [|exact Hnp|exact Hv].
      rewrite Hrs. apply in_or_app. right. now left. }
    rewrite Hrs in Hpre. destruct Hpre as [k Hk].
    rewrite map_app in Hk. simpl in Hk. rewrite <- app_assoc in Hk.
    simpl in Hk.
    pose proof (stopping_critical _ Hstop) as Hcr.
    pose proof Hk as Hpos.
    apply critical_positions in Hpos; [|clear|exact Hcr].
    2:{ apply Forall_app. split.
        - apply Forall_forall. intros s Hs.
          apply list_elem_of_fmap in Hs. destruct Hs as (it & -> & _).
          reflexivity.
        - repeat constructor. }
    rewrite !length_map in Hpos.
    assert (Hlook : (map step pre ++ step l :: k) !! length (map step pre)
                    = Some (step l))
      by (apply list_lookup_middle; reflexivity).
    rewrite <- Hk, length_map in Hlook.
    destruct Hpos as [Hp|Hp]; [left|right]; (split; [exact Hp|]);
      rewrite Hp in Hlook.
    + simpl in Hlook. now injection Hlook as <-.
    + replace (length form_data + 2)%nat with (S (length form_data + 1))
        in Hlook by lia.
      simpl in Hlook. rewrite lookup_app_r in Hlook
        by (rewrite length_map; lia).
      rewrite length_map in Hlook.
      replace (length form_data + 1 - length form_data)%nat with 1%nat
        in Hlook by lia.
      simpl in Hlook. now injection Hlook as <-.
Qed.

End QuickTests.

(* ===================================================================== *)
(** ** How many requests a scenario sends *)
(* ===================================================================== *)

Section RequestCount.
Import Scenarios Eff Agent Spec.
Context {Env Sess : Type} (H : Host Env Sess).

Lemma run_step_sends session stp (m : Machine Env) Q :
  (forall r m' l,
     step_sent r l -> calls m' = calls m ++ l -> Q (Return r) m') ->
  wp (run_step_in_session H session stp) m Q.
Proof.
  intros HQ. unfold wp.
  destruct (run_step_cases H session stp m) as (r & m' & Hrun & Hstep & Hc).
  rewrite Hrun. cbn [fst snd].
  destruct (dispatch_entry_same H stp m) as (_ & Hc0 & _).
  destruct (dispatch H session stp (dispatch_entry H stp m))
    as [[ar|e] fr1] eqn:Hd;
    pose proof (dispatch_effect H _ _ _ _ _ Hd) as (_ & _ & Hcalls & _);
    rewrite Hc0 in Hcalls.
  - revert Hc.
    destruct (success ar || negb (screenshot_on_failure stp)) eqn:Hok.
    + intros (_ & _ & Hcm & _). apply (HQ r m' (request_of stp)).
      * left. now rewrite Hstep.
      * congruence.
    + intros (Hcm & _ & Hst).
      apply orb_false_iff in Hok as [_ Hsof]. apply negb_false_iff in Hsof.
      apply (HQ r m' (request_of stp ++ [failure_shot])).
      * right. rewrite Hstep. split; [|split; [exact Hsof|reflexivity]].
        destruct Hst as [[-> _]| ->]; discriminate.
      * now rewrite Hcm, Hcalls, <- app_assoc.
  - destruct Hc as (_ & _ & Hcm & _). apply (HQ r m' (request_of stp)).
    + left. now rewrite Hstep.
    + congruence.
Qed.

Lemma run_and_record_sends session stp (fr : Machine Env * list StepResult) Q :
  (forall r m' l,
     step_sent r l -> calls m' = calls (fst fr) ++ l ->
     Q (Return r) (m', snd fr ++ [r])) ->
  wp (run_and_record H session stp) fr Q.
Proof.
  intros HQ. unfold run_and_record. destruct fr as [m rs].
  wp_step. wp_step. apply run_step_sends. intros r m1 l Hl Hm1.
  cbn beta iota.
  wp_step. wp_step. cbn beta iota. wp_step. now apply (HQ r m1 l).
Qed.

Lemma loop_sends_refl (fr : Machine Env * list StepResult) : loop_sends fr fr.
Proof.
  exists [], []. simpl. rewrite !app_nil_r.
  split; [reflexivity|]. split; [constructor|reflexivity].
Qed.

Lemma loop_sends_step (m m1 : Machine Env) rs r l
    (fr' : Machine Env * list StepResult) :
  step_sent r l -> calls m1 = calls m ++ l ->
  loop_sends (m1, rs ++ [r]) fr' ->
  loop_sends (m, rs) fr'.
Proof.
  intros Hl Hm1 (new & ls & Hnew & Hs & Hc). exists (r :: new), (l :: ls).
  cbn [fst snd] in *.
  split; [now rewrite Hnew, <- app_assoc|].
  split; [now constructor|].
  rewrite Hc, Hm1, <- app_assoc. reflexivity.
Qed.

Lemma loop_sends_log (fr : Machine Env * list StepResult) (m' : Machine Env) :
  calls m' = calls (fst fr) -> loop_sends fr (m', snd fr).
Proof.
  intros Hc. exists [], []. simpl. rewrite !app_nil_r.
  split; [reflexivity|]. split; [constructor|exact Hc].
Qed.

Lemma loop_sends_trans (fr1 fr2 fr3 : Machine Env * list StepResult) :
  loop_sends fr1 fr2 -> loop_sends fr2 fr3 -> loop_sends fr1 fr3.
Proof.
  intros (n1 & l1 & H1 & S1 & C1) (n2 & l2 & H2 & S2 & C2).
  exists (n1 ++ n2), (l1 ++ l2).
  rewrite H2, H1, C2, C1, <- !app_assoc, concat_app.
  split; [reflexivity|]. split; [now apply Forall2_app|reflexivity].
Qed.

Lemma step_sent_length r l : step_sent r l -> (length l <= 2)%nat.
Proof.
  pose proof (request_of_length (step r)) as Hlen.
  intros [->|(_ & _ & ->)]; [lia|]. rewrite length_app. simpl. lia.
Qed.

Lemma sent_length rs ls :
  Forall2 step_sent rs ls -> (length (concat ls) <= 2 * length rs)%nat.
Proof.
  induction 1 as [|r l rs ls Hl _ IH]; simpl; [lia|].
  apply step_sent_length in Hl. rewrite length_app. lia.
Qed.

Lemma setup_loop_sends session todo (fr : Machine Env * list StepResult) :
  wp (setup_loop H session todo) fr (fun _ fr' => loop_sends fr fr').
Proof.
  revert fr. induction todo as [|stp rest IH]; intros [m rs]; simpl.
  - wp_step. apply loop_sends_refl.
  - wp_step. apply run_and_record_sends. intros r m1 l Hl Hm1. cbn beta iota.
    cbn [fst snd] in *.
    destruct (stops r stp).
    + wp_step. apply loop_sends_step with m1 r l; [exact Hl|exact Hm1|].
      apply loop_sends_refl.
    + apply wp_mono with (1 := IH (m1, rs ++ [r])). intros o fr' Hfr.
      now apply loop_sends_step with m1 r l.
Qed.

Lemma steps_loop_sends session todo (fr : Machine Env * list StepResult) :
  wp (steps_loop H session todo) fr (fun _ fr' => loop_sends fr fr').
Proof.
  revert fr. induction todo as [|stp rest IH]; intros [m rs]; simpl.
  - wp_step. apply loop_sends_refl.
  - wp_step. apply run_and_record_sends. intros r m1 l Hl Hm1. cbn beta iota.
    cbn [fst snd] in *.
    destruct (stops r stp).
    + wp_step. apply log_wp. intros m2 _ Hc2.
      apply loop_sends_step with m1 r l; [exact Hl|exact Hm1|].
      now apply (loop_sends_log (m1, rs ++ [r])).
    + apply wp_mono with (1 := IH (m1, rs ++ [r])). intros o fr' Hfr.
      now apply loop_sends_step with m1 r l.
Qed.

Lemma teardown_loop_sends session todo (fr : Machine Env * list StepResult) :
  wp (teardown_loop H session todo) fr (fun _ fr' => loop_sends fr fr').
Proof.
  revert fr. induction todo as [|stp rest IH]; intros [m rs]; simpl.
  - wp_step. apply loop_sends_refl.
  - wp_step. apply run_and_record_sends. intros r m1 l Hl Hm1. cbn beta iota.
    cbn [fst snd] in *.
    apply wp_mono with (1 := IH (m1, rs ++ [r])). intros o fr' Hfr.
    now apply loop_sends_step with m1 r l.
Qed.

Lemma scenario_body_sends session sc (fr : Machine Env * list StepResult) :
  wp (try_except (scenario_try H session sc) (scenario_except H)) fr
     (fun o fr' => o = Return tt /\ loop_sends fr fr').
Proof.
  unfold scenario_try, scenario_except. destruct fr as [m rs].
  wp_step. wp_step.
  apply wp_use with (P := fun (o : Outcome unit) fr' => loop_sends (m, rs) fr').
  { destruct (nonempty (setup_steps sc)).
    - wp_step. wp_step. apply log_wp; intros m0 _ Hc0. cbn beta iota.
      apply wp_mono with (1 := setup_loop_sends session _ (m0, rs)).
      intros o fr' Hfr.
      apply loop_sends_trans with (m0, rs); [|exact Hfr].
      now apply (loop_sends_log (m, rs)).
    - wp_step. apply loop_sends_refl. }
  intros [[]|e] [m1 rs1] H1 _; cbn beta iota.
  2:{ wp_step. apply log_wp; intros m2 _ Hc2. split; [reflexivity|].
      apply loop_sends_trans with (m1, rs1); [exact H1|].
      now apply (loop_sends_log (m1, rs1)). }
  wp_step. wp_step. apply log_wp; intros m2 _ Hc2. cbn beta iota.
  wp_step.
  apply wp_mono with (1 := steps_loop_sends session _ (m2, rs1)).
  intros [[]|e] [m3 rs3] H3; cbn beta iota.
  2:{ wp_step. apply log_wp; intros m4 _ Hc4. split; [reflexivity|].
      apply loop_sends_trans with (m1, rs1); [exact H1|].
      apply loop_sends_trans with (m2, rs1);
        [now apply (loop_sends_log (m1, rs1))|].
      apply loop_sends_trans with (m3, rs3); [exact H3|].
      now apply (loop_sends_log (m3, rs3)). }
  assert (H13 : loop_sends (m, rs) (m3, rs3)).
  { apply loop_sends_trans with (m1, rs1); [exact H1|].
    apply loop_sends_trans with (m2, rs1);
      [now apply (loop_sends_log (m1, rs1))|exact H3]. }
  destruct (nonempty (teardown_steps sc)).
  - wp_step. wp_step. apply log_wp; intros m4 _ Hc4. cbn beta iota.
    apply wp_mono with (1 := teardown_loop_sends session _ (m4, rs3)).
    intros [[]|e] fr' H5; cbn beta iota.
    + split; [reflexivity|].
      apply loop_sends_trans with (m3, rs3); [exact H13|].
      apply loop_sends_trans with (m4, rs3);
        [now apply (loop_sends_log (m3, rs3))|exact H5].
    + wp_step. apply log_wp; intros m6 _ Hc6. split; [reflexivity|].
      apply loop_sends_trans with (m3, rs3); [exact H13|].
      apply loop_sends_trans with (m4, rs3);
        [now apply (loop_sends_log (m3, rs3))|].
      apply loop_sends_trans with fr'; [exact H5|].
      now apply (loop_sends_log fr').
  - wp_step. split; [reflexivity|exact H13].
Qed.

(** X29: every request of a scenario run belongs to a step that has a
    result.  When [run_scenario] returns, the requests it sent on the
    channel are, in order, those of the steps of its step results: for
    each result the request of its step's action, if the action has
    one, followed by one browser_screenshot only when the result is not
    "passed" and the step asks for a screenshot on failure.  Nothing
    else is sent; in particular the steps that were skipped after a
    critical failure, which have no result, send nothing.  So the
    requests number at most twice the step results, and a run that
    produced no step result sent nothing. *)
Theorem scenario_requests_are_bounded sc (m : Machine Env) tr m' :
  run_scenario H sc m = (Return tr, m') ->
  exists ls,
    Forall2 step_sent (step_results tr) ls /\
    calls m' = calls m ++ concat ls /\
    (length (concat ls) <= 2 * total_steps tr)%nat /\
    (step_results tr = [] -> calls m' = calls m).
Proof.
  intros Hrun.
  cut (exists ls, Forall2 step_sent (step_results tr) ls /\
                  calls m' = calls m ++ concat ls).
  { intros (ls & Hs & Hc). exists ls. split; [exact Hs|]. split; [exact Hc|].
    split; [exact (sent_length _ _ Hs)|].
    intros Hnil. rewrite Hnil in Hs. inversion Hs; subst.
    now rewrite Hc, app_nil_r. }
  revert Hrun.
  cut (wp (run_scenario H sc) m
         (fun o m' => forall tr, o = Return tr ->
            exists ls, Forall2 step_sent (step_results tr) ls /\
                       calls m' = calls m ++ concat ls)).
  { intros Hwp Hrun. exact (wp_elim _ _ _ _ _ Hwp Hrun tr eq_refl). }
  unfold run_scenario. wp_step.
  apply scenario_prologue_wp. intros t0 _ Hc0. cbn beta iota.
  wp_step. wp_step. apply with_session_wp; cbn [fst snd].
  - intros e w' E tr0 [=].
  - intros s w' E.
    apply wp_mono
      with (1 := scenario_body_sends s sc
                   (set_world w' (scenario_entry H sc m), [])).
    intros o [m1 rs] (-> & new & ls & Hnew & Hs & Hc). cbn [fst snd] in *.
    cbn beta iota. wp_walk. simpl in *. intros tr0 [= <-].
    cbn [step_results]. subst rs. exists ls. split; [exact Hs|]. congruence.
Qed.

End RequestCount.

(* ===================================================================== *)
(** ** The convenience methods *)
(* ===================================================================== *)

Section Convenience.
Import Scenarios Eff Agent Spec.
Context {Env Sess : Type} (H : Host Env Sess).

Lemma call_result_wp session nm args (m : Machine Env) Q :
  (forall o m',
     self m' = self m -> calls m' = calls m ++ [(nm, args)] ->
     (forall resp, o = Return resp ->
        exists res w w',
          call_tool H session nm args w = (Return res, w') /\
          resp = normalize (cr_content res)) ->
     Q o m') ->
  wp (_call_tool_in_session H session nm args) m Q.
Proof.
  intros HQ. unfold wp, _call_tool_in_session, bind, session_call_tool, ret.
  destruct (call_tool H session nm args (world m)) as [[res|e] w] eqn:E;
    simpl; apply HQ; try reflexivity.
  - intros resp [= <-]. eauto.
  - intros resp [=].
Qed.

Lemma str_in_nil (h : string) : PyStr.str_in EmptyString h = true.
Proof. now destruct h. Qed.

Lemma str_in_empty_hay (n : string) :
  PyStr.str_in n EmptyString = true -> n = EmptyString.
Proof. now destruct n. Qed.

Lemma lower_eq_nil (s : string) : PyStr.lower s = EmptyString -> s = EmptyString.
Proof. now destruct s. Qed.

(** X12: [navigate] records the address only on success.  The method
    changes nothing in the agent but [current_url], which ends as the
    URL or as its old value.  When the method returns the browser's
    answer, [current_url] is the URL exactly when that answer is a
    success and is its old value otherwise, and exactly one request,
    browser_navigate with that URL, has been sent.  However the method
    ends, that one request is all it sends, unless the session could
    not be opened, in which case the exception of the opening is raised
    and nothing is sent. *)
Theorem navigate_records_address_on_success url (m : Machine Env) o m' :
  navigate H url m = (o, m') ->
  config (self m') = config (self m) /\
  test_results (self m') = test_results (self m) /\
  (current_url (self m') = url \/
   current_url (self m') = current_url (self m)) /\
  (forall resp,
     o = Return resp ->
     current_url (self m')
     = (if success resp then url else current_url (self m)) /\
     calls m' = calls m ++ [("browser_navigate", {[ "url" := PStr url ]})]) /\
  (calls m' = calls m ++ [("browser_navigate", {[ "url" := PStr url ]})] \/
   calls m' = calls m /\
   exists e c w w', o = Raise e /\ session_enter H c w = (Raise e, w')).
Proof.
  intros Hrun. pattern o, m'. eapply wp_elim; [|exact Hrun]. clear Hrun.
  unfold navigate.
  wp_step. apply log_wp; intros m0 Hs0 Hc0. cbn beta iota.
  wp_step. apply with_session_wp; cbn [fst snd].
  - intros e w' E. simpl. rewrite Hs0, Hc0.
    split; [reflexivity|]. split; [reflexivity|]. split; [now right|].
    split; [intros resp [=]|]. right. split; [reflexivity|]. eauto 6.
  - intros s w' E. wp_step. wp_step. apply call_wp.
    intros [resp|e] m1 Hs1 Hc1; cbn beta iota; simpl in Hs1, Hc1.
    + wp_step. destruct (success resp) eqn:Hok.
      * wp_step. wp_step. cbn beta iota. wp_step. simpl.
        rewrite Hs1, Hc1, Hs0, Hc0.
        split; [reflexivity|]. split; [reflexivity|]. split; [now left|].
        split; [|now left]. intros ? [= <-]. now rewrite Hok.
      * wp_step. cbn beta iota. wp_step. simpl.
        rewrite Hs1, Hc1, Hs0, Hc0.
        split; [reflexivity|]. split; [reflexivity|]. split; [now right|].
        split; [|now left]. intros ? [= <-]. now rewrite Hok.
    + simpl. rewrite Hs1, Hc1, Hs0, Hc0.
      split; [reflexivity|]. split; [reflexivity|]. split; [now right|].
      split; [intros ? [=]|now left].
Qed.

(** X13: [assert_text_present].  The method sends one
    browser_get_content request on a session of its own and leaves the
    agent object unchanged.  It answers true for the empty text whenever
    it returns, even when the page could not be read; for any other
    text a true answer means that the request was answered without the
    error marker and that the first part of the answer contains the
    text, compared in lower case. *)
Theorem assert_text_present_answers text (m : Machine Env) o m' :
  assert_text_present H text m = (o, m') ->
  self m' = self m /\
  (calls m' = calls m ++ [("browser_get_content", ∅)] \/
   calls m' = calls m /\ exists e, o = Raise e) /\
  (text = EmptyString -> forall b, o = Return b -> b = true) /\
  (text <> EmptyString -> o = Return true ->
   exists s res w w',
     call_tool H s "browser_get_content" ∅ w = (Return res, w') /\
     success (normalize (cr_content res)) = true /\
     PyStr.str_in (PyStr.lower text)
       (PyStr.lower (first_text (content (normalize (cr_content res)))))
     = true).
Proof.
  intros Hrun. pattern o, m'. eapply wp_elim; [|exact Hrun]. clear Hrun.
  unfold assert_text_present, get_content.
  wp_step. wp_step. apply with_session_wp; cbn [fst snd].
  - intros e w' E. simpl. repeat split; try reflexivity.
    + right. eauto.
    + intros _ b [=].
    + intros _ [=].
  - intros s w' E. wp_step. wp_step. apply call_result_wp.
    intros [resp|e] m1 Hs1 Hc1 Hres; cbn beta iota; simpl in Hs1, Hc1.
    + destruct (Hres resp eq_refl) as (res & w & w2 & Ecall & ->).
      destruct (success _ && nonempty _) eqn:Hok; wp_step; cbn beta iota;
        wp_step; simpl; rewrite Hs1, Hc1;
        (split; [reflexivity|]); (split; [now left|]); split.
      * intros -> b [= <-]. first [reflexivity|apply str_in_nil].
      * intros _ [= Hin]. apply andb_true_iff in Hok as [Hok _].
        exists s, res, w, w2. auto.
      * intros -> b [= <-]. first [reflexivity|apply str_in_nil].
      * intros Hne [= Hin]. apply str_in_empty_hay, lower_eq_nil in Hin.
        contradiction.
    + simpl. rewrite Hs1, Hc1. split; [reflexivity|]. split; [now left|].
      split; [intros _ b [=]|intros _ [=]].
Qed.

End Convenience.

(* ===================================================================== *)
(** ** Screenshots *)
(* ===================================================================== *)

Section Screenshots.
Import Scenarios Eff Agent Spec.
Context {Env Sess : Type} (H : Host Env Sess).

Lemma save_first_image_no_image parts nm (fr : Frame) :
  Forall (fun c => c_text c = None -> c_data c = None) parts ->
  save_first_image H (collect parts) nm fr = (Return tt, fr).
Proof.
  induction 1 as [|c parts Hc _ IH]; simpl; [reflexivity|].
  destruct (c_text c) as [t|]; simpl; [exact IH|].
  rewrite (Hc eq_refl). exact IH.
Qed.

Lemma dispatch_screenshot_no_image session stp (fr : Frame) res w' :
  action stp = "screenshot" ->
  call_tool H session "browser_screenshot" ∅ (world (fst fr)) = (Return res, w') ->
  existsb offending (cr_content res) = false ->
  Forall (fun c => c_text c = None -> c_data c = None) (cr_content res) ->
  dispatch H session stp fr
  = (Return (normalize (cr_content res)),
     (mkMachine (self (fst fr)) (out (fst fr))
        (calls (fst fr) ++ [("browser_screenshot", ∅)]) w', snd fr)).
Proof.
  intros Hact Hcall Hoff Hno. unfold dispatch, is_action. rewrite Hact.
  cbn [String.eqb Ascii.eqb Bool.eqb]. destruct fr as [m0 r0].
  cbn [fst snd] in *.
  unfold lift, _call_tool_in_session, session_call_tool, ret, bind.
  cbn beta iota. cbn [fst snd]. rewrite Hcall. cbn beta iota.
  rewrite normalize_spec. cbn [success content fst snd].
  rewrite Hoff. cbn [negb].
  rewrite save_first_image_no_image by exact Hno. reflexivity.
Qed.

(** X14: a screenshot step can pass without a screenshot.  When the
    browser answers a screenshot step with parts none of which is an
    image and none of which carries the error marker, the step ends
    "passed" although no file was written: its [screenshot] field stays
    empty, and the only request sent is the browser_screenshot. *)
Theorem screenshot_step_passes_without_image session stp (m : Machine Env)
    res w' :
  action stp = "screenshot" ->
  call_tool H session "browser_screenshot" ∅
    (world (fst (dispatch_entry H stp m))) = (Return res, w') ->
  existsb offending (cr_content res) = false ->
  Forall (fun c => c_text c = None -> c_data c = None) (cr_content res) ->
  exists r m',
    run_step_in_session H session stp m = (Return r, m') /\
    status r = "passed" /\ screenshot r = EmptyString /\
    calls m' = calls m ++ [("browser_screenshot", ∅)].
Proof.
  intros Hact Hcall Hoff Hno.
  destruct (run_step_cases H session stp m) as (r & m' & Hrun & _ & Hc).
  destruct (dispatch_entry_same H stp m) as (_ & Hc0 & Hr0).
  rewrite (dispatch_screenshot_no_image session stp _ res w' Hact Hcall Hoff Hno)
    in Hc.
  rewrite normalize_spec in Hc. cbn [success fst snd calls] in Hc.
  rewrite Hoff in Hc. cbn [negb orb] in Hc.
  destruct Hc as (Hs & _ & Hcm & _ & Hshot).
  exists r, m'. split; [exact Hrun|]. split; [exact Hs|].
  split; [now rewrite Hshot, Hr0|]. now rewrite Hcm, Hc0.
Qed.

Lemma startswith_append_char (n rest : string) (c : ascii) :
  n <> EmptyString ->
  PyStr.startswith (n +:+ rest) (String c EmptyString)
  = PyStr.startswith n (String c EmptyString).
Proof.
  destruct n as [|d n]; [congruence|]. intros _. rewrite append_cons.
  unfold PyStr.startswith. simpl.
  destruct (ascii_dec c d); [|reflexivity]. now destruct n, rest.
Qed.

(** X15: where a screenshot is written.  [_save_screenshot] writes the
    data to [os.path.join(screenshot_dir, name_timestamp.png)], the
    timestamp being that of the clock read at the start, and returns
    that path: when it returns [p], the one effect it had after reading
    the clock is the write of the data at [p], which succeeded, and the
    agent and the requests sent are as before.  When the name starts
    with '/', as the target of a screenshot step may, the directory is
    dropped and the file is written at the absolute path the name
    gives; otherwise, for a non-empty directory, the path starts with
    the directory.  The name of a failure screenshot starts with
    "failure_", so it is of the second kind. *)
Theorem screenshot_path_follows_name data name (m : Machine Env) p m' :
  _save_screenshot H data name m = (Return p, m') ->
  let file := name +:+ "_"
              +:+ strftime H "%Y%m%d_%H%M%S" (fst (clock H (world m)))
              +:+ ".png" in
  let dir := screenshot_dir (config (self m)) in
  p = path_join dir file /\
  (exists u,
     write_png H p data (snd (clock H (world m))) = (Return u, world m')) /\
  self m' = self m /\ calls m' = calls m /\
  (PyStr.startswith name "/" = true -> p = file) /\
  (PyStr.startswith name "/" = false -> dir <> EmptyString ->
   String.prefix dir p = true) /\
  PyStr.startswith ("failure_" +:+ name) "/" = false.
Proof.
  unfold _save_screenshot, bind, now. intros Hrun.
  destruct (clock H (world m)) as [t w] eqn:E. cbn [fst snd] in *.
  cbn [self set_world config world] in Hrun.
  destruct (write_png H _ data _) as [[u|e] w2] eqn:Ew; [|discriminate].
  injection Hrun as <- <-. cbn zeta. split; [reflexivity|].
  split; [exists u; exact Ew|]. split; [reflexivity|]. split; [reflexivity|].
  assert (Hfile : forall rest,
            PyStr.startswith (name +:+ "_" +:+ rest) "/"
            = PyStr.startswith name "/").
  { intros rest. destruct name as [|d n]; [reflexivity|].
    apply startswith_append_char. discriminate. }
  unfold path_join. rewrite Hfile. split; [|split].
  - now intros ->.
  - intros -> Hdir. apply String.eqb_neq in Hdir. rewrite Hdir.
    destruct (PyStr.endswith _ "/"); [apply prefix_append|].
    apply prefix_append.
  - reflexivity.
Qed.

End Screenshots.

(* ===================================================================== *)
(** ** Dictionaries, templates and tags *)
(* ===================================================================== *)

Section DataProperties.
Import Scenarios Spec.

Lemma step_reset_kw n a t v tm c : step_reset (TestStep_kw n a t v tm c)
                                   = TestStep_kw n a t v tm c.
Proof. reflexivity. Qed.

Lemma map_step_reset_id (l : list TestStep) :
  Forall (fun s => step_reset s = s) l -> map step_reset l = l.
Proof. induction 1 as [|s l Hs _ IH]; simpl; congruence. Qed.

Lemma scenario_reset_kw n d tg st :
  Forall (fun s => step_reset s = s) st ->
  scenario_reset (TestScenario_kw n d tg st) = TestScenario_kw n d tg st.
Proof.
  intros Hst. unfold scenario_reset, TestScenario_kw. simpl.
  now rewrite (map_step_reset_id _ Hst).
Qed.

Lemma verify_elements_reset i els :
  Forall (fun s => step_reset s = s) (verify_elements i els).
Proof.
  revert i. induction els as [|e els IH]; intros i; simpl; constructor; auto.
Qed.

(** X16: the templates survive the dictionary round trip.  Every
    scenario built by [ScenarioTemplates.login_test], [page_load_test],
    [form_validation_test] and [accessibility_check] is rebuilt exactly
    by [TestScenario.from_dict] from its [to_dict], for all arguments:
    the templates leave at their defaults the fields that [to_dict] does
    not write. *)
Theorem templates_survive_round_trip :
  (forall url us ps ss u p ok,
     scenario_from_dict (scenario_to_dict (login_test url us ps ss u p ok))
     = inr (login_test url us ps ss u p ok)) /\
  (forall url els,
     scenario_from_dict (scenario_to_dict (page_load_test url els))
     = inr (page_load_test url els)) /\
  (forall url ss errs,
     scenario_from_dict (scenario_to_dict (form_validation_test url ss errs))
     = inr (form_validation_test url ss errs)) /\
  (forall url,
     scenario_from_dict (scenario_to_dict (accessibility_check url))
     = inr (accessibility_check url)).
Proof.
  repeat split; intros; rewrite scenario_from_to_dict; apply (f_equal inr);
    apply scenario_reset_kw; try (repeat constructor; fail).
  - repeat (apply Forall_cons; split; [reflexivity|]).
    destruct els; [apply verify_elements_reset|constructor].
  - repeat (apply Forall_cons; split; [reflexivity|]).
    apply Forall_app. split; [|repeat constructor].
    apply Forall_forall. intros s Hs. apply list_elem_of_fmap in Hs.
    now destruct Hs as (sel & -> & _).
Qed.

(** X17: the dictionary form is stable.  Rebuilding a step or a scenario
    from its dictionary may change the object (the unwritten fields are
    reset), but never its dictionary: [to_dict] of the rebuilt object is
    the dictionary it was built from, and a second round trip returns
    the rebuilt object itself. *)
Theorem dict_form_is_stable :
  (forall s : TestStep,
     exists s', step_from_dict (step_to_dict s) = inr s' /\
                step_to_dict s' = step_to_dict s /\
                step_from_dict (step_to_dict s') = inr s') /\
  (forall sc : TestScenario,
     exists sc', scenario_from_dict (scenario_to_dict sc) = inr sc' /\
                 scenario_to_dict sc' = scenario_to_dict sc /\
                 scenario_from_dict (scenario_to_dict sc') = inr sc').
Proof.
  assert (Hd : forall s, step_to_dict (step_reset s) = step_to_dict s)
    by reflexivity.
  assert (Hr : forall s, step_reset (step_reset s) = step_reset s)
    by reflexivity.
  assert (Hl : forall l : list TestStep,
             map (fun x => PDict (step_to_dict x)) (map step_reset l)
             = map (fun x => PDict (step_to_dict x)) l).
  { intros l. rewrite map_map. apply map_ext. intros s. now rewrite Hd. }
  split.
  - intros s. exists (step_reset s). rewrite !step_from_to_dict, Hr. auto.
  - intros sc. exists (scenario_reset sc). rewrite !scenario_from_to_dict.
    split; [reflexivity|]. split.
    + unfold scenario_to_dict, scenario_reset. simpl. now rewrite !Hl.
    + f_equal. unfold scenario_reset. simpl. rewrite !map_map.
      f_equal; apply map_ext; intros s; apply Hr.
Qed.

Lemma required_name_missing (d : gmap string PyVal) :
  d !! "name" = None ->
  required d "name" as_str = inl ("missing required argument: name").
Proof. unfold required. now intros ->. Qed.

(** X18: [TestStep.from_dict] is strict.  A dictionary with a key that
    is no field of [TestStep], or without "name", or without "action",
    is rejected with an exception, where [TestScenario.from_dict]
    would ignore the key or fill in a default. *)
Theorem step_from_dict_is_strict (d : gmap string PyVal) :
  (exists k, k ∈ dom d /\ k ∉ TestStep_fields) \/
  d !! "name" = None \/ d !! "action" = None ->
  exists e, step_from_dict d = inl e.
Proof.
  intros Hbad. unfold step_from_dict.
  destruct (bool_decide (dom d ⊆ TestStep_fields)) eqn:Hdom; [|eauto].
  apply bool_decide_eq_true_1 in Hdom.
  destruct Hbad as [(k & Hk & Hnk)|[Hn|Ha]].
  - destruct Hnk. now apply Hdom.
  - unfold required at 1. rewrite Hn. simpl. eauto.
  - unfold required. rewrite Ha.
    destruct (d !! "name") as [[]|]; simpl; eauto.
Qed.

(** X19: [TestScenario.from_dict] is lenient.  Only "name" is required:
    a dictionary holding just a name yields the scenario with every
    other field at its default, a dictionary without "name" is
    rejected, and a key other than the seven that are read is ignored,
    whatever its value. *)
Theorem scenario_from_dict_is_lenient :
  (forall n, scenario_from_dict {[ "name" := PStr n ]}
             = inr (TestScenario_kw n EmptyString [] [])) /\
  (forall d, d !! "name" = None -> exists e, scenario_from_dict d = inl e) /\
  (forall d k v,
     ~ In k ["name"; "description"; "steps"; "setup_steps"; "teardown_steps";
             "tags"; "priority"] ->
     scenario_from_dict (<[k := v]> d) = scenario_from_dict d).
Proof.
  split; [|split].
  - intros n. unfold scenario_from_dict, required, kwarg.
    simplify_map_eq. reflexivity.
  - intros d Hn. unfold scenario_from_dict, required. rewrite Hn.
    simpl. eauto.
  - intros d k v Hk. simpl in Hk.
    unfold scenario_from_dict, required, kwarg.
    rewrite !lookup_insert_ne by (intros ->; tauto). reflexivity.
Qed.

Lemma has_tag_In tag s : has_tag tag s = true <-> In tag (tags s).
Proof.
  unfold has_tag. rewrite existsb_exists. split.
  - intros (x & Hx & Heq). apply String.eqb_eq in Heq. now subst.
  - intros Hin. exists tag. split; [exact Hin|apply String.eqb_refl].
Qed.

Lemma filter_sublist {A} (p : A -> bool) (l : list A) :
  List.filter p l `sublist_of` l.
Proof.
  induction l as [|x l IH]; simpl; [constructor|].
  destruct (p x); now constructor.
Qed.

(** X20: [filter_by_tag].  The scenarios returned are exactly those of
    the suite that carry the tag, in the suite's order; a scenario added
    with [add_scenario] comes last in the result if it carries the tag
    and leaves the result unchanged if it does not; and a suite's own
    [tags] play no part. *)
Theorem filter_by_tag_selects_tagged (su : TestSuite) (tag : string) :
  (forall s, In s (filter_by_tag su tag) <->
             In s (scenarios su) /\ In tag (tags s)) /\
  filter_by_tag su tag `sublist_of` scenarios su /\
  (forall s, filter_by_tag (add_scenario su s) tag
             = filter_by_tag su tag ++ (if has_tag tag s then [s] else [])) /\
  (forall tg, filter_by_tag
                {| su_name := su_name su; su_description := su_description su;
                   scenarios := scenarios su; parallel := parallel su;
                   stop_on_failure := stop_on_failure su; su_tags := tg |} tag
              = filter_by_tag su tag).
Proof.
  unfold filter_by_tag. split; [|split; [|split]].
  - intros s. rewrite List.filter_In, has_tag_In. reflexivity.
  - apply filter_sublist.
  - intros s. simpl. rewrite List.filter_app. simpl.
    now destruct (has_tag tag s).
  - reflexivity.
Qed.

End DataProperties.

(* ===================================================================== *)
(** ** The assertion library *)
(* ===================================================================== *)

Section AssertionProperties.
Import Regex Assertions Spec.

Lemma handle_logged self r : logged self (_handle_result self r).
Proof.
  unfold logged, _handle_result. simpl.
  destruct (passed r) eqn:Hp, (soft_mode self) eqn:Hs; simpl;
    (split; [try assumption; reflexivity|]).
  - exists []. rewrite app_nil_r. auto.
  - exists []. rewrite app_nil_r. auto.
  - exists [r]. auto.
  - exists []. rewrite app_nil_r. auto.
Qed.

Lemma logged_hard self out :
  logged self out -> soft_mode self = false -> fst out = self.
Proof.
  intros (Hs & tail & Hf & Hl & _) Hh. rewrite Hh in Hl. simpl in Hl.
  destruct tail; [|discriminate]. rewrite app_nil_r in Hf.
  destruct out as [[s f] b], self as [s0 f0]. simpl in *. congruence.
Qed.

Lemma logged_only_failures self out :
  logged self out -> only_failures self -> only_failures (fst out).
Proof.
  unfold only_failures. intros (_ & tail & -> & _ & Ht) Hs.
  apply Forall_app. auto.
Qed.

(** X21: failed checks are silent in hard mode.  For the checks
    [contains], [not_contains], [is_valid_url], [html_contains_text],
    [all_match] and [any_match]: on an object in the default hard mode a
    failed check returns false and leaves the object exactly as it was;
    in soft mode a check appends one result when it fails and nothing
    when it passes, so the failure log keeps holding failed results
    only, in call order. *)
Theorem failed_checks_are_silent_in_hard_mode (self : Assertions.Assertions)
    (a b msg : string) (items : list string) (p : string -> bool) :
  let outs := [contains self a b msg; not_contains self a b msg;
               is_valid_url self a msg; html_contains_text self a b msg;
               all_match self items p msg; any_match self items p msg] in
  Forall (logged self) outs /\
  (soft_mode self = false -> Forall (fun out => fst out = self) outs) /\
  (only_failures self -> Forall (fun out => only_failures (fst out)) outs).
Proof.
  intros outs.
  assert (Hl : Forall (logged self) outs).
  { subst outs. unfold contains, not_contains, is_valid_url,
      html_contains_text, all_match, any_match.
    repeat (constructor; [apply handle_logged|]). constructor. }
  split; [exact Hl|]. split; intros Hx.
  - eapply Forall_impl; [exact Hl|]. intros out Ho. now apply (logged_hard self).
  - eapply Forall_impl; [exact Hl|]. intros out Ho.
    now apply (logged_only_failures self).
Qed.

(** X22: the fluent chain reports nothing.  [expect(v).to_contain(x)]
    returns the chain it was called on, with an empty failure list,
    whether or not [v] contains [x]: the chain's assertion object is in
    hard mode and the outcome of the check is dropped.  Only a chain
    built on a soft-mode object records the failure. *)
Theorem expect_chain_reports_nothing (v x : string) :
  to_contain (expect v) x = expect v /\
  (forall chain, soft_mode (assertions chain) = false ->
                 to_contain chain x = chain) /\
  (forall chain, soft_mode (assertions chain) = true ->
                 PyStr.str_in x (value chain) = false ->
                 length (failures (assertions (to_contain chain x)))
                 = S (length (failures (assertions chain)))).
Proof.
  assert (Hh : forall chain, soft_mode (assertions chain) = false ->
                             to_contain chain x = chain).
  { intros [val asr] Hs. unfold to_contain. cbn [value assertions] in *.
    f_equal. unfold contains.
    exact (logged_hard asr _ (handle_logged asr _) Hs). }
  split; [now apply Hh|]. split; [exact Hh|].
  intros [val asr] Hs Hin. unfold to_contain, contains, _handle_result.
  simpl in *. rewrite Hin, Hs. simpl. rewrite length_app. simpl. lia.
Qed.

Lemma substring_prefix (n : nat) (s : string) :
  String.prefix (String.substring 0 n s) s = true /\
  (String.length (String.substring 0 n s) <= n)%nat.
Proof.
  revert s. induction n as [|n IH]; intros [|c s]; simpl; try (split; [reflexivity|lia]).
  destruct (IH s) as [Hp Hl]. destruct (ascii_dec c c); [|congruence].
  split; [exact Hp|lia].
Qed.

Lemma substring_length (n : nat) (s : string) :
  String.length (String.substring 0 n s) = Nat.min n (String.length s).
Proof.
  revert s. induction n as [|n IH]; intros [|c s]; simpl; try reflexivity.
  now rewrite IH.
Qed.

Lemma prefix_refl (s : string) : String.prefix s s = true.
Proof.
  induction s as [|c s IH]; simpl; [reflexivity|].
  now destruct (ascii_dec c c).
Qed.

(** X23: [contains] and [not_contains].  On the same haystack and
    needle the two checks give opposite answers; the empty needle is
    contained in every haystack; and the [actual] value recorded with
    the result is the haystack itself when it has at most 100
    characters, and otherwise its first 100 characters, no fewer. *)
Theorem contains_and_not_contains (self : Assertions.Assertions)
    (haystack needle msg msg' : string) :
  snd (not_contains self haystack needle msg')
  = negb (snd (contains self haystack needle msg)) /\
  snd (contains self haystack EmptyString msg) = true /\
  (soft_mode self = true ->
   snd (contains self haystack needle msg) = false ->
   exists r shown,
     failures (fst (contains self haystack needle msg))
     = failures self ++ [r] /\
     actual r = PStr shown /\
     String.prefix shown haystack = true /\
     String.length shown = Nat.min 100 (String.length haystack) /\
     ((String.length haystack <= 100)%nat -> shown = haystack)).
Proof.
  split; [reflexivity|]. split; [apply str_in_nil|].
  unfold contains, _handle_result. simpl. intros -> ->. simpl.
  eexists _, (sample haystack). split; [reflexivity|].
  split; [reflexivity|]. unfold sample.
  destruct (Nat.ltb_spec 100 (String.length haystack)) as [Hlt|Hge].
  - destruct (substring_prefix 100 haystack) as [Hp Hl].
    split; [exact Hp|]. split; [apply substring_length|]. lia.
  - split; [apply prefix_refl|].
    split; [exact (eq_sym (Nat.min_r 100 _ Hge))|reflexivity].
Qed.

Lemma forallb_count {A} (p : A -> bool) (l : list A) :
  forallb p l = true <-> length (List.filter p l) = length l.
Proof.
  induction l as [|x l IH]; simpl; [tauto|].
  pose proof (filter_length_le p l).
  destruct (p x); simpl; [rewrite IH; lia|]. split; [discriminate|lia].
Qed.

Lemma existsb_count {A} (p : A -> bool) (l : list A) :
  existsb p l = true <-> (0 < length (List.filter p l))%nat.
Proof.
  induction l as [|x l IH]; simpl; [split; [discriminate|lia]|].
  destruct (p x); simpl; [split; [lia|reflexivity]|exact IH].
Qed.

Lemma existsb_negb_forallb {A} (p : A -> bool) (l : list A) :
  existsb p l = negb (forallb (fun x => negb (p x)) l).
Proof.
  induction l as [|x l IH]; simpl; [reflexivity|].
  rewrite IH. now destruct (p x).
Qed.

(** X24: [all_match] and [any_match].  With k the number of items that
    satisfy the predicate, the number shown in the recorded "k/n
    matched": [all_match] passes exactly when k equals the length of the
    collection and [any_match] exactly when k is positive; [any_match]
    is the negation of [all_match] on the negated predicate; on the
    empty collection [all_match] passes and [any_match] fails. *)
Theorem all_match_and_any_match_count {A} (self : Assertions.Assertions)
    (items : list A) (p : A -> bool) (msg : string) :
  (snd (all_match self items p msg) = true <->
   length (List.filter p items) = length items) /\
  (snd (any_match self items p msg) = true <->
   (0 < length (List.filter p items))%nat) /\
  snd (any_match self items p msg)
  = negb (snd (all_match self items (fun x => negb (p x)) msg)) /\
  snd (all_match self [] p msg) = true /\
  snd (any_match self [] p msg) = false.
Proof.
  unfold all_match, any_match, _handle_result. simpl.
  split; [apply forallb_count|]. split; [apply existsb_count|].
  split; [apply existsb_negb_forallb|]. split; reflexivity.
Qed.

Lemma opens_any (t : string) :
  opens t = true -> PyStr.any_char is_gt t = true.
Proof.
  destruct t as [|d t]; [discriminate|]. unfold opens.
  intros Ho. now apply andb_true_iff in Ho.
Qed.

Lemma strip_any_gt (b : bool) (s : string) :
  PyStr.any_char is_gt (strip b s) = true -> PyStr.any_char is_gt s = true.
Proof.
  revert b. induction s as [|c t IH]; intros b; simpl; [now destruct b|].
  destruct b.
  - intros Hs. rewrite (IH _ Hs). apply orb_true_r.
  - destruct (is_lt c && opens t).
    + intros Hs. rewrite (IH _ Hs). apply orb_true_r.
    + simpl. intros Hs. apply orb_true_iff in Hs as [Hc|Hs].
      * now rewrite Hc.
      * rewrite (IH _ Hs). apply orb_true_r.
Qed.

Lemma lt_not_gt (c : ascii) : is_lt c = true -> is_gt c = false.
Proof.
  unfold is_lt, is_gt. intros Hc. apply Ascii.eqb_eq in Hc. now subst.
Qed.

Lemma opens_strip (t : string) :
  opens t = false -> opens (strip false t) = false.
Proof.
  intros Ho. destruct (opens (strip false t)) eqn:Hs; [|reflexivity].
  destruct t as [|d t]; [discriminate Hs|].
  unfold opens in Ho. simpl in Hs.
  destruct (is_gt d) eqn:Hd; simpl in Ho.
  - assert (Hlt : is_lt d = false).
    { destruct (is_lt d) eqn:Hl; [|reflexivity].
      apply lt_not_gt in Hl. congruence. }
    rewrite Hlt in Hs. simpl in Hs. unfold opens in Hs.
    rewrite Hd in Hs. discriminate.
  - assert (Hany : PyStr.any_char is_gt (String d t) = true).
    { apply (strip_any_gt false). simpl. now apply opens_any. }
    simpl in Hany. congruence.
Qed.

Lemma strip_tagless (b : bool) (s : string) : tagless (strip b s) = true.
Proof.
  revert b. induction s as [|c t IH]; intros b; simpl; [now destruct b|].
  destruct b; [apply IH|].
  destruct (is_lt c && opens t) eqn:Ho; [apply IH|].
  simpl. rewrite IH, andb_true_r.
  destruct (is_lt c); [|reflexivity]. simpl in *.
  now rewrite (opens_strip t Ho).
Qed.

Lemma tagless_strip (s : string) : tagless s = true -> strip false s = s.
Proof.
  induction s as [|c t IH]; simpl; [reflexivity|].
  intros Ht. apply andb_true_iff in Ht as [Hc Ht].
  apply negb_true_iff in Hc. rewrite Hc. now rewrite (IH Ht).
Qed.

Lemma opens_prefix (n h : string) :
  String.prefix n h = true -> opens n = true -> opens h = true.
Proof.
  intros Hp Ho. pose proof (prefix_any_char is_gt n h Hp (opens_any n Ho)) as Hany.
  destruct n as [|c n]; [discriminate|]. destruct h as [|d h]; [discriminate|].
  simpl in Hp. destruct (ascii_dec c d) as [->|]; [|discriminate].
  unfold opens in *. apply andb_true_iff in Ho as [Hd _].
  now rewrite Hd, Hany.
Qed.

Lemma tagless_prefix (n h : string) :
  String.prefix n h = true -> tagless h = true -> tagless n = true.
Proof.
  revert h. induction n as [|c n IH]; intros [|d h] Hp Ht; simpl in *;
    try reflexivity; try discriminate.
  destruct (ascii_dec c d) as [->|]; [|discriminate].
  apply andb_true_iff in Ht as [Hc Ht]. rewrite (IH h Hp Ht), andb_true_r.
  destruct (is_lt d); [|reflexivity]. simpl in *.
  destruct (opens n) eqn:Ho; [|reflexivity].
  now rewrite (opens_prefix n h Hp Ho) in Hc.
Qed.

Lemma tagless_str_in (n h : string) :
  PyStr.str_in n h = true -> tagless h = true -> tagless n = true.
Proof.
  induction h as [|d h IH]; intros Hin Ht.
  - destruct n; [reflexivity|discriminate Hin].
  - cbn [PyStr.str_in] in Hin. apply orb_true_iff in Hin as [Hp|Hin].
    + exact (tagless_prefix n _ Hp Ht).
    + simpl in Ht. apply andb_true_iff in Ht as [_ Ht]. now apply IH.
Qed.

(** X25: [html_contains_text] never finds markup.  The text is looked
    for in the document with every tag removed, a tag being '<', at
    least one character other than '>', and the next '>'.  So a text
    that itself contains such a tag is found in no document; in a
    document without tags the check is plain containment; and removing
    the tags beforehand does not change the answer. *)
Theorem html_text_search_ignores_markup (self : Assertions.Assertions)
    (html text msg : string) :
  (tagless text = false ->
   snd (html_contains_text self html text msg) = false) /\
  (tagless html = true ->
   snd (html_contains_text self html text msg) = PyStr.str_in text html) /\
  snd (html_contains_text self (strip false html) text msg)
  = snd (html_contains_text self html text msg).
Proof.
  unfold html_contains_text, _handle_result. simpl. split; [|split].
  - intros Ht. destruct (PyStr.str_in text (strip false html)) eqn:Hin;
      [|reflexivity].
    apply tagless_str_in in Hin; [congruence|apply strip_tagless].
  - intros Hh. now rewrite (tagless_strip html Hh).
  - now rewrite (tagless_strip _ (strip_tagless false html)).
Qed.

Lemma spaceless_set cs c :
  spaceless (Set_ cs) = true -> set_has true cs c = true ->
  is_space c = false.
Proof.
  intros Hall Hset. cbn [spaceless] in Hall. rewrite forallb_forall in Hall.
  assert (Hin : In (nat_of_ascii c) (seq 0 256)).
  { apply in_seq. pose proof (nat_ascii_bounded c). lia. }
  specialize (Hall _ Hin). rewrite ascii_nat_embedding, Hset in Hall.
  now destruct (is_space c).
Qed.

Lemma any_char_append (p : ascii -> bool) (s t : string) :
  PyStr.any_char p (s +:+ t) = PyStr.any_char p s || PyStr.any_char p t.
Proof.
  induction s as [|c s IH]; [reflexivity|].
  rewrite append_cons. simpl. now rewrite IH, orb_assoc.
Qed.

Lemma spaceless_lang r s :
  spaceless r = true -> lang true r s -> PyStr.any_char is_space s = false.
Proof.
  intros Hr Hl. revert Hr.
  induction Hl as [|cs c Hset|a b s t _ IHa _ IHb|a b s _ IH|a b s _ IH|a
                   |a s t _ IHa _ IHb];
    cbn [spaceless]; intros Hr.
  - reflexivity.
  - cbn [PyStr.any_char].
    now rewrite (spaceless_set cs c Hr Hset).
  - apply andb_true_iff in Hr as [Ha Hb].
    rewrite any_char_append, IHa, IHb; auto.
  - apply andb_true_iff in Hr as [Ha Hb]. auto.
  - apply andb_true_iff in Hr as [Ha Hb]. auto.
  - reflexivity.
  - rewrite any_char_append, IHa, IHb; auto.
Qed.

Lemma lang_dollar d :
  lang true Dollar d -> d = EmptyString \/ d = String "010"%char EmptyString.
Proof.
  unfold Dollar, Opt. intros Hd.
  inversion Hd as [| | |a b s Hs|a b s Hs| |]; subst.
  - left. now apply lang_eps_inv in Hs.
  - right. inversion Hs as [|cs c Hset| | | | |]; subst. f_equal.
    destruct c as [[] [] [] [] [] [] [] []]; vm_compute in Hset;
      try discriminate; reflexivity.
Qed.

Lemma accepted_lang (self : Assertions.Assertions) (url msg : string) :
  snd (is_valid_url self url msg) = true <->
  exists u d, url = u +:+ d /\ lang true url_pattern u /\ lang true Dollar d.
Proof.
  unfold is_valid_url, _handle_result, match_anchored. simpl snd.
  rewrite fullmatch_lang. split.
  - intros Hm. inversion Hm as [| |a b u d Hu Hd| | | |]; subst. eauto.
  - intros (u & d & -> & Hu & Hd). now constructor.
Qed.

Lemma lower_char_colon (c : ascii) :
  PyStr.lower_char c = ":"%char -> c = ":"%char.
Proof.
  destruct c as [[] [] [] [] [] [] [] []]; vm_compute; intros E;
    first [reflexivity|discriminate E].
Qed.

Lemma lower_char_slash (c : ascii) :
  PyStr.lower_char c = "/"%char -> c = "/"%char.
Proof.
  destruct c as [[] [] [] [] [] [] [] []]; vm_compute; intros E;
    first [reflexivity|discriminate E].
Qed.

Lemma lower_length (s : string) :
  String.length (PyStr.lower s) = String.length s.
Proof. induction s as [|c s IH]; simpl; [reflexivity|now rewrite IH]. Qed.

Lemma string_append_assoc (s t u : string) : (s +:+ t) +:+ u = s +:+ t +:+ u.
Proof.
  induction s as [|c s IH]; [reflexivity|].
  rewrite !append_cons. now rewrite IH.
Qed.

Lemma string_length_append (s t : string) :
  String.length (s +:+ t) = (String.length s + String.length t)%nat.
Proof.
  induction s as [|c s IH]; [reflexivity|].
  rewrite append_cons. simpl. now rewrite IH.
Qed.

Lemma lower_separator (s : string) : PyStr.lower s = "://" -> s = "://".
Proof.
  destruct s as [|a [|b [|c [|d s]]]]; simpl; try discriminate.
  intros [= Ha Hb Hc].
  now rewrite (lower_char_colon a Ha), (lower_char_slash b Hb),
    (lower_char_slash c Hc).
Qed.

(** The scheme of an accepted string. *)
Lemma accepted_scheme (u : string) :
  lang true url_pattern u ->
  exists scheme rest,
    u = scheme +:+ "://" +:+ rest /\
    (String.length scheme = 4 \/ String.length scheme = 5)%nat /\
    PyStr.startswith (PyStr.lower scheme) "http" = true.
Proof.
  unfold url_pattern. intros Hu.
  inversion Hu as [| |a b s1 r1 H1 Hr1| | | |]; subst.
  inversion Hr1 as [| |a b s2 r2 H2 Hr2| | | |]; subst.
  inversion Hr2 as [| |a b s3 r3 H3 _| | | |]; subst.
  apply (lang_lit_lower "http") in H1. apply (lang_lit_lower "://") in H3.
  apply lower_separator in H3. subst s3.
  assert (Hl1 : String.length s1 = 4%nat)
    by now rewrite <- lower_length, H1.
  exists (s1 +:+ s2), r3. rewrite string_append_assoc.
  split; [reflexivity|]. rewrite lower_append, H1, string_length_append, Hl1.
  split; [|apply (prefix_append "http")].
  inversion H2 as [| | |a b s Hs|a b s Hs| |]; subst.
  - apply lang_eps_inv in Hs as ->. now left.
  - apply (lang_lit_lower "s") in Hs. right.
    now rewrite <- lower_length, Hs.
Qed.

(** X26: what [is_valid_url] accepts.  An accepted string is a scheme
    of four or five characters that starts, up to case, with "http",
    then "://", then the rest; and it contains no whitespace character,
    except that it may end with one line feed. *)
Theorem accepted_url_shape (self : Assertions.Assertions) (url msg : string) :
  snd (is_valid_url self url msg) = true ->
  exists scheme rest d,
    url = (scheme +:+ "://" +:+ rest) +:+ d /\
    (String.length scheme = 4 \/ String.length scheme = 5)%nat /\
    PyStr.startswith (PyStr.lower scheme) "http" = true /\
    (d = EmptyString \/ d = String "010"%char EmptyString) /\
    PyStr.any_char is_space (scheme +:+ "://" +:+ rest) = false.
Proof.
  intros Hok.
  apply accepted_lang in Hok. destruct Hok as (u & d & -> & Hu & Hd).
  destruct (accepted_scheme u Hu) as (scheme & rest & Hsplit & Hlen & Hhttp).
  exists scheme, rest, d. rewrite <- Hsplit.
  split; [reflexivity|]. split; [exact Hlen|]. split; [exact Hhttp|].
  split; [now apply lang_dollar|].
  apply (spaceless_lang url_pattern); [vm_compute; reflexivity|exact Hu].
Qed.

Lemma endswith_append (u p : string) : PyStr.endswith (u +:+ p) p = true.
Proof.
  induction u as [|c u IH].
  - rewrite append_nil_l. destruct p; simpl; [reflexivity|].
    now rewrite Ascii.eqb_refl, String.eqb_refl.
  - rewrite append_cons. cbn [PyStr.endswith]. rewrite IH. apply orb_true_r.
Qed.

(** X27: a trailing line feed is accepted.  Because the pattern ends
    with [$], which also matches just before a final line feed, an
    accepted URL that does not already end with a line feed is still
    accepted with one appended. *)
Theorem url_with_trailing_newline_is_accepted (self : Assertions.Assertions)
    (url msg : string) :
  snd (is_valid_url self url msg) = true ->
  PyStr.endswith url (String "010"%char EmptyString) = false ->
  snd (is_valid_url self (url +:+ String "010"%char EmptyString) msg) = true.
Proof.
  intros Hok Hend. apply accepted_lang in Hok.
  destruct Hok as (u & d & -> & Hu & Hd). apply accepted_lang.
  destruct (lang_dollar d Hd) as [->| ->].
  - rewrite append_nil_r. exists u, (String "010"%char EmptyString).
    split; [reflexivity|]. split; [exact Hu|].
    apply lang_alt_r. constructor. reflexivity.
  - now rewrite endswith_append in Hend.
Qed.

End AssertionProperties.

(* ===================================================================== *)
(** ** The statistics of a suite run *)
(* ===================================================================== *)

Section ReportProperties.
Import Scenarios Eff Agent Spec Reporter.
Context {Env Sess : Type} (H : Host Env Sess).

Lemma recorded_status tr :
  recorded tr ->
  tr_status tr = "passed" \/ tr_status tr = "failed" \/ tr_status tr = "error".
Proof.
  intros [-> _]. unfold scenario_status.
  destruct (nonempty _); [auto|]. destruct (nonempty _); auto.
Qed.

Lemma count_partition results :
  Forall recorded results ->
  (count_status "passed" results + count_status "failed" results
   + count_status "error" results = length results)%nat.
Proof.
  unfold count_status. induction 1 as [|tr rs Htr _ IH]; [reflexivity|].
  simpl. destruct (recorded_status tr Htr) as [Hs|[Hs|Hs]]; rewrite Hs;
    simpl; lia.
Qed.

Lemma passed_failed_le tr : (passed_steps tr + failed_steps tr <= total_steps tr)%nat.
Proof.
  unfold passed_steps, failed_steps, total_steps, with_status.
  induction (step_results tr) as [|r rs IH]; simpl; [lia|].
  destruct (String.eqb (status r) "passed") eqn:Hp; simpl.
  - apply String.eqb_eq in Hp. rewrite Hp. simpl. lia.
  - destruct (String.eqb (status r) "failed"); simpl; lia.
Qed.

Lemma recorded_passed tr :
  recorded tr ->
  tr_status tr = "passed" <-> passed_steps tr = total_steps tr.
Proof.
  intros [Hst [Hv _]]. rewrite Hst. now apply passed_iff_all_passed.
Qed.

Lemma all_passed_iff results :
  Forall recorded results ->
  count_status "passed" results = length results <->
  sum_nat passed_steps results = sum_nat total_steps results.
Proof.
  unfold count_status.
  induction 1 as [|tr rs Htr Hrs IH]; simpl; [tauto|].
  pose proof (passed_failed_le tr) as Hle.
  pose proof (filter_length_le (fun r => String.eqb (tr_status r) "passed") rs)
    as Hf.
  assert (Hsum : (sum_nat passed_steps rs <= sum_nat total_steps rs)%nat).
  { clear. induction rs as [|x rs IH]; simpl; [lia|].
    pose proof (passed_failed_le x). lia. }
  pose proof (recorded_passed tr Htr) as Hp.
  destruct (String.eqb (tr_status tr) "passed") eqn:E; simpl.
  - apply String.eqb_eq in E. apply Hp in E. rewrite E. split; intros Hx.
    + f_equal. apply IH. lia.
    + f_equal. apply IH. lia.
  - apply String.eqb_neq in E. split; intros Hx; [lia|].
    assert (passed_steps tr = total_steps tr) by lia. tauto.
Qed.

Lemma pass_rate_range (p t : nat) :
  (p <= t)%nat -> (0 < t)%nat ->
  (0 <= (Z.of_nat p # Pos.of_nat t) * inject_Z 100 <= inject_Z 100)%Q.
Proof.
  intros Hpt Ht. unfold Qle, Qmult, inject_Z. simpl.
  assert (Hpos : Z.pos (Pos.of_nat t) = Z.of_nat t).
  { rewrite <- (Nat2Pos.id t) at 2 by lia. now rewrite positive_nat_Z. }
  rewrite !Pos.mul_1_r, Hpos. lia.
Qed.

(** X28: the statistics of a suite run add up.  For the results that
    [run_suite] returns, [_calculate_stats] counts one scenario per
    scenario of the suite; every scenario is passed, failed or error, so
    the three counters add up to the total; passed and failed steps
    never exceed the total number of steps; all scenarios are passed
    exactly when all steps are; and the pass rate lies between 0 and
    100.  For no results at all every counter and the pass rate are 0:
    nothing is divided by zero. *)
Theorem suite_statistics_add_up suite (m : Machine Env) results m' :
  run_suite H suite m = (Return results, m') ->
  let s := _calculate_stats results in
  total_scenarios s = length (scenarios suite) /\
  (passed_scenarios s + failed_scenarios s + error_scenarios s
   = total_scenarios s)%nat /\
  (st_passed_steps s + st_failed_steps s <= st_total_steps s)%nat /\
  (passed_scenarios s = total_scenarios s <->
   st_passed_steps s = st_total_steps s) /\
  (0 <= pass_rate s <= inject_Z 100)%Q /\
  _calculate_stats [] = mkStats 0 0 0 0 0 0 0 0 0%Q.
Proof.
  intros Hrun.
  destruct (wp_elim _ _ _ _ _ (run_suite_wp H suite m) Hrun)
    as (rs & _ & _ & Hrec & <- & Hmap).
  cbn zeta. unfold _calculate_stats.
  cbn [total_scenarios passed_scenarios failed_scenarios error_scenarios
       st_total_steps st_passed_steps st_failed_steps pass_rate].
  split; [now rewrite <- Hmap, length_map|].
  split; [now apply count_partition|]. split; [|split; [|split]].
  - clear. induction results as [|x rs IH]; simpl; [lia|].
    pose proof (passed_failed_le x). lia.
  - now apply all_passed_iff.
  - destruct (Nat.ltb_spec 0 (length results)) as [Hlt|Hge].
    + apply pass_rate_range; [|exact Hlt].
      apply (filter_length_le (fun r => String.eqb (tr_status r) "passed")).
    + split; [apply Qle_refl|]. unfold Qle. simpl. lia.
  - reflexivity.
Qed.

End ReportProperties.

(* ===================================================================== *)
(** ** The further properties on examples *)
(* ===================================================================== *)

Section FurtherExamples.
Import Scenarios Eff Agent Spec.

Lemma step_requests_witness :
  exists r m',
    run_step_in_session Sim.host tt Sim.probe
      (Sim.boot Sim.quiet [Sim.text_answer "Error: no such element"] [])
    = (Return r, m') /\
    calls m' = [("browser_click", {[ "selector" := PStr "#menu" ]});
                ("browser_screenshot", ∅)].
Proof.
  destruct (step_requests_are_determined Sim.host tt Sim.probe
              (Sim.boot Sim.quiet [Sim.text_answer "Error: no such element"] []))
    as (r & m' & extra & Hrun & Hc & _ & _ & _ & _ & Hf).
  exists r, m'. split; [exact Hrun|].
  assert (Hs : status r = "failed").
  { pose proof Hrun as Hv. vm_compute in Hv. injection Hv as <- _.
    reflexivity. }
  rewrite Hc, (Hf Hs eq_refl). reflexivity.
Defined.

Lemma unknown_action_witness :
  exists r m',
    run_step_in_session Sim.host tt Sim.hover_step (Sim.boot Sim.quiet [] [])
    = (Return r, m') /\
    status r = "failed" /\ message r = "Unknown action: hover" /\
    calls m' = [].
Proof.
  destruct (unknown_action_fails_without_request Sim.host tt Sim.hover_step
              (Sim.boot Sim.quiet [] []) eq_refl)
    as (r & m' & Hrun & _ & Hoff & _).
  destruct (Hoff eq_refl) as (Hs & Hm & _ & Hc).
  exists r, m'. split; [exact Hrun|]. split; [exact Hs|].
  split; [exact Hm|exact Hc].
Defined.

Lemma unimplemented_action_witness :
  exists r m',
    run_step_in_session Sim.host tt Sim.hover_step
      (Sim.boot Sim.quiet [Sim.text_answer "ok"] [])
    = (Return r, m') /\
    status r = "failed" /\
    calls m' = [].
Proof.
  destruct (unimplemented_action_types Sim.host tt HOVER Sim.hover_step
              (Sim.boot Sim.quiet [Sim.text_answer "ok"] []))
    as (r & m' & Hrun & Hs & Hc).
  - simpl. tauto.
  - reflexivity.
  - reflexivity.
  - exists r, m'. split; [exact Hrun|]. split; [exact Hs|exact Hc].
Defined.

Lemma assert_url_witness :
  exists r m',
    run_step_in_session Sim.host tt Sim.at_login (Sim.boot Sim.quiet [] [])
    = (Return r, m') /\
    status r <> "passed".
Proof.
  destruct (assert_url_reads_recorded_address Sim.host tt Sim.at_login
              (Sim.boot Sim.quiet [] []) eq_refl)
    as (r & m' & Hrun & Hiff & _).
  exists r, m'. split; [exact Hrun|].
  intros Hp. apply Hiff in Hp. vm_compute in Hp. discriminate.
Defined.

Lemma uncritical_scenario_witness :
  exists tr m',
    run_scenario Sim.host Sim.errands
      (Sim.boot Sim.quiet [Sim.text_answer "Error: gone"] [])
    = (Return tr, m') /\
    map step (step_results tr)
    = [Sim.click_step "a" false; Sim.click_step "b" false;
       Sim.click_step "z" true].
Proof.
  destruct (run_scenario Sim.host Sim.errands
              (Sim.boot Sim.quiet [Sim.text_answer "Error: gone"] []))
    as [[tr|e] m'] eqn:Hrun; [|vm_compute in Hrun; discriminate].
  exists tr, m'. split; [reflexivity|].
  refine (uncritical_scenario_runs_every_step Sim.host Sim.errands _ tr m'
            _ Hrun).
  repeat constructor.
Defined.

Lemma scenario_accounting_witness :
  exists tr m',
    run_scenario Sim.host Sim.checkout
      (Sim.boot Sim.quiet [Sim.text_answer "ok";
                           Sim.text_answer "Error: declined"] [])
    = (Return tr, m') /\
    (passed_steps tr + failed_steps tr
     + length (with_status "error" (step_results tr)) = total_steps tr)%nat /\
    (total_steps tr <= 4)%nat.
Proof.
  destruct (run_scenario Sim.host Sim.checkout
              (Sim.boot Sim.quiet [Sim.text_answer "ok";
                                   Sim.text_answer "Error: declined"] []))
    as [[tr|e] m'] eqn:Hrun; [|vm_compute in Hrun; discriminate].
  exists tr, m'. split; [reflexivity|].
  destruct (scenario_result_accounting Sim.host Sim.checkout _ tr m' Hrun)
    as (Hsum & Hle & _).
  split; [exact Hsum|exact Hle].
Defined.

Lemma suite_results_witness :
  exists o m' rs,
    run_suite Sim.host Sim.trio
      (Sim.boot Sim.quiet [] [None; Some "spawn failed"; None])
    = (o, m') /\
    test_results (self m') = rs /\
    map scenario rs `prefix_of` scenarios Sim.trio.
Proof.
  destruct (run_suite Sim.host Sim.trio
              (Sim.boot Sim.quiet [] [None; Some "spawn failed"; None]))
    as [o m'] eqn:Hrun.
  destruct (suite_results_are_recorded Sim.host Sim.trio _ o m' Hrun)
    as (rs & _ & Htr & Hp & _).
  exists o, m', rs. split; [reflexivity|]. split; [exact Htr|exact Hp].
Defined.

Lemma page_load_witness :
  exists tr m' r0,
    test_page_loads Sim.host "http://localhost:3000" (Some "Welcome")
      (Sim.boot Sim.quiet [Sim.text_answer "Error: net::ERR_FAILED"] [])
    = (Return tr, m') /\
    step_results tr = [r0] /\ tr_status tr <> "passed".
Proof.
  destruct (test_page_loads Sim.host "http://localhost:3000" (Some "Welcome")
              (Sim.boot Sim.quiet [Sim.text_answer "Error: net::ERR_FAILED"] []))
    as [[tr|e] m'] eqn:Hrun; [|vm_compute in Hrun; discriminate].
  destruct (page_load_test_stops_at_failed_navigation Sim.host _ _ _ tr m' Hrun)
    as (r0 & rest & Hrs & _ & Hcut & _).
  assert (Hnp : status r0 <> "passed").
  { pose proof Hrun as Hval. vm_compute in Hval. injection Hval as <- _.
    injection Hrs as <- _. discriminate. }
  destruct (Hcut Hnp) as [-> Hst].
  exists tr, m', r0. split; [reflexivity|]. split; [exact Hrs|exact Hst].
Defined.

Lemma form_test_witness :
  exists tr m',
    test_form_submission Sim.host "http://localhost:3000/signup"
      [("#email", "a@b.c"); ("#name", "Ann")] "#submit" "Thank you"
      (Sim.boot Sim.quiet [] [])
    = (Return tr, m') /\
    map step (step_results tr) `prefix_of` steps (scenario tr).
Proof.
  destruct (test_form_submission Sim.host "http://localhost:3000/signup"
              [("#email", "a@b.c"); ("#name", "Ann")] "#submit" "Thank you"
              (Sim.boot Sim.quiet [] []))
    as [[tr|e] m'] eqn:Hrun; [|vm_compute in Hrun; discriminate].
  exists tr, m'. split; [reflexivity|].
  exact (proj1 (form_test_stops_at_navigation_or_submit Sim.host _ _ _ _ _
                  tr m' Hrun)).
Defined.

Lemma strict_step_witness :
  exists e, step_from_dict {[ "name" := PStr "open" ]} = inl e.
Proof.
  apply step_from_dict_is_strict. right. right. vm_compute. reflexivity.
Defined.

Lemma accepted_url_witness :
  exists scheme rest d,
    "HTTPS://Example.com/a?b=1" = (scheme +:+ "://" +:+ rest) +:+ d /\
    PyStr.startswith (PyStr.lower scheme) "http" = true.
Proof.
  destruct (accepted_url_shape Assertions.Assertions_init
              "HTTPS://Example.com/a?b=1" EmptyString)
    as (scheme & rest & d & Hsplit & _ & Hhttp & _).
  - vm_compute. reflexivity.
  - exists scheme, rest, d. split; [exact Hsplit|exact Hhttp].
Defined.

Lemma trailing_newline_witness :
  snd (Assertions.is_valid_url Assertions.Assertions_init
         ("https://example.com" +:+ String "010"%char EmptyString) EmptyString)
  = true.
Proof.
  apply url_with_trailing_newline_is_accepted; vm_compute; reflexivity.
Defined.

Lemma navigate_witness :
  exists resp m',
    navigate Sim.host "http://localhost:3000"
      (Sim.boot Sim.quiet [Sim.text_answer "Error: net::ERR_FAILED"] [])
    = (Return resp, m') /\
    current_url (self m') = EmptyString.
Proof.
  destruct (navigate Sim.host "http://localhost:3000"
              (Sim.boot Sim.quiet [Sim.text_answer "Error: net::ERR_FAILED"] []))
    as [[resp|e] m'] eqn:Hrun; [|vm_compute in Hrun; discriminate].
  destruct (navigate_records_address_on_success Sim.host _ _ _ m' Hrun)
    as (_ & _ & _ & Hret & _).
  destruct (Hret resp eq_refl) as [Hurl _].
  exists resp, m'. split; [reflexivity|]. rewrite Hurl.
  vm_compute in Hrun. injection Hrun as <- _. reflexivity.
Defined.

Lemma assert_text_present_witness :
  exists o m',
    assert_text_present Sim.host EmptyString
      (Sim.boot Sim.quiet [Sim.text_answer "Error: no page"] [])
    = (o, m') /\
    o = Return true.
Proof.
  destruct (assert_text_present Sim.host EmptyString
              (Sim.boot Sim.quiet [Sim.text_answer "Error: no page"] []))
    as [o m'] eqn:Hrun.
  destruct (assert_text_present_answers Sim.host _ _ o m' Hrun)
    as (_ & _ & Hempty & _).
  exists o, m'. split; [reflexivity|].
  destruct o as [b|e]; [|vm_compute in Hrun; discriminate].
  now rewrite (Hempty eq_refl b eq_refl).
Defined.

Lemma suite_statistics_witness :
  exists results m',
    run_suite Sim.host Sim.trio
      (Sim.boot Sim.quiet [Sim.text_answer "Error: gone"] [])
    = (Return results, m') /\
    Reporter.total_scenarios (Reporter._calculate_stats results) = 3%nat.
Proof.
  destruct (run_suite Sim.host Sim.trio
              (Sim.boot Sim.quiet [Sim.text_answer "Error: gone"] []))
    as [[results|e] m'] eqn:Hrun; [|vm_compute in Hrun; discriminate].
  exists results, m'. split; [reflexivity|].
  exact (proj1 (suite_statistics_add_up Sim.host Sim.trio _ results m' Hrun)).
Defined.

Lemma screenshot_without_image_witness :
  exists r m',
    run_step_in_session Sim.host tt Sim.snap
      (Sim.boot Sim.quiet [Sim.text_answer "saved"] [])
    = (Return r, m') /\
    status r = "passed" /\ screenshot r = EmptyString.
Proof.
  destruct (screenshot_step_passes_without_image Sim.host tt Sim.snap
              (Sim.boot Sim.quiet [Sim.text_answer "saved"] [])
              {| cr_content := [TextContent "saved"]; isError := false |}
              (Sim.mkWorld 1 [] [] true))
    as (r & m' & Hrun & Hs & Hshot & _).
  - reflexivity.
  - vm_compute. reflexivity.
  - reflexivity.
  - constructor; [intros [=]|constructor].
  - exists r, m'. split; [exact Hrun|]. split; [exact Hs|exact Hshot].
Defined.

Lemma screenshot_path_witness :
  exists p m',
    _save_screenshot Sim.host "aGVsbG8=" "/tmp/shot" (Sim.boot Sim.quiet [] [])
    = (Return p, m') /\
    p = "/tmp/shot_0.png".
Proof.
  destruct (_save_screenshot Sim.host "aGVsbG8=" "/tmp/shot"
              (Sim.boot Sim.quiet [] []))
    as [[p|e] m'] eqn:Hrun; [|vm_compute in Hrun; discriminate].
  exists p, m'. split; [reflexivity|].
  destruct (screenshot_path_follows_name Sim.host _ _ _ p m' Hrun)
    as (_ & _ & _ & _ & Habs & _).
  rewrite (Habs eq_refl). vm_compute. reflexivity.
Defined.

Lemma scenario_requests_witness :
  exists tr m',
    run_scenario Sim.host Sim.checkout
      (Sim.boot Sim.quiet [Sim.text_answer "ok";
                           Sim.text_answer "Error: declined"] [])
    = (Return tr, m') /\
    (length (calls m') <= 2 * total_steps tr)%nat.
Proof.
  destruct (run_scenario Sim.host Sim.checkout
              (Sim.boot Sim.quiet [Sim.text_answer "ok";
                                   Sim.text_answer "Error: declined"] []))
    as [[tr|e] m'] eqn:Hrun; [|vm_compute in Hrun; discriminate].
  destruct (scenario_requests_are_bounded Sim.host Sim.checkout _ tr m' Hrun)
    as (ls & _ & Hl & Hn & _).
  exists tr, m'. split; [reflexivity|]. rewrite Hl. exact Hn.
Defined.

Lemma template_run_witness :
  exists tr m' r0,
    run_scenario Sim.host (accessibility_check "http://localhost:3000")
      (Sim.boot Sim.quiet [Sim.text_answer "Error: net::ERR_FAILED"] [])
    = (Return tr, m') /\
    step_results tr = [r0] /\ tr_status tr <> "passed".
Proof.
  destruct (run_scenario Sim.host (accessibility_check "http://localhost:3000")
              (Sim.boot Sim.quiet [Sim.text_answer "Error: net::ERR_FAILED"] []))
    as [[tr|e] m'] eqn:Hrun; [|vm_compute in Hrun; discriminate].
  destruct (templates_stop_at_failed_navigation Sim.host _
              "http://localhost:3000" None EmptyString [] _ tr m'
              (or_intror (or_intror eq_refl)) Hrun)
    as (r0 & rest & Hrs & _ & Hcut & _).
  assert (Hnp : status r0 <> "passed").
  { pose proof Hrun as Hval. vm_compute in Hval. injection Hval as <- _.
    injection Hrs as <- _. discriminate. }
  destruct (Hcut Hnp) as [-> Hst].
  exists tr, m', r0. split; [reflexivity|]. split; [exact Hrs|exact Hst].
Defined.

End FurtherExamples.
